(** * Wanderer: affine transforms, the physics integrator and its constraints

    A shallow embedding of [src/src/math.ts] ([Vector2], [WTransformMatrix3],
    [clamp]) and of the physics part of [src/js/math.js] ([WPhysicsModel] and
    the constraint classes), with the properties the specification states
    about them.

    Numbers.  A JavaScript number is modelled by [num]: a finite real, one of
    the two infinities, or NaN.  The arithmetic follows IEEE 754 on the
    special values (an infinity minus itself is NaN, zero times an infinity
    is NaN, a non-zero finite number divided by zero is an infinity, ...).
    Two things are idealised: finite arithmetic is exact (no rounding, no
    overflow, and the [Float32Array] behind a transform stores what is
    written to it), and there is one zero (no negative zero; a division by
    zero takes the sign of the dividend).  A statement that rests on exact
    arithmetic says so, in the words "in exact arithmetic".  The others
    follow the program operation by operation, and put their conditions on
    the numbers that the program computes (a product, a quotient or a sum
    that is finite) and not on its inputs, so that they read the same on
    doubles, where a product of finite numbers can overflow. *)

From Stdlib Require Import Reals Lra Lia ZArith Ascii String List Bool Arith.
Import ListNotations.

Local Open Scope R_scope.

(* ================================================================= *)
(** ** Numbers *)

Inductive num : Type :=
| NaN
| PInf
| NInf
| Fin (r : R).

Declare Scope num_scope.
Delimit Scope num_scope with num.
Bind Scope num_scope with num.

Module Num.

Definition zero : num := Fin 0.
Definition one : num := Fin 1.

(** The infinity of the given sign ([true] is positive). *)
Definition inf (positive : bool) : num := if positive then PInf else NInf.

(** An infinity times (or divided by) a finite factor: the sign follows the
    factor, and a zero factor has no sign to give. *)
Definition inf_times (positive : bool) (r : R) : num :=
  if Rlt_dec 0 r then inf positive
  else if Rlt_dec r 0 then inf (negb positive)
  else NaN.

(** Unary minus. *)
Definition neg (a : num) : num :=
  match a with
  | NaN => NaN
  | PInf => NInf
  | NInf => PInf
  | Fin r => Fin (- r)
  end.

(** [a + b]. *)
Definition add (a b : num) : num :=
  match a, b with
  | NaN, _ | _, NaN => NaN
  | PInf, NInf | NInf, PInf => NaN
  | PInf, _ | _, PInf => PInf
  | NInf, _ | _, NInf => NInf
  | Fin r, Fin s => Fin (r + s)
  end.

(** [a - b]. *)
Definition sub (a b : num) : num := add a (neg b).

(** [a * b]. *)
Definition mul (a b : num) : num :=
  match a, b with
  | NaN, _ | _, NaN => NaN
  | PInf, PInf | NInf, NInf => PInf
  | PInf, NInf | NInf, PInf => NInf
  | PInf, Fin r | Fin r, PInf => inf_times true r
  | NInf, Fin r | Fin r, NInf => inf_times false r
  | Fin r, Fin s => Fin (r * s)
  end.

(** [a / b]. *)
Definition div (a b : num) : num :=
  match a, b with
  | NaN, _ | _, NaN => NaN
  | (PInf | NInf), (PInf | NInf) => NaN
  | PInf, Fin s => if Rlt_dec s 0 then NInf else PInf
  | NInf, Fin s => if Rlt_dec s 0 then PInf else NInf
  | Fin _, (PInf | NInf) => Fin 0
  | Fin r, Fin s =>
      if Req_dec_T s 0 then inf_times true r else Fin (r / s)
  end.

(** [a < b]: false as soon as one side is NaN. *)
Definition ltb (a b : num) : bool :=
  match a, b with
  | NaN, _ | _, NaN => false
  | _, NInf => false
  | PInf, _ => false
  | NInf, _ => true
  | Fin _, PInf => true
  | Fin r, Fin s => if Rlt_dec r s then true else false
  end.

(** [a > b]. *)
Definition gtb (a b : num) : bool := ltb b a.

(** [a <= b]: false as soon as one side is NaN. *)
Definition leb (a b : num) : bool :=
  match a, b with
  | NaN, _ | _, NaN => false
  | NInf, _ | _, PInf => true
  | _, NInf | PInf, _ => false
  | Fin r, Fin s => if Rle_dec r s then true else false
  end.

(** [a !== b] on numbers: NaN differs from everything, itself included. *)
Definition strict_neq (a b : num) : bool :=
  match a, b with
  | NaN, _ | _, NaN => true
  | PInf, PInf | NInf, NInf => false
  | Fin r, Fin s => if Req_dec_T r s then false else true
  | _, _ => true
  end.

(** Truthiness of a number, as [||] tests it: zero and NaN are falsy. *)
Definition truthy (a : num) : bool :=
  match a with
  | NaN => false
  | Fin r => if Req_dec_T r 0 then false else true
  | _ => true
  end.

(** [a || b] on numbers. *)
Definition or_else (a b : num) : num := if truthy a then a else b.

(** [Number.isFinite]. *)
Definition isFinite (a : num) : bool :=
  match a with
  | Fin _ => true
  | _ => false
  end.

(** [Math.max] and [Math.min] of two numbers: NaN if either is. *)
Definition max (a b : num) : num :=
  match a, b with
  | NaN, _ | _, NaN => NaN
  | _, _ => if ltb a b then b else a
  end.

Definition min (a b : num) : num :=
  match a, b with
  | NaN, _ | _, NaN => NaN
  | _, _ => if ltb b a then b else a
  end.

(** [Math.abs]. *)
Definition abs (a : num) : num :=
  match a with
  | NaN => NaN
  | PInf | NInf => PInf
  | Fin r => Fin (Rabs r)
  end.

(** [Math.sqrt]. *)
Definition sqrt (a : num) : num :=
  match a with
  | NaN | NInf => NaN
  | PInf => PInf
  | Fin r => if Rlt_dec r 0 then NaN else Fin (R_sqrt.sqrt r)
  end.

(** [Math.hypot] of two numbers: an infinite argument wins over NaN. *)
Definition hypot (a b : num) : num :=
  match a, b with
  | (PInf | NInf), _ | _, (PInf | NInf) => PInf
  | NaN, _ | _, NaN => NaN
  | Fin r, Fin s => Fin (R_sqrt.sqrt (r * r + s * s))
  end.

(** [Math.cos], [Math.sin]. *)
Definition cos (a : num) : num :=
  match a with
  | Fin r => Fin (Rtrigo_def.cos r)
  | _ => NaN
  end.

Definition sin (a : num) : num :=
  match a with
  | Fin r => Fin (Rtrigo_def.sin r)
  | _ => NaN
  end.

(** [Math.tan]: sine over cosine, so that a pole is an infinity. *)
Definition tan (a : num) : num := div (sin a) (cos a).

(** [Math.atan]. *)
Definition atan (a : num) : num :=
  match a with
  | NaN => NaN
  | PInf => Fin (PI / 2)
  | NInf => Fin (- (PI / 2))
  | Fin r => Fin (Ratan.atan r)
  end.

(** The angle of the point [(x, y)] of the plane, in (-PI, PI], and 0 at the
    origin. *)
Definition Ratan2 (y x : R) : R :=
  if Rlt_dec 0 x then Ratan.atan (y / x)
  else if Rlt_dec x 0 then
    if Rlt_dec y 0 then Ratan.atan (y / x) - PI else Ratan.atan (y / x) + PI
  else if Rlt_dec 0 y then PI / 2
  else if Rlt_dec y 0 then - (PI / 2)
  else 0.

(** [Math.atan2 (y, x)]. *)
Definition atan2 (y x : num) : num :=
  match y, x with
  | NaN, _ | _, NaN => NaN
  | PInf, PInf => Fin (PI / 4)
  | PInf, NInf => Fin (3 * PI / 4)
  | NInf, PInf => Fin (- (PI / 4))
  | NInf, NInf => Fin (- (3 * PI / 4))
  | PInf, Fin _ => Fin (PI / 2)
  | NInf, Fin _ => Fin (- (PI / 2))
  | Fin _, PInf => Fin 0
  | Fin r, NInf => if Rlt_dec r 0 then Fin (- PI) else Fin PI
  | Fin r, Fin s => Fin (Ratan2 r s)
  end.

(** [Math.PI]. *)
Definition pi : num := Fin PI.

End Num.

Notation "a + b" := (Num.add a b) : num_scope.
Notation "a - b" := (Num.sub a b) : num_scope.
Notation "a * b" := (Num.mul a b) : num_scope.
Notation "a / b" := (Num.div a b) : num_scope.
Notation "- a" := (Num.neg a) : num_scope.
Notation "a >? b" := (Num.gtb a b) (at level 70) : num_scope.
Notation "a <? b" := (Num.ltb a b) (at level 70) : num_scope.
Notation "a <=? b" := (Num.leb a b) (at level 70) : num_scope.

Module NumExtra.

(** [x ** 2]. *)
Definition sq (a : num) : num := Num.mul a a.

(** The number an argument stands for: a missing argument is [undefined],
    which arithmetic and [Math] functions read as NaN. *)
Definition of_arg (a : option num) : num :=
  match a with
  | Some v => v
  | None => NaN
  end.

(** A parameter with a default value. *)
Definition default (d : num) (a : option num) : num :=
  match a with
  | Some v => v
  | None => d
  end.

End NumExtra.

(** [clamp] of math.ts. *)
Definition clamp (value min max : num) : num :=
  Num.min (Num.max min value) max.

Local Open Scope num_scope.

(* ================================================================= *)
(** ** Vector2 *)

Module Vector2.

Record t : Type := mk { x : num; y : num }.

(** [vec2 (x, y)] is [new Vector2 (x, y ?? x)]. *)
Definition vec2 (x : num) (y : option num) : t :=
  mk x (NumExtra.default x y).

(** [add (...v)]: the receiver after the call (it is updated in place). *)
Definition add (this : t) (v : list t) : t :=
  fold_left (fun acc w => mk (x acc + x w) (y acc + y w)) v this.

(** [sum (...v)]. *)
Definition sum (this : t) (v : list t) : t :=
  fold_left (fun ret vec => mk (x ret + x vec) (y ret + y vec)) v
            (vec2 (x this) (Some (y this))).

Definition dif (this v : t) : t :=
  vec2 (x this - x v) (Some (y this - y v)).

(** [mult (...v)]. *)
Definition mult (this : t) (v : list t) : t :=
  fold_left (fun ret vec => mk (x ret * x vec) (y ret * y vec)) v
            (vec2 (x this) (Some (y this))).

Definition div (this v : t) : t :=
  vec2 (x this / x v) (Some (y this / y v)).

Definition scale (this : t) (n : num) : t :=
  vec2 (x this * n) (Some (y this * n)).

Definition dot (this v : t) : num := x this * x v + y this * y v.

Definition triProd (this v : t) : t :=
  let crossZ := x this * y v - y this * x v in
  vec2 (y this * crossZ) (Some (- x this * crossZ)).

Definition right (this : t) : t := vec2 (y this) (Some (- x this)).

Definition left (this : t) : t := vec2 (- y this) (Some (x this)).

Definition abs (this : t) : t :=
  vec2 (Num.abs (x this)) (Some (Num.abs (y this))).

Definition length (this : t) : num := Num.hypot (x this) (y this).

(** Modelled from the spec: the getter [size] that physics.js reads on a
    vector is not in the sources at hand (the [Vector2] there calls it
    [length]); the spec gives it as the Euclidean norm, [dl = |diff|]. *)
Definition size (this : t) : num := Num.hypot (x this) (y this).

Definition neg (this : t) : t := vec2 (- x this) (Some (- y this)).

Definition norm (this : t) : t := scale this (Num.one / length this).

Definition rotation (this : t) : num := Num.atan2 (y this) (x this).

(** What [const [a, b] = v] binds. *)
Definition iter (this : t) : num * num := (x this, y this).

(** [Vector2.fromDegree (degree, length = 1)] of math.ts. *)
Definition fromDegree (degree : num) (length : option num) : t :=
  let length := NumExtra.default Num.one length in
  vec2 (length * Num.cos degree) (Some (length * Num.sin degree)).

(** [Vector2.fromDegree (length, degree)] of the compiled math.js: the
    parameters come in the other order and have no default. *)
Definition fromDegree_js (length degree : option num) : t :=
  vec2 (NumExtra.of_arg length * Num.cos (NumExtra.of_arg degree))
       (Some (NumExtra.of_arg length * Num.sin (NumExtra.of_arg degree))).

Definition zero : t := vec2 Num.zero None.

End Vector2.

Abbreviation Vector2 := Vector2.t.
Abbreviation vec2 := Vector2.vec2.

(* ================================================================= *)
(** ** WTransformMatrix3 *)

(** The nine coefficients of a [Float32Array (9)], by index.  A coefficient
    is the number that was written: the rounding to 32 bits on the way into
    the array is left out, with the underflow and the overflow it brings. *)
Record Float32x9 : Type := mkData {
  d0 : num; d1 : num; d2 : num;
  d3 : num; d4 : num; d5 : num;
  d6 : num; d7 : num; d8 : num
}.

Module WTransformMatrix3.

Record t : Type := mk {
  _translate : Vector2;
  _direct : Vector2;
  _skew : num;
  _scale : Vector2;
  _data : Float32x9
}.

Definition calcMatrix (this : t) : t :=
  let '(tx, ty) := Vector2.iter (_translate this) in
  let '(rx, ry) := Vector2.iter (_direct this) in
  let '(sx, sy) := Vector2.iter (_scale this) in
  let k := _skew this in
  mk (_translate this) (_direct this) (_skew this) (_scale this)
     (mkData (rx * sx) (ry * sx) Num.zero
             ((rx * k - ry) * sy) ((ry * k + rx) * sy) Num.zero
             tx ty Num.one).

Definition calcFields (this : t) : t :=
  let m11 := d0 (_data this) in
  let m12 := d1 (_data this) in
  let m21 := d3 (_data this) in
  let m22 := d4 (_data this) in
  let m31 := d6 (_data this) in
  let m32 := d7 (_data this) in
  let direct := Vector2.norm (vec2 m11 (Some m12)) in
  let sk := Num.atan2 m22 m21 - Num.pi / Fin 2 - Vector2.rotation direct in
  let skew := - Num.tan sk in
  let scale_x := Num.sqrt (NumExtra.sq m11 + NumExtra.sq m12) in
  let scale_y := Num.sqrt (NumExtra.sq m21 + NumExtra.sq m22) * Num.cos sk in
  mk (vec2 m31 (Some m32)) direct skew (Vector2.mk scale_x scale_y)
     (_data this).

(** The constructor's options; [None] is an option left out. *)
Record options : Type := mkOptions {
  o_translate : option Vector2;
  o_rotate : option num;
  o_skew : option num;
  o_scale : option Vector2
}.

Definition new (o : options) : t :=
  let translate :=
    match o_translate o with Some v => v | None => vec2 Num.zero None end in
  let rotate := NumExtra.default Num.zero (o_rotate o) in
  let skew := NumExtra.default Num.zero (o_skew o) in
  let scale :=
    match o_scale o with Some v => v | None => vec2 Num.one None end in
  calcMatrix
    (mk translate (Vector2.fromDegree rotate None) (Num.tan skew) scale
        (mkData Num.zero Num.zero Num.zero Num.zero Num.zero Num.zero
                Num.zero Num.zero Num.zero)).

Definition translateX (this : t) (x : num) : t :=
  calcMatrix
    (mk (Vector2.mk x (Vector2.y (_translate this)))
        (_direct this) (_skew this) (_scale this) (_data this)).

Definition translateY (this : t) (y : num) : t :=
  calcMatrix
    (mk (Vector2.mk (Vector2.x (_translate this)) y)
        (_direct this) (_skew this) (_scale this) (_data this)).

Definition translate (this : t) (x y : num) : t :=
  calcMatrix
    (mk (vec2 x (Some y)) (_direct this) (_skew this) (_scale this)
        (_data this)).

(** [rotate (r)] and [rotate (x, y)]. *)
Definition rotate (this : t) (v0 : num) (v1 : option num) : t :=
  let direct :=
    match v1 with
    | Some v1 => Vector2.norm (vec2 v0 (Some v1))
    | None => Vector2.fromDegree v0 None
    end in
  calcMatrix
    (mk (_translate this) direct (_skew this) (_scale this) (_data this)).

Definition scaleX (this : t) (sx : num) : t :=
  calcMatrix
    (mk (_translate this) (_direct this) (_skew this)
        (Vector2.mk sx (Vector2.y (_scale this))) (_data this)).

Definition scaleY (this : t) (sy : num) : t :=
  calcMatrix
    (mk (_translate this) (_direct this) (_skew this)
        (Vector2.mk (Vector2.x (_scale this)) sy) (_data this)).

Definition scale (this : t) (sx sy : num) : t :=
  calcMatrix
    (mk (_translate this) (_direct this) (_skew this) (vec2 sx (Some sy))
        (_data this)).

Definition skew (this : t) (k : num) : t :=
  calcMatrix
    (mk (_translate this) (_direct this) (Num.tan k) (_scale this)
        (_data this)).

(** [matrix (a = 1, b = 0, c = 0, d = 1, e = 0, f = 0)]. *)
Definition matrix (this : t) (a b c d e f : option num) : t :=
  calcFields
    (mk (_translate this) (_direct this) (_skew this) (_scale this)
        (mkData (NumExtra.default Num.one a) (NumExtra.default Num.zero b)
                Num.zero
                (NumExtra.default Num.zero c) (NumExtra.default Num.one d)
                Num.zero
                (NumExtra.default Num.zero e) (NumExtra.default Num.zero f)
                Num.one)).

Definition tx (this : t) : num := Vector2.x (_translate this).
Definition ty (this : t) : num := Vector2.y (_translate this).
Definition get_t (this : t) : Vector2 := Vector2.sum (_translate this) [].
Definition r (this : t) : num := Vector2.rotation (_direct this).
Definition sx (this : t) : num := Vector2.x (_scale this).
Definition sy (this : t) : num := Vector2.y (_scale this).
Definition s (this : t) : Vector2 := Vector2.sum (_scale this) [].
Definition k (this : t) : num := Num.atan (_skew this).
Definition kt (this : t) : num := _skew this.
Definition buffer (this : t) : Float32x9 := _data this.

(** Modelled from the spec: [setArray] is not in the sources at hand; the
    spec gives it as "replace raw coefficients wholesale, then calcFields". *)
Definition setArray (this : t) (arr : Float32x9) : t :=
  calcFields
    (mk (_translate this) (_direct this) (_skew this) (_scale this) arr).

(** Modelled from the spec: [copy] is not in the sources at hand; the spec
    gives it as an independent deep clone.  Values are not shared in this
    embedding, so the clone is the value itself. *)
Definition copy (this : t) : t := this.

(** Modelled from the spec: [mult] is not in the sources at hand; the spec
    gives it as the full 3x3 product [this o other] of the two coefficient
    matrices (nine sums of three products, as [WMatrix3.mult] of math.ts
    writes them), held by a new transform. *)
Definition mult (this other : t) : t :=
  let a := _data this in
  let b := _data other in
  setArray this
    (mkData
       (d0 a * d0 b + d3 a * d1 b + d6 a * d2 b)
       (d1 a * d0 b + d4 a * d1 b + d7 a * d2 b)
       (d2 a * d0 b + d5 a * d1 b + d8 a * d2 b)
       (d0 a * d3 b + d3 a * d4 b + d6 a * d5 b)
       (d1 a * d3 b + d4 a * d4 b + d7 a * d5 b)
       (d2 a * d3 b + d5 a * d4 b + d8 a * d5 b)
       (d0 a * d6 b + d3 a * d7 b + d6 a * d8 b)
       (d1 a * d6 b + d4 a * d7 b + d7 a * d8 b)
       (d2 a * d6 b + d5 a * d7 b + d8 a * d8 b)).

(** The getter [m]: the six coefficients [a, b, c, d, e, f]. *)
Definition m (this : t) : list num :=
  [d0 (_data this); d1 (_data this); d3 (_data this); d4 (_data this);
   d6 (_data this); d7 (_data this)].

(** The accessors [a] to [f]: a getter reads one coefficient, a setter
    writes it and calls [calcFields]. *)
Definition a (this : t) : num := d0 (_data this).
Definition b (this : t) : num := d1 (_data this).
Definition c (this : t) : num := d3 (_data this).
Definition d (this : t) : num := d4 (_data this).
Definition e (this : t) : num := d6 (_data this).
Definition f (this : t) : num := d7 (_data this).

(** [this.#data[i] = v], for the six indices the setters write. *)
Definition write (this : t) (data : Float32x9) : t :=
  mk (_translate this) (_direct this) (_skew this) (_scale this) data.

Definition set_a (this : t) (v : num) : t :=
  let w := _data this in
  calcFields
    (write this (mkData v (d1 w) (d2 w) (d3 w) (d4 w) (d5 w) (d6 w) (d7 w)
                        (d8 w))).

Definition set_b (this : t) (v : num) : t :=
  let w := _data this in
  calcFields
    (write this (mkData (d0 w) v (d2 w) (d3 w) (d4 w) (d5 w) (d6 w) (d7 w)
                        (d8 w))).

Definition set_c (this : t) (v : num) : t :=
  let w := _data this in
  calcFields
    (write this (mkData (d0 w) (d1 w) (d2 w) v (d4 w) (d5 w) (d6 w) (d7 w)
                        (d8 w))).

Definition set_d (this : t) (v : num) : t :=
  let w := _data this in
  calcFields
    (write this (mkData (d0 w) (d1 w) (d2 w) (d3 w) v (d5 w) (d6 w) (d7 w)
                        (d8 w))).

Definition set_e (this : t) (v : num) : t :=
  let w := _data this in
  calcFields
    (write this (mkData (d0 w) (d1 w) (d2 w) (d3 w) (d4 w) (d5 w) v (d7 w)
                        (d8 w))).

Definition set_f (this : t) (v : num) : t :=
  let w := _data this in
  calcFields
    (write this (mkData (d0 w) (d1 w) (d2 w) (d3 w) (d4 w) (d5 w) (d6 w) v
                        (d8 w))).

End WTransformMatrix3.

Abbreviation WTransformMatrix3 := WTransformMatrix3.t.

(* ================================================================= *)
(** ** WPhysicsModel *)

Module WPhysicsModel.

Record t : Type := mk {
  _origin : list num;
  _local : WTransformMatrix3;
  _global : WTransformMatrix3;
  velocity : Vector2;
  acceleration : Vector2;
  force : Vector2;
  mass : num
}.

Definition origin (this : t) : list num := _origin this.
Definition local (this : t) : WTransformMatrix3 := _local this.
Definition global (this : t) : WTransformMatrix3 := _global this.

Definition set_local (this : t) (m : WTransformMatrix3) : t :=
  mk (_origin this) m (_global this) (velocity this) (acceleration this)
     (force this) (mass this).

Definition set_global (this : t) (m : WTransformMatrix3) : t :=
  mk (_origin this) (_local this) m (velocity this) (acceleration this)
     (force this) (mass this).

Definition set_velocity (this : t) (v : Vector2) : t :=
  mk (_origin this) (_local this) (_global this) v (acceleration this)
     (force this) (mass this).

Definition set_acceleration (this : t) (v : Vector2) : t :=
  mk (_origin this) (_local this) (_global this) (velocity this) v
     (force this) (mass this).

Definition set_force (this : t) (v : Vector2) : t :=
  mk (_origin this) (_local this) (_global this) (velocity this)
     (acceleration this) v (mass this).

Definition applyForce (this : t) (force : Vector2) : t :=
  set_force this (Vector2.add (WPhysicsModel.force this) [force]).

Definition applyAcceleration (this : t) (acceleration : Vector2) : t :=
  set_acceleration this
    (Vector2.add (WPhysicsModel.acceleration this) [acceleration]).

Definition applyVelocity (this : t) (velocity : Vector2) : t :=
  set_velocity this (Vector2.add (WPhysicsModel.velocity this) [velocity]).

Definition move (this : t) (displacement : Vector2) : t :=
  let '(tx, ty) :=
    Vector2.iter
      (Vector2.sum (WTransformMatrix3.get_t (_local this)) [displacement]) in
  set_local this (WTransformMatrix3.translate (_local this) tx ty).

Definition updateLocation (this : t) (dt : num) : t :=
  let this :=
    applyAcceleration this (Vector2.scale (force this) (Num.one / mass this)) in
  let this := applyVelocity this (Vector2.scale (acceleration this) dt) in
  let this := move this (Vector2.scale (velocity this) dt) in
  let this := set_acceleration this (vec2 Num.zero None) in
  let this := set_force this (vec2 Num.zero None) in
  set_global this
    (WTransformMatrix3.setArray (_global this)
       (WTransformMatrix3.buffer (_local this))).

(** The constructor's options; [None] is an option left out. *)
Record options : Type := mkOptions {
  o_location : option Vector2;
  o_rotation : option num;
  o_scale : option Vector2;
  o_skew : option num;
  o_mass : option num;
  o_velocity : option Vector2;
  o_acceleration : option Vector2;
  o_origin : option Vector2
}.

Definition or_vec (d : Vector2) (o : option Vector2) : Vector2 :=
  match o with
  | Some v => v
  | None => d
  end.

Definition new (o : options) : t :=
  let location := or_vec (vec2 Num.zero None) (o_location o) in
  let rotation := NumExtra.default Num.zero (o_rotation o) in
  let scale := or_vec (vec2 Num.one None) (o_scale o) in
  let skew := NumExtra.default Num.zero (o_skew o) in
  let mass := NumExtra.default Num.one (o_mass o) in
  let velocity := or_vec (vec2 Num.zero None) (o_velocity o) in
  let acceleration := or_vec (vec2 Num.zero None) (o_acceleration o) in
  let origin := or_vec (vec2 Num.zero None) (o_origin o) in
  let local :=
    WTransformMatrix3.new
      (WTransformMatrix3.mkOptions (Some location) (Some rotation)
                                   (Some skew) (Some scale)) in
  updateLocation
    (mk [Vector2.x origin; Vector2.y origin] local
        (WTransformMatrix3.copy local) velocity acceleration
        (vec2 Num.zero None) mass)
    Num.zero.

End WPhysicsModel.

Abbreviation WPhysicsModel := WPhysicsModel.t.

(* ================================================================= *)
(** ** The bodies a constraint refers to

    A constraint holds references to its owner and its target, and [solve]
    updates the bodies in place.  The bodies live in a store, a reference is
    an index into it, and owner and target may be one and the same body. *)

Definition ref : Type := nat.
Bind Scope nat_scope with ref.
Definition store : Type := ref -> WPhysicsModel.

Definition upd (s : store) (p : ref) (b : WPhysicsModel) : store :=
  fun q => if Nat.eqb q p then b else s q.

(** A method call [p.m (...)] on the body behind a reference. *)
Definition call (s : store) (p : ref) (m : WPhysicsModel -> WPhysicsModel)
  : store :=
  upd s p (m (s p)).

(** [relativity == 'local' ? body.local : body.global]. *)
Definition select (relativity : string) (b : WPhysicsModel)
  : WTransformMatrix3 :=
  if String.eqb relativity "local" then WPhysicsModel.local b
  else WPhysicsModel.global b.

(** How a call ends: normally, or by throwing an [Error] with its message
    and cause.  A method that can throw returns its completion together with
    the store as the call leaves it, so that what was written before a throw
    stays visible. *)
Inductive completion : Type :=
| Normal
| Throw (message : string) (cause : string).

(* ================================================================= *)
(** ** Constraints *)

(** [ObjectConstraint]: the base class, whose [solve] does nothing;
    [LimitScaleConstraint] and [LimitRotationConstraint] inherit it. *)
Module ObjectConstraint.

Record t : Type := mk { owner : ref }.

Definition solve (this : t) (s : store) : store := s.

End ObjectConstraint.

Module WSpring.

Record t : Type := mk {
  owner : ref;
  target : ref;
  L0 : num;
  ks : num
}.

Definition solve (this : t) (s : store) : store :=
  let diff :=
    Vector2.dif
      (WTransformMatrix3.get_t (WPhysicsModel.global (s (owner this))))
      (WTransformMatrix3.get_t (WPhysicsModel.global (s (target this)))) in
  let dl := Vector2.size diff in
  let x := dl - L0 this in
  let f := ks this * x in
  let F_ba := Vector2.scale diff (f / Num.or_else dl PInf) in
  let F_ab := Vector2.neg F_ba in
  let s := call s (owner this) (fun b => WPhysicsModel.applyForce b F_ab) in
  call s (target this) (fun b => WPhysicsModel.applyForce b F_ba).

End WSpring.

Module WRope.

Record t : Type := mk {
  owner : ref;
  target : ref;
  length : num;
  bounce : num
}.

(** The nested tests of [solve] on [Number.isFinite] of the two masses,
    which set the shares [r1] and [r2] of the overshoot that owner and
    target take. *)
Definition shares (owner_mass target_mass : num) : num * num :=
  let sum := owner_mass + target_mass in
  if Num.isFinite owner_mass then
    if Num.isFinite target_mass then
      (target_mass / sum, owner_mass / sum)
    else (Num.one, Num.zero)
  else
    if Num.isFinite target_mass then (Num.zero, Num.one)
    else (Num.zero, Num.zero).

Definition solve (this : t) (s : store) : store :=
  let dir :=
    Vector2.dif
      (WTransformMatrix3.get_t (WPhysicsModel.global (s (target this))))
      (WTransformMatrix3.get_t (WPhysicsModel.global (s (owner this)))) in
  let diff := Vector2.size dir in
  if diff >? length this then
    let '(r1, r2) :=
      shares (WPhysicsModel.mass (s (owner this)))
             (WPhysicsModel.mass (s (target this))) in
    let mv := Vector2.scale dir ((diff - length this) / diff) in
    let m1 := Vector2.scale mv r1 in
    let m2 := Vector2.scale mv (- r2) in
    let s := call s (owner this) (fun b => WPhysicsModel.move b m1) in
    let s := call s (target this) (fun b => WPhysicsModel.move b m2) in
    let s :=
      call s (owner this)
           (fun b =>
              WPhysicsModel.applyAcceleration b
                (Vector2.scale m1 (bounce this))) in
    call s (target this)
         (fun b =>
            WPhysicsModel.applyAcceleration b (Vector2.scale m2 (bounce this)))
  else s.

End WRope.

Module CopyLocationConstraint.

Record t : Type := mk {
  owner : ref;
  target : ref;
  axes : bool * bool;
  invert : bool * bool;
  offset : bool;
  ownerRelativity : string;
  targetRelativity : string
}.

(** The constructor's options; [None] is an option left out. *)
Record options : Type := mkOptions {
  o_axes : option (bool * bool);
  o_invert : option (bool * bool);
  o_offset : option bool;
  o_ownerRelativity : option string;
  o_targetRelativity : option string
}.

Definition new (owner target : ref) (o : options) : t :=
  mk owner target
     (match o_axes o with Some v => v | None => (true, true) end)
     (match o_invert o with Some v => v | None => (false, false) end)
     (match o_offset o with Some v => v | None => false end)
     (match o_ownerRelativity o with Some r => r | None => "global"%string end)
     (match o_targetRelativity o with
      | Some r => r
      | None => "global"%string
      end).

(** [o] and [t] are copies, which the getter [t] of a transform makes:
    they hold what the transforms held when [solve] began. *)
Definition solve (this : t) (s : store) : store :=
  let o :=
    WTransformMatrix3.get_t (select (ownerRelativity this) (s (owner this))) in
  let t :=
    WTransformMatrix3.get_t
      (select (targetRelativity this) (s (target this))) in
  let s :=
    if fst (axes this) then
      let i := if fst (invert this) then Fin (-1) else Fin 1 in
      call s (owner this)
           (fun b =>
              WPhysicsModel.set_global b
                (WTransformMatrix3.translateX (WPhysicsModel.global b)
                   (Vector2.x t * i
                    + (if offset this then Vector2.x o else Num.zero))))
    else s in
  if snd (axes this) then
    let i := if snd (invert this) then Fin (-1) else Fin 1 in
    call s (owner this)
         (fun b =>
            WPhysicsModel.set_global b
              (WTransformMatrix3.translateY (WPhysicsModel.global b)
                 (Vector2.y t * i
                  + (if offset this then Vector2.y o else Num.zero))))
  else s.

End CopyLocationConstraint.

Module CopyRotationConstraint.

Record t : Type := mk {
  owner : ref;
  target : ref;
  invert : bool;
  offset : bool;
  ownerRelativity : string;
  targetRelativity : string
}.

(** The constructor's options; [None] is an option left out. *)
Record options : Type := mkOptions {
  o_invert : option bool;
  o_offset : option bool;
  o_ownerRelativity : option string;
  o_targetRelativity : option string
}.

Definition new (owner target : ref) (o : options) : t :=
  mk owner target
     (match o_invert o with Some v => v | None => false end)
     (match o_offset o with Some v => v | None => false end)
     (match o_ownerRelativity o with Some r => r | None => "global"%string end)
     (match o_targetRelativity o with
      | Some r => r
      | None => "global"%string
      end).

Definition solve (this : t) (s : store) : store :=
  let i := if invert this then Fin (-1) else Fin 1 in
  let o := WTransformMatrix3.r (select (ownerRelativity this) (s (owner this))) in
  let t :=
    WTransformMatrix3.r (select (targetRelativity this) (s (target this))) in
  call s (owner this)
       (fun b =>
          WPhysicsModel.set_global b
            (WTransformMatrix3.rotate (WPhysicsModel.global b)
               (t * i + (if offset this then o else Num.zero)) None)).

End CopyRotationConstraint.

Module CopyScaleConstraint.

Record t : Type := mk {
  owner : ref;
  target : ref;
  axes : bool * bool;
  offset : bool;
  ownerRelativity : string;
  targetRelativity : string
}.

(** The constructor's options; [None] is an option left out. *)
Record options : Type := mkOptions {
  o_axes : option (bool * bool);
  o_offset : option bool;
  o_ownerRelativity : option string;
  o_targetRelativity : option string
}.

Definition new (owner target : ref) (o : options) : t :=
  mk owner target
     (match o_axes o with Some v => v | None => (true, true) end)
     (match o_offset o with Some v => v | None => false end)
     (match o_ownerRelativity o with Some r => r | None => "global"%string end)
     (match o_targetRelativity o with
      | Some r => r
      | None => "global"%string
      end).

(** [o] and [t] are copies, which the getter [s] of a transform makes. *)
Definition solve (this : t) (s : store) : store :=
  let o :=
    WTransformMatrix3.s (select (ownerRelativity this) (s (owner this))) in
  let t :=
    WTransformMatrix3.s (select (targetRelativity this) (s (target this))) in
  let s :=
    if fst (axes this) then
      call s (owner this)
           (fun b =>
              WPhysicsModel.set_global b
                (WTransformMatrix3.scaleX (WPhysicsModel.global b)
                   (Vector2.x t
                    * (if offset this then Vector2.x o else Num.one))))
    else s in
  if snd (axes this) then
    call s (owner this)
         (fun b =>
            WPhysicsModel.set_global b
              (WTransformMatrix3.scaleY (WPhysicsModel.global b)
                 (Vector2.y t
                  * (if offset this then Vector2.y o else Num.one))))
  else s.

End CopyScaleConstraint.

Module CopyTransformsConstraint.

Record t : Type := mk {
  owner : ref;
  target : ref;
  mixMode : string;
  ownerRelativity : string;
  targetRelativity : string
}.

(** [og.m (...)], for [og = this.owner.global]. *)
Definition on_og (this : t) (s : store)
           (m : WTransformMatrix3 -> WTransformMatrix3) : store :=
  call s (owner this)
       (fun b => WPhysicsModel.set_global b (m (WPhysicsModel.global b))).

(** [o] and [t] are references to transforms of the bodies: what they hold
    is read in the store as it is when the statement runs. *)
Definition o (this : t) (s : store) : WTransformMatrix3 :=
  select (ownerRelativity this) (s (owner this)).

Definition t' (this : t) (s : store) : WTransformMatrix3 :=
  select (targetRelativity this) (s (target this)).

(** In the 'split' case the calls pass a last argument [false].  [scale]
    and [skew] of math.ts have no parameter for it.  [rotate] has: its
    second parameter is then not [undefined], so that it takes its two
    arguments for the coordinates [(x, y)] of a direction and normalises
    them; [Math.hypot] and the products of [scale] read [false] as 0. *)
Definition solve (this : t) (s : store) : completion * store :=
  if String.eqb (mixMode this) "replace" then
    pair Normal
      (on_og this s
         (fun og =>
            WTransformMatrix3.setArray og
              (WTransformMatrix3.buffer (t' this s))))
  else if String.eqb (mixMode this) "split" then
    let s :=
      on_og this s
        (fun og =>
           WTransformMatrix3.scale og
             (WTransformMatrix3.sx (t' this s)
              * WTransformMatrix3.sx (o this s))
             (WTransformMatrix3.sy (t' this s)
              * WTransformMatrix3.sy (o this s)))
    in
    let s :=
      on_og this s
        (fun og =>
           WTransformMatrix3.skew og
             (WTransformMatrix3.k (t' this s) + WTransformMatrix3.k (o this s)))
    in
    let s :=
      on_og this s
        (fun og =>
           WTransformMatrix3.rotate og
             (WTransformMatrix3.r (t' this s) + WTransformMatrix3.r (o this s))
             (Some Num.zero))
    in
    pair Normal
      (on_og this s
         (fun og =>
            WTransformMatrix3.translate og
              (WTransformMatrix3.tx (t' this s)
               + WTransformMatrix3.tx (o this s))
              (WTransformMatrix3.ty (t' this s)
               + WTransformMatrix3.ty (o this s))))
  else if String.eqb (mixMode this) "beforeFull" then
    pair Normal
      (on_og this s
         (fun og =>
            WTransformMatrix3.setArray og
              (WTransformMatrix3.buffer
                 (WTransformMatrix3.mult (t' this s) (o this s)))))
  else if String.eqb (mixMode this) "afterFull" then
    pair Normal
      (on_og this s
         (fun og =>
            WTransformMatrix3.setArray og
              (WTransformMatrix3.buffer
                 (WTransformMatrix3.mult (o this s) (t' this s)))))
  else (Throw "Invalid mix mode" (mixMode this), s).

End CopyTransformsConstraint.

Module LimitDistanceConstraint.

Record t : Type := mk {
  owner : ref;
  target : ref;
  distance : num;
  clampRegion : string;
  ownerRelativity : string;
  targetRelativity : string
}.

(** The condition of the [if] in [solve], on the region and the signed
    violation [diff]. *)
Definition breached (clampRegion : string) (diff : num) : bool :=
  (String.eqb clampRegion "inside" && (diff >? Num.zero))
  || (String.eqb clampRegion "outside" && (diff <? Num.zero))
  || (String.eqb clampRegion "surface" && Num.strict_neq diff Num.zero).

(** The call [og.translate (t.x ?? 0, t.y ?? 0)] passes [t.x] and [t.y]: a
    number, NaN included, is neither null nor undefined. *)
Definition solve (this : t) (s : store) : store :=
  let og := WPhysicsModel.global (s (owner this)) in
  let o := select (ownerRelativity this) (s (owner this)) in
  let t := select (targetRelativity this) (s (target this)) in
  let dir :=
    Vector2.dif (WTransformMatrix3.get_t t) (WTransformMatrix3.get_t o) in
  let dist := Vector2.size dir in
  let diff := dist - distance this in
  if breached (clampRegion this) diff then
    let t :=
      Vector2.sum (Vector2.scale dir (diff / dist))
                  [WTransformMatrix3.get_t og] in
    call s (owner this)
         (fun b =>
            WPhysicsModel.set_global b
              (WTransformMatrix3.translate (WPhysicsModel.global b)
                 (Vector2.x t) (Vector2.y t)))
  else s.

End LimitDistanceConstraint.

Module LimitLocationConstraint.

Record t : Type := mk {
  owner : ref;
  _influence : num;
  ownerRelativity : string;
  min : Vector2;
  max : Vector2
}.

(** The constructor's options; [None] is an option left out. *)
Record options : Type := mkOptions {
  o_ownerRelativity : option string;
  o_influence : option num;
  o_minX : option num;
  o_minY : option num;
  o_maxX : option num;
  o_maxY : option num
}.

Definition new (owner : ref) (o : options) : t :=
  mk owner
     (NumExtra.default Num.one (o_influence o))
     (match o_ownerRelativity o with Some r => r | None => "global"%string end)
     (vec2 (NumExtra.default NInf (o_minX o))
           (Some (NumExtra.default NInf (o_minY o))))
     (vec2 (NumExtra.default PInf (o_maxX o))
           (Some (NumExtra.default PInf (o_maxY o)))).

Definition influence (this : t) : num := _influence this.

Definition set_influence (this : t) (v : num) : t :=
  mk (owner this) (clamp v Num.zero Num.one) (ownerRelativity this)
     (min this) (max this).

(** One axis of the correction [t] in [solve]: it starts at 0, and the
    tests on that axis of [minT] and [maxT] may assign it. *)
Definition correction (minT maxT : num) : num :=
  if minT >? Num.zero then
    if maxT <? Num.zero then Num.zero else minT
  else if maxT <? Num.zero then maxT
  else Num.zero.

Definition solve (this : t) (s : store) : store :=
  let og := WPhysicsModel.global (s (owner this)) in
  let o := select (ownerRelativity this) (s (owner this)) in
  let minT := Vector2.dif (min this) (WTransformMatrix3.get_t o) in
  let maxT := Vector2.dif (max this) (WTransformMatrix3.get_t o) in
  let t :=
    Vector2.mk (correction (Vector2.x minT) (Vector2.x maxT))
               (correction (Vector2.y minT) (Vector2.y maxT)) in
  call s (owner this)
       (fun b =>
          WPhysicsModel.set_global b
            (WTransformMatrix3.translate (WPhysicsModel.global b)
               (WTransformMatrix3.tx og + Vector2.x t * influence this)
               (WTransformMatrix3.ty og + Vector2.y t * influence this))).

End LimitLocationConstraint.

(* ================================================================= *)
(** ** narrowColor and narrowDimension *)

(** How a call that gives a value ends: it returns the value, it throws an
    [Error] with a message and a cause, or it throws the [TypeError] of a
    property read on [undefined]. *)
Inductive outcome (A C : Type) : Type :=
| Returned (value : A)
| Thrown (message : string) (cause : C)
| TypeError.

Arguments Returned {A C} value.
Arguments Thrown {A C} message cause.
Arguments TypeError {A C}.

Module Color.

(** A [WColor]: an array of numbers, an object with the fields [r], [g],
    [b] and [a], or a string (of 8-bit characters here). *)
Inductive t : Type :=
| array (c : list num)
| object (r g b a : num)
| text (color : string).

(** The class [[0-Fa-f]] of the two regular expressions: the characters
    from 0 to F and those from a to f, by their codes. *)
Definition in_class (c : ascii) : bool :=
  let n := nat_of_ascii c in
  (Nat.leb 48 n && Nat.leb n 70) || (Nat.leb 97 n && Nat.leb n 102).

(** The value of a hexadecimal digit: 0 to 9, A to F, a to f. *)
Definition digit (c : ascii) : option nat :=
  let n := nat_of_ascii c in
  if Nat.leb 48 n && Nat.leb n 57 then Some (n - 48)%nat
  else if Nat.leb 65 n && Nat.leb n 70 then Some (n - 55)%nat
  else if Nat.leb 97 n && Nat.leb n 102 then Some (n - 87)%nat
  else None.

(** The number that the longest prefix of hexadecimal digits of a string
    writes, after the digits already read. *)
Fixpoint digits (read : nat) (s : string) : nat :=
  match s with
  | String c s' =>
      match digit c with
      | Some d => digits (16 * read + d) s'
      | None => read
      end
  | EmptyString => read
  end.

(** [parseInt (v, 16)] on what a group of the regular expressions holds: a
    string of characters of the class, which starts with neither white
    space, a sign nor [0x], or [undefined] (a group that took no part in
    the match), which [parseInt] reads as the string "undefined".  The
    result is the number that the longest prefix of hexadecimal digits
    writes, or NaN when there is no such digit at the start. *)
Definition parseInt16 (v : option string) : num :=
  match v with
  | Some (String c s) =>
      match digit c with
      | Some d => Fin (INR (digits d s))
      | None => NaN
      end
  | _ => NaN
  end.

(** [width] characters of the class at the start of a string: the group
    they form, and the rest of the string. *)
Fixpoint group (width : nat) (s : string) : option (string * string) :=
  match width with
  | O => Some (EmptyString, s)
  | S width =>
      match s with
      | String c s' =>
          if in_class c then
            match group width s' with
            | Some (g, rest) => Some (String c g, rest)
            | None => None
            end
          else None
      | EmptyString => None
      end
  end.

(** [exec] of the regular expression [^#(G)(G)(G)(G)?$], where [G] is
    [width] characters of the class: the four groups of the match
    ([slice (1)] of the result), the last one [undefined] when the string
    ends after the third. *)
Definition exec (width : nat) (color : string)
  : option (list (option string)) :=
  match color with
  | String c s =>
      if Ascii.eqb c "#" then
        match group width s with
        | Some (g1, s) =>
            match group width s with
            | Some (g2, s) =>
                match group width s with
                | Some (g3, EmptyString) =>
                    Some [Some g1; Some g2; Some g3; None]
                | Some (g3, s) =>
                    match group width s with
                    | Some (g4, EmptyString) =>
                        Some [Some g1; Some g2; Some g3; Some g4]
                    | _ => None
                    end
                | None => None
                end
            | None => None
            end
        | None => None
        end
      else None
  | EmptyString => None
  end.

(** [if (Number.isNaN (ret[3])) ret[3] = 1]. *)
Definition default_alpha (ret : list num) : list num :=
  match ret with
  | r :: g :: b :: NaN :: rest => r :: g :: b :: Num.one :: rest
  | _ => ret
  end.

(** [narrowColor] of math.ts. *)
Definition narrowColor (color : t) : outcome (list num) string :=
  let ret :=
    match color with
    | array c => Returned c
    | object r g b a => Returned [r; g; b; a]
    | text color =>
        match exec 1 color with
        | Some rgba4 =>
            Returned (map (fun v => parseInt16 v / Fin 15) rgba4)
        | None =>
            match exec 2 color with
            | Some rgba8 =>
                Returned (map (fun v => parseInt16 v / Fin 255) rgba8)
            | None => Thrown "Invalid color data" color
            end
        end
    end in
  match ret with
  | Returned ret => Returned (default_alpha ret)
  | Thrown message cause => Thrown message cause
  | TypeError => TypeError
  end.

End Color.

Module Dimension.

(** A [WDimension]: an array of numbers, or an object with the fields [x],
    [y], [width] and [height]. *)
Inductive t : Type :=
| array (d : list num)
| object (x y width height : num).

(** [narrowDimension]. *)
Definition narrowDimension (color : t) : list num :=
  match color with
  | array d => d
  | object x y width height => [x; y; width; height]
  end.

End Dimension.

(* ================================================================= *)
(** ** WMatrix3 *)

Module WMatrix3.

(** [WVec3 <number>] and [WTri3 <number>]: a column of three numbers, and
    three columns. *)
Definition WVec3 : Type := (num * num * num)%type.
Definition WTri3 : Type := (WVec3 * WVec3 * WVec3)%type.

(** The numbers of a matrix whose three columns are three arrays that no
    other matrix holds, as the methods of the class read and write them.
    The constructor and [set] keep the arrays that they are given, without
    copying them: [WMatrix3Heap] below follows the arrays themselves, for
    the matrices that share some. *)
Record t : Type := mk { _data : WTri3 }.

(** The three indices of a column, and of a matrix. *)
Inductive slot : Type := i0 | i1 | i2.

(** The index that a number is, if it is one of the three. *)
Definition index (i : num) : option slot :=
  match i with
  | Fin r =>
      if Req_dec_T r 0 then Some i0
      else if Req_dec_T r 1 then Some i1
      else if Req_dec_T r 2 then Some i2
      else None
  | _ => None
  end.

(** [v[i]], and [v] after [v[i] = x]. *)
Definition at3 {A : Type} (v : A * A * A) (i : slot) : A :=
  let '(a, b, c) := v in
  match i with
  | i0 => a
  | i1 => b
  | i2 => c
  end.

Definition put3 {A : Type} (v : A * A * A) (i : slot) (x : A) : A * A * A :=
  let '(a, b, c) := v in
  match i with
  | i0 => (x, b, c)
  | i1 => (a, x, c)
  | i2 => (a, b, x)
  end.

(** [new WMatrix3 (data)]: the identity by default. *)
Definition new (data : option WTri3) : t :=
  match data with
  | Some data => mk data
  | None =>
      mk ((Fin 1, Fin 0, Fin 0),
          (Fin 0, Fin 1, Fin 0),
          (Fin 0, Fin 0, Fin 1))
  end.

(** What [get] returns: an entry ([undefined] where the column has none),
    a column, or the three columns. *)
Inductive value : Type :=
| entry (v : option num)
| column (v : WVec3)
| columns (m : WTri3).

(** [get (col, row)], with either argument or both left out.  Reading
    [this._data[col]] gives [undefined] when [col] is not an index, and the
    entry or the copy then asked of it is a [TypeError]. *)
Definition get (this : t) (col row : option num)
  : outcome value unit :=
  match row with
  | Some row =>
      match col with
      | Some col =>
          match index col with
          | Some c =>
              Returned
                (entry (option_map (at3 (at3 (_data this) c)) (index row)))
          | None => TypeError
          end
      | None => TypeError
      end
  | None =>
      match col with
      | Some col =>
          match index col with
          | Some c => Returned (column (at3 (_data this) c))
          | None => TypeError
          end
      | None => Returned (columns (_data this))
      end
  end.

(** The first argument of [set]: a number or three columns; and the
    second: nothing, a number or a column. *)
Inductive first_arg : Type :=
| col_number (col : num)
| col_data (value : WTri3).

Inductive second_arg : Type :=
| row_missing
| row_number (row : num)
| row_data (value : WVec3).

(** The matrix after a call of [set].  A write under a key that is not one
    of the three indices adds an entry or a property to the array instead
    of replacing a number: the data are then no longer three columns of
    three numbers, and [reshaped] stands for them. *)
Inductive stored : Type :=
| kept (this : t)
| reshaped.

(** [set (col, row, value)]. *)
Definition set (this : t) (col : first_arg) (row : second_arg)
  (value : option num) : outcome stored unit :=
  match value with
  | Some value =>
      match col with
      | col_number col =>
          match index col with
          | Some c =>
              match row with
              | row_number row =>
                  match index row with
                  | Some r =>
                      Returned
                        (kept
                           (mk (put3 (_data this) c
                                  (put3 (at3 (_data this) c) r value))))
                  | None => Returned reshaped
                  end
              | _ => Returned reshaped
              end
          | None => TypeError
          end
      | col_data _ => TypeError
      end
  | None =>
      match row with
      | row_data row =>
          match col with
          | col_number col =>
              match index col with
              | Some c => Returned (kept (mk (put3 (_data this) c row)))
              | None => Returned reshaped
              end
          | col_data _ => Returned reshaped
          end
      | _ =>
          match col with
          | col_data col => Returned (kept (mk col))
          | col_number _ => Thrown "Invalid data" tt
          end
      end
  end.

(** [this.get ()], which always returns the three columns. *)
Definition get_all (this : t) : WTri3 := _data this.

(** [copy]. *)
Definition copy (this : t) : t := new (Some (get_all this)).

(** [v[col]] for an instance [v] of the class: the instance has the
    property [_data] and the methods of its prototype, and none that a
    number names. *)
Definition numbered (v : t) (col : slot) : option WVec3 := None.

(** [mat.reduce ((t, v) => t + v[col][row], v1)]. *)
Fixpoint reduce (mat : list t) (col row : slot) (t : num)
  : outcome num unit :=
  match mat with
  | [] => Returned t
  | v :: mat =>
      match numbered v col with
      | Some c => reduce mat col row (t + at3 c row)
      | None => TypeError
      end
  end.

(** One column of [sum], entry after entry. *)
Definition sum_column (this : t) (mat : list t) (col : slot)
  : outcome WVec3 unit :=
  let v := at3 (_data this) col in
  match reduce mat col i0 (at3 v i0) with
  | Returned a =>
      match reduce mat col i1 (at3 v i1) with
      | Returned b =>
          match reduce mat col i2 (at3 v i2) with
          | Returned c => Returned (a, b, c)
          | _ => TypeError
          end
      | _ => TypeError
      end
  | _ => TypeError
  end.

(** [sum (...mat)]. *)
Definition sum (this : t) (mat : list t) : outcome t unit :=
  match sum_column this mat i0 with
  | Returned a =>
      match sum_column this mat i1 with
      | Returned b =>
          match sum_column this mat i2 with
          | Returned c => Returned (new (Some (a, b, c)))
          | _ => TypeError
          end
      | _ => TypeError
      end
  | _ => TypeError
  end.

(** [mult]. *)
Definition mult (this mat : t) : t :=
  let a := fun c r => at3 (at3 (get_all this) c) r in
  let b := fun c r => at3 (at3 (get_all mat) c) r in
  let r00 := a i0 i0 * b i0 i0 + a i1 i0 * b i0 i1 + a i2 i0 * b i0 i2 in
  let r10 := a i0 i0 * b i1 i0 + a i1 i0 * b i1 i1 + a i2 i0 * b i1 i2 in
  let r20 := a i0 i0 * b i2 i0 + a i1 i0 * b i2 i1 + a i2 i0 * b i2 i2 in
  let r01 := a i0 i1 * b i0 i0 + a i1 i1 * b i0 i1 + a i2 i1 * b i0 i2 in
  let r11 := a i0 i1 * b i1 i0 + a i1 i1 * b i1 i1 + a i2 i1 * b i1 i2 in
  let r21 := a i0 i1 * b i2 i0 + a i1 i1 * b i2 i1 + a i2 i1 * b i2 i2 in
  let r02 := a i0 i2 * b i0 i0 + a i1 i2 * b i0 i1 + a i2 i2 * b i0 i2 in
  let r12 := a i0 i2 * b i1 i0 + a i1 i2 * b i1 i1 + a i2 i2 * b i1 i2 in
  let r22 := a i0 i2 * b i2 i0 + a i1 i2 * b i2 i1 + a i2 i2 * b i2 i2 in
  new (Some ((r00, r01, r02), (r10, r11, r12), (r20, r21, r22))).

(** [transpose], which ends with a call of [set]. *)
Definition transpose (this : t) : outcome stored unit :=
  let m := fun c r => at3 (at3 (get_all this) c) r in
  set this
    (col_data ((m i0 i0, m i1 i0, m i2 i0),
               (m i0 i1, m i1 i1, m i2 i1),
               (m i0 i2, m i1 i2, m i2 i2)))
    row_missing None.

End WMatrix3.

(* ================================================================= *)
(** ** WMatrix3 and the arrays it shares *)

(** The constructor of [WMatrix3] and its method [set] keep the arrays
    that they are given: two matrices, or two columns of one matrix, can
    be the same array, and a write through one is read through the other.
    This module follows the arrays under their addresses.  [WMatrix3]
    above follows the numbers of a matrix whose three columns are arrays
    of its own, as they are in every matrix that the class builds itself:
    [new WMatrix3 ()], [copy], [sum], [mult] and [transpose] all fill new
    arrays. *)
Module WMatrix3Heap.

Definition address : Type := nat.

(** The memory: the arrays of three numbers, the arrays of three such
    arrays, and the instances of the class with their field [_data], each
    kind under its addresses; [next] is the first address that is not yet
    in use. *)
Record memory : Type := mk {
  numbers : address -> WMatrix3.WVec3;
  columns : address -> address * address * address;
  _data : address -> address;
  next : address
}.

(** What is under the addresses after a write under one of them. *)
Definition write {A : Type} (f : address -> A) (a : address) (x : A)
  : address -> A :=
  fun b => if Nat.eqb b a then x else f b.

(** An array literal [[x, y, z]] of three numbers, and one [[a, b, c]] of
    three arrays: a new array, and its address. *)
Definition vector (m : memory) (v : WMatrix3.WVec3) : memory * address :=
  (mk (write (numbers m) (next m) v) (columns m) (_data m) (S (next m)),
   next m).

Definition triple (m : memory) (v : address * address * address)
  : memory * address :=
  (mk (numbers m) (write (columns m) (next m) v) (_data m) (S (next m)),
   next m).

(** [new WMatrix3 (data)]: a new instance that holds [data] itself, or the
    identity in new arrays. *)
Definition new (m : memory) (data : option address) : memory * address :=
  let '(m, data) :=
    match data with
    | Some data => (m, data)
    | None =>
        let '(m, a) := vector m (Fin 1, Fin 0, Fin 0) in
        let '(m, b) := vector m (Fin 0, Fin 1, Fin 0) in
        let '(m, c) := vector m (Fin 0, Fin 0, Fin 1) in
        triple m (a, b, c)
    end in
  (mk (numbers m) (columns m) (write (_data m) (next m) data) (S (next m)),
   next m).

(** [this._data[col]] for an index [col]: the address of a column. *)
Definition column (m : memory) (this : address) (col : WMatrix3.slot)
  : address :=
  WMatrix3.at3 (columns m (_data m this)) col.

(** [get (col, row)] with two numbers: [this._data[col][row]], which is
    [undefined] where the column has no such row and a [TypeError] where
    the matrix has no such column. *)
Definition get (m : memory) (this : address) (col row : num)
  : outcome (option num) unit :=
  match WMatrix3.index col with
  | Some c =>
      Returned
        (option_map (WMatrix3.at3 (numbers m (column m this c)))
                    (WMatrix3.index row))
  | None => TypeError
  end.

(** The first argument of [set]: a number or an array of three columns;
    and the second: nothing, a number or an array of three numbers. *)
Inductive first_arg : Type :=
| col_number (col : num)
| col_data (value : address).

Inductive second_arg : Type :=
| row_missing
| row_number (row : num)
| row_data (value : address).

(** The memory after a call of [set]; as in [WMatrix3], [reshaped] stands
    for the data after a write under a key that is not one of the three
    indices. *)
Inductive stored : Type :=
| kept (m : memory)
| reshaped.

(** [set (col, row, value)] on the instance [this]: a number is written
    into the array that is the column, a column into the array that
    [_data] is, and an array of three columns into the field [_data]. *)
Definition set (m : memory) (this : address) (col : first_arg)
  (row : second_arg) (value : option num) : outcome stored unit :=
  match value with
  | Some value =>
      match col with
      | col_number col =>
          match WMatrix3.index col with
          | Some c =>
              match row with
              | row_number row =>
                  match WMatrix3.index row with
                  | Some r =>
                      let a := column m this c in
                      Returned
                        (kept
                           (mk (write (numbers m) a
                                  (WMatrix3.put3 (numbers m a) r value))
                               (columns m) (_data m) (next m)))
                  | None => Returned reshaped
                  end
              | _ => Returned reshaped
              end
          | None => TypeError
          end
      | col_data _ => TypeError
      end
  | None =>
      match row with
      | row_data row =>
          match col with
          | col_number col =>
              match WMatrix3.index col with
              | Some c =>
                  let d := _data m this in
                  Returned
                    (kept
                       (mk (numbers m)
                           (write (columns m) d
                              (WMatrix3.put3 (columns m d) c row))
                           (_data m) (next m)))
              | None => Returned reshaped
              end
          | col_data _ => Returned reshaped
          end
      | _ =>
          match col with
          | col_data col =>
              Returned
                (kept
                   (mk (numbers m) (columns m) (write (_data m) this col)
                       (next m)))
          | col_number _ => Thrown "Invalid data" tt
          end
      end
  end.

End WMatrix3Heap.

(* ================================================================= *)
(** ** bezier *)

Module Bezier.

(** What the functions that [bezier] returns share: the four numbers of
    the call, and the array [arr], which every call of the first function
    extends and every call of the second reads. *)
Record curve : Type := mk {
  x1 : num;
  y1 : num;
  x2 : num;
  y2 : num;
  arr : list (num * num)
}.

(** [arr.push (v)]. *)
Definition push (c : curve) (v : num * num) : curve :=
  mk (x1 c) (y1 c) (x2 c) (y2 c) (arr c ++ [v]).

(** [pos]. *)
Definition pos (a b t : num) : num :=
  t * (Fin 3 * a * NumExtra.sq (Num.one - t)
       + t * (Fin 3 * b * (Num.one - t) + t)).

(** [x < 0 || x > 1]. *)
Definition out_of_bounds (x : num) : bool := (x <? Fin 0) || (x >? Fin 1).

(** [bezier (x1, y1, x2, y2)]. *)
Definition bezier (x1 y1 x2 y2 : num) : outcome curve num :=
  if out_of_bounds x1 then Thrown "x1 is out of bounds" x1
  else if out_of_bounds x2 then Thrown "x2 is out of bounds" x2
  else Returned (mk x1 y1 x2 y2 []).

(** The loop [for (let i = 0; i <= steps; i++)] from [i] on, for at most
    [fuel] tests of its condition; [None]: the loop has not ended by
    then. *)
Fixpoint loop (fuel : nat) (c : curve) (steps : num) (i : nat)
  : option curve :=
  match fuel with
  | O => None
  | S fuel =>
      if Fin (INR i) <=? steps then
        let t := Fin (INR i) / steps in
        loop fuel (push c (pos (x1 c) (x2 c) t, pos (y1 c) (y2 c) t))
          steps (S i)
      else Some c
  end.

(** The function that [bezier] returns, called with [steps]: the curve
    with its longer array, which the function that this call returns goes
    on reading. *)
Definition tabulate (fuel : nat) (c : curve) (steps : num) : option curve :=
  loop fuel c steps 0.

(** [arr[i]] for an integer [i]. *)
Definition item (arr : list (num * num)) (i : Z) : option (num * num) :=
  if (i <? 0)%Z then None else nth_error arr (Z.to_nat i).

(** [Math.round (l + (r - l) / 2)] for integers [l] and [r]: a half is
    rounded up. *)
Definition middle (l r : Z) : Z := ((2 * l + (r - l) + 1) / 2)%Z.

(** [search (l, r)], for at most [fuel] calls; [None]: the recursion has
    not ended by then. *)
Fixpoint search (fuel : nat) (arr : list (num * num)) (x : num) (l r : Z)
  : option (outcome num num) :=
  match fuel with
  | O => None
  | S fuel =>
      if (r - l =? 1)%Z then
        match item arr r, item arr l with
        | Some (rX, rY), Some (lX, lY) =>
            Some
              (Returned
                 ((x - rX) / (lX - rX) * lY + (x - lX) / (rX - lX) * rY))
        | _, _ => Some TypeError
        end
      else
        let i := middle l r in
        match item arr i with
        | Some (vX, vY) =>
            if vX <? x then search fuel arr x i r
            else if vX >? x then search fuel arr x l i
            else Some (Returned vY)
        | None => Some TypeError
        end
  end.

(** The function that a call with [steps] returns, called with [x]. *)
Definition ease (fuel : nat) (c : curve) (x : num)
  : option (outcome num num) :=
  if out_of_bounds x then Some (Thrown "x is out of bounds" x)
  else search fuel (arr c) x 0 (Z.of_nat (List.length (arr c)) - 1).

End Bezier.

(* ================================================================= *)
(** ** Scenes for the examples *)

Module Scene.

(** The body the constructor builds at a location, with a mass. *)
Definition body (x y : R) (mass : num) : WPhysicsModel :=
  WPhysicsModel.new
    (WPhysicsModel.mkOptions (Some (vec2 (Fin x) (Some (Fin y)))) None None
                             None (Some mass) None None None).

(** Two bodies: the first behind the reference 0, the second behind every
    other reference. *)
Definition two (a b : WPhysicsModel) : store :=
  fun p => if Nat.eqb p 0 then a else b.

(** A body of mass 2 at (3, 4), moving at (1, 2) and pushed by (5, 6). *)
Definition pushed : WPhysicsModel :=
  WPhysicsModel.applyForce
    (WPhysicsModel.applyVelocity (body 3 4 (Fin 2))
                                 (vec2 (Fin 1) (Some (Fin 2))))
    (vec2 (Fin 5) (Some (Fin 6))).

(** A body at rest at the origin whose [mass] field holds 0. *)
Definition massless : WPhysicsModel :=
  WPhysicsModel.mk
    [Num.zero; Num.zero]
    (WTransformMatrix3.new (WTransformMatrix3.mkOptions None None None None))
    (WTransformMatrix3.new (WTransformMatrix3.mkOptions None None None None))
    (vec2 Num.zero None) (vec2 Num.zero None) (vec2 Num.zero None)
    (Fin 0).

(** The body [body 0 0 1] after [applyForce] of (Infinity, 0). *)
Definition overpushed : WPhysicsModel :=
  WPhysicsModel.applyForce (body 0 0 Num.one) (vec2 PInf (Some Num.zero)).

(** The body [body 0 0 1] after [applyAcceleration] of (Infinity, 0). *)
Definition accelerated : WPhysicsModel :=
  WPhysicsModel.applyAcceleration (body 0 0 Num.one)
                                  (vec2 PInf (Some Num.zero)).

(** The body [body 0 0 1] after [applyVelocity] of (Infinity, 0). *)
Definition runaway : WPhysicsModel :=
  WPhysicsModel.applyVelocity (body 0 0 Num.one) (vec2 PInf (Some Num.zero)).

(** Constructor arguments: location (3, 4), mass 2, velocity (1, 2),
    acceleration (5, 6). *)
Definition launch : WPhysicsModel.options :=
  WPhysicsModel.mkOptions
    (Some (vec2 (Fin 3) (Some (Fin 4)))) None None None (Some (Fin 2))
    (Some (vec2 (Fin 1) (Some (Fin 2)))) (Some (vec2 (Fin 5) (Some (Fin 6))))
    None.

(** Constructor arguments: a mass of 0 and nothing else. *)
Definition no_mass : WPhysicsModel.options :=
  WPhysicsModel.mkOptions None None None None (Some (Fin 0)) None None None.

(** Constructor arguments: the acceleration (Infinity, 0) and nothing
    else. *)
Definition infinite_acceleration : WPhysicsModel.options :=
  WPhysicsModel.mkOptions None None None None None None
                          (Some (vec2 PInf (Some Num.zero))) None.

(** Constructor arguments: the velocity (Infinity, 0) and nothing else. *)
Definition infinite_velocity : WPhysicsModel.options :=
  WPhysicsModel.mkOptions None None None None None
                          (Some (vec2 PInf (Some Num.zero))) None None.

(** Constructor arguments: none. *)
Definition defaults : WPhysicsModel.options :=
  WPhysicsModel.mkOptions None None None None None None None None.

(** The body built at (10, 0) after [global.translate (20, 0)]: its
    global transform has left its local one. *)
Definition displaced : WPhysicsModel :=
  WPhysicsModel.set_global
    (body 10 0 Num.one)
    (WTransformMatrix3.translate (WPhysicsModel.global (body 10 0 Num.one))
                                 (Fin 20) (Fin 0)).

(** Nine zero coefficients, as a new [Float32Array (9)] holds them. *)
Definition zeros : Float32x9 :=
  mkData Num.zero Num.zero Num.zero Num.zero Num.zero Num.zero Num.zero
         Num.zero Num.zero.

(** The body built at the origin after [global.translate (Infinity, 0)]. *)
Definition far : WPhysicsModel :=
  WPhysicsModel.set_global
    (body 0 0 Num.one)
    (WTransformMatrix3.translate (WPhysicsModel.global (body 0 0 Num.one))
                                 PInf (Fin 0)).

(** The body built at the origin after [global.rotate (1)]. *)
Definition turned : WPhysicsModel :=
  WPhysicsModel.set_global
    (body 0 0 Num.one)
    (WTransformMatrix3.rotate (WPhysicsModel.global (body 0 0 Num.one))
                              (Fin 1) None).

(** A body of mass 2 at (3, 4) that moves at (1, 2) and has accumulated
    the acceleration (1, 1) and the force (4, 6). *)
Definition flying : WPhysicsModel :=
  WPhysicsModel.mk
    [Num.zero; Num.zero]
    (WTransformMatrix3.new
       (WTransformMatrix3.mkOptions (Some (Vector2.mk (Fin 3) (Fin 4)))
                                    None None None))
    (WTransformMatrix3.new
       (WTransformMatrix3.mkOptions (Some (Vector2.mk (Fin 3) (Fin 4)))
                                    None None None))
    (Vector2.mk (Fin 1) (Fin 2)) (Vector2.mk (Fin 1) (Fin 1))
    (Vector2.mk (Fin 4) (Fin 6)) (Fin 2).

(** The body of infinite mass built at the origin, after [applyForce] of
    (5, 6). *)
Definition anchored : WPhysicsModel :=
  WPhysicsModel.applyForce (body 0 0 PInf) (vec2 (Fin 5) (Some (Fin 6))).

End Scene.

(* ================================================================= *)
(** * The vocabulary of the specification

    The quantities and predicates the statements below are written with:
    they name what the specification talks about (positions, the rope's
    overshoot, the spring's force, the signed violation, ...) in terms of
    the program above. *)

(** A number of the interval [0, 1]. *)
Definition in_unit_interval (a : num) : Prop :=
  exists r : R, a = Fin r /\ (0 <= r <= 1)%R.

(** A vector both of whose components are finite. *)
Definition finite_vector (v : Vector2) : bool :=
  Num.isFinite (Vector2.x v) && Num.isFinite (Vector2.y v).

(** The options with another [acceleration]. *)
Definition with_acceleration (o : WPhysicsModel.options) (a : option Vector2)
  : WPhysicsModel.options :=
  WPhysicsModel.mkOptions
    (WPhysicsModel.o_location o) (WPhysicsModel.o_rotation o)
    (WPhysicsModel.o_scale o) (WPhysicsModel.o_skew o)
    (WPhysicsModel.o_mass o) (WPhysicsModel.o_velocity o) a
    (WPhysicsModel.o_origin o).

(** The arguments of the constructor, with their default values. *)
Definition location_of (o : WPhysicsModel.options) : Vector2 :=
  WPhysicsModel.or_vec (vec2 Num.zero None) (WPhysicsModel.o_location o).

Definition velocity_of (o : WPhysicsModel.options) : Vector2 :=
  WPhysicsModel.or_vec (vec2 Num.zero None) (WPhysicsModel.o_velocity o).

Definition acceleration_of (o : WPhysicsModel.options) : Vector2 :=
  WPhysicsModel.or_vec (vec2 Num.zero None) (WPhysicsModel.o_acceleration o).

Definition mass_of (o : WPhysicsModel.options) : num :=
  NumExtra.default Num.one (WPhysicsModel.o_mass o).

(** The body the constructor returns when the acceleration argument is
    finite and the mass is not zero: the acceleration is nowhere in it. *)
Definition built (o : WPhysicsModel.options) : WPhysicsModel :=
  let origin :=
    WPhysicsModel.or_vec (vec2 Num.zero None) (WPhysicsModel.o_origin o) in
  let local :=
    WTransformMatrix3.new
      (WTransformMatrix3.mkOptions
         (Some (location_of o))
         (Some (NumExtra.default Num.zero (WPhysicsModel.o_rotation o)))
         (Some (NumExtra.default Num.zero (WPhysicsModel.o_skew o)))
         (Some (WPhysicsModel.or_vec (vec2 Num.one None)
                                     (WPhysicsModel.o_scale o)))) in
  let moved :=
    WPhysicsModel.move
      (WPhysicsModel.mk [Vector2.x origin; Vector2.y origin] local
                        (WTransformMatrix3.copy local) (velocity_of o)
                        (vec2 Num.zero None) (vec2 Num.zero None)
                        (mass_of o))
      (Vector2.scale (velocity_of o) Num.zero) in
  WPhysicsModel.set_global moved
    (WTransformMatrix3.setArray (WPhysicsModel.global moved)
       (WTransformMatrix3.buffer (WPhysicsModel.local moved))).

(** The position of a body: the translation of its local transform. *)
Definition position (s : store) (p : ref) : Vector2 :=
  WTransformMatrix3.get_t (WPhysicsModel.local (s p)).

(** The translation of the global transform of a body. *)
Definition global_position (s : store) (p : ref) : Vector2 :=
  WTransformMatrix3.get_t (WPhysicsModel.global (s p)).

(** The vector from the owner to the target, and the distance between
    them, as [solve] reads them in the global transforms. *)
Definition rope_dir (this : WRope.t) (s : store) : Vector2 :=
  Vector2.dif (global_position s (WRope.target this))
              (global_position s (WRope.owner this)).

Definition rope_diff (this : WRope.t) (s : store) : num :=
  Vector2.size (rope_dir this s).

(** The fraction [(diff - length) / diff] of the connecting vector. *)
Definition rope_overshoot (this : WRope.t) (s : store) : Vector2 :=
  Vector2.scale (rope_dir this s)
                ((rope_diff this s - WRope.length this) / rope_diff this s).

(** The shares of the overshoot, as the specification words them. *)
Inductive mass_shares (owner_mass target_mass : num) : num -> num -> Prop :=
| shares_both_finite :
    Num.isFinite owner_mass = true -> Num.isFinite target_mass = true ->
    mass_shares owner_mass target_mass
                (target_mass / (owner_mass + target_mass))
                (owner_mass / (owner_mass + target_mass))
| shares_owner_finite :
    Num.isFinite owner_mass = true -> Num.isFinite target_mass = false ->
    mass_shares owner_mass target_mass Num.one Num.zero
| shares_target_finite :
    Num.isFinite owner_mass = false -> Num.isFinite target_mass = true ->
    mass_shares owner_mass target_mass Num.zero Num.one
| shares_none_finite :
    Num.isFinite owner_mass = false -> Num.isFinite target_mass = false ->
    mass_shares owner_mass target_mass Num.zero Num.zero.

(** The vector [diff] from the target to the owner, its length [dl], and
    the force [F_ba] that [solve] computes for the target. *)
Definition spring_diff (this : WSpring.t) (s : store) : Vector2 :=
  Vector2.dif (global_position s (WSpring.owner this))
              (global_position s (WSpring.target this)).

Definition spring_dl (this : WSpring.t) (s : store) : num :=
  Vector2.size (spring_diff this s).

Definition spring_force (this : WSpring.t) (s : store) : Vector2 :=
  Vector2.scale (spring_diff this s)
    ((WSpring.ks this * (spring_dl this s - WSpring.L0 this))
     / Num.or_else (spring_dl this s) PInf).

(** A number that is zero or NaN: what a component of [v - v] is, and what
    it stays when multiplied. *)
Definition zero_or_NaN (c : num) : Prop := c = NaN \/ c = Fin 0.

(** The vector from the resolved owner translation to the resolved target
    translation, the distance between the two, and the signed violation. *)
Definition limit_dir (this : LimitDistanceConstraint.t) (s : store)
  : Vector2 :=
  Vector2.dif
    (WTransformMatrix3.get_t
       (select (LimitDistanceConstraint.targetRelativity this)
               (s (LimitDistanceConstraint.target this))))
    (WTransformMatrix3.get_t
       (select (LimitDistanceConstraint.ownerRelativity this)
               (s (LimitDistanceConstraint.owner this)))).

Definition limit_dist (this : LimitDistanceConstraint.t) (s : store) : num :=
  Vector2.size (limit_dir this s).

Definition limit_violation (this : LimitDistanceConstraint.t) (s : store)
  : num :=
  limit_dist this s - LimitDistanceConstraint.distance this.

(** The translation of the baseline transform, which [ownerRelativity]
    selects. *)
Definition baseline (this : LimitLocationConstraint.t) (s : store)
  : Vector2 :=
  WTransformMatrix3.get_t
    (select (LimitLocationConstraint.ownerRelativity this)
            (s (LimitLocationConstraint.owner this))).

(** What a full clamp adds on one axis: [a] is the coordinate of the
    baseline, [before] and [after] are those of [owner.global] before and
    after [solve].  Where the baseline violates one bound and not the other,
    the difference between that bound and the baseline is added; where it
    violates none, or both, nothing is. *)
Definition moved_axis (a mn mx before after : num) : Prop :=
  ((a <? mn) = true -> (mx <? a) = false -> after = before + (mn - a))
  /\ ((mx <? a) = true -> (a <? mn) = false -> after = before + (mx - a))
  /\ ((a <? mn) = (mx <? a) -> after = before).

(** The outcome of a full clamp on one axis, in exact arithmetic: [after]
    is the coordinate of [owner.global] after [solve], [a] the coordinate of
    the baseline. *)
Definition clamped_axis (a mn mx after : num) : Prop :=
  ((a <? mn) = true -> (mx <? a) = false -> after = mn)
  /\ ((mx <? a) = true -> (a <? mn) = false -> after = mx)
  /\ ((a <? mn) = false -> (mx <? a) = false -> after = a).

(** A canonical parameter set: a translation, a unit direction [(rx, ry)],
    the tangent [k] of a skew angle of (-PI/2, PI/2), and a scale. *)
Definition canonical (tx ty : num) (rx ry k sx sy : R) (data : Float32x9)
  : WTransformMatrix3 :=
  WTransformMatrix3.mk (Vector2.mk tx ty) (Vector2.mk (Fin rx) (Fin ry))
                       (Fin k) (Vector2.mk (Fin sx) (Fin sy)) data.

(** ** Colours written as text *)

Module Hex.

(** The text that starts with [#] and goes on with the given characters. *)
Definition hash (body : list ascii) : string :=
  String "#" (string_of_list_ascii body).

(** The texts that one of the two regular expressions of [narrowColor]
    matches: [#], then three, four, six or eight characters of the class. *)
Definition accepted (s : string) : bool :=
  match s with
  | String c body =>
      Ascii.eqb c "#"
      && forallb Color.in_class (list_ascii_of_string body)
      && existsb (Nat.eqb (String.length body)) [3; 4; 6; 8]%nat
  | EmptyString => false
  end.

(** A number of the interval from 0 to 1. *)
Definition in_unit (a : num) : Prop :=
  exists r : R, a = Fin r /\ (0 <= r <= 1)%R.

(** What a channel read from a text can be. *)
Definition channel (a : num) : Prop := a = NaN \/ in_unit a.

(** The channel that one character stands for, and the one that two do. *)
Definition short (d : nat) : num := Fin (INR d / 15).
Definition long (d1 d2 : nat) : num := Fin (INR (16 * d1 + d2) / 255).

End Hex.

(** ** The entries of a matrix *)

Module Tri.

(** Whether two indices are the same. *)
Definition same (i j : WMatrix3.slot) : bool :=
  match i, j with
  | WMatrix3.i0, WMatrix3.i0
  | WMatrix3.i1, WMatrix3.i1
  | WMatrix3.i2, WMatrix3.i2 => true
  | _, _ => false
  end.

(** The entry of a matrix in a column and a row. *)
Definition entry (m : WMatrix3.t) (c r : WMatrix3.slot) : num :=
  WMatrix3.at3 (WMatrix3.at3 (WMatrix3._data m) c) r.

(** A matrix of finite numbers. *)
Definition finite (m : WMatrix3.t) : Prop :=
  forall c r : WMatrix3.slot, Num.isFinite (entry m c r) = true.

(** An infinite number, and a matrix with an infinite entry. *)
Definition infinity (a : num) : Prop := a = PInf \/ a = NInf.

Definition infinite (m : WMatrix3.t) : Prop :=
  exists c r : WMatrix3.slot, infinity (entry m c r).

(** The matrix that [new WMatrix3 ()] gives. *)
Definition identity : WMatrix3.t := WMatrix3.new None.

(** The numbers of the matrix that an instance in memory is, column by
    column. *)
Definition view (m : WMatrix3Heap.memory) (this : WMatrix3Heap.address)
  : WMatrix3.t :=
  WMatrix3.mk
    (WMatrix3Heap.numbers m (WMatrix3Heap.column m this WMatrix3.i0),
     WMatrix3Heap.numbers m (WMatrix3Heap.column m this WMatrix3.i1),
     WMatrix3Heap.numbers m (WMatrix3Heap.column m this WMatrix3.i2)).

(** A memory with nothing in use. *)
Definition nothing : WMatrix3Heap.memory :=
  WMatrix3Heap.mk (fun _ => (NaN, NaN, NaN)) (fun _ => (0, 0, 0)%nat)
                  (fun _ => 0%nat) 0%nat.

(** [new WMatrix3 ([v, v, v])] after [const v = [1, 2, 3]]: the memory,
    and the instance, whose three columns are the one array [v]. *)
Definition thrice : WMatrix3Heap.memory * WMatrix3Heap.address :=
  let '(m, v) := WMatrix3Heap.vector nothing (Fin 1, Fin 2, Fin 3) in
  let '(m, d) := WMatrix3Heap.triple m (v, v, v) in
  WMatrix3Heap.new m (Some d).

End Tri.

(** ** The table of a curve *)

Module Cubic.

(** The cubic Bezier polynomial with the end values 0 and 1 and the control
    values [a] and [b]. *)
Definition bernstein (a b t : R) : R :=
  (3 * a * t * (1 - t) ^ 2 + 3 * b * t ^ 2 * (1 - t) + t ^ 3)%R.

(** The points of the curve at the parameters 0, 1/n, ..., 1. *)
Definition samples (a1 b1 a2 b2 : R) (n : nat) : list (num * num) :=
  map (fun i : nat =>
         (Fin (bernstein a1 a2 (INR i / INR n)),
          Fin (bernstein b1 b2 (INR i / INR n))))
    (seq 0 (S n)).

(** A point of finite coordinates. *)
Definition finite (p : num * num) : Prop :=
  exists a b : R, p = (Fin a, Fin b).

(** The value at [x] of the line through two points, as [search] writes
    it. *)
Definition interpolate (l r : num * num) (x : num) : num :=
  (x - fst r) / (fst l - fst r) * snd l
  + (x - fst l) / (fst r - fst l) * snd r.

(** [x] is not before [l] and not after [r]. *)
Definition between (l r : num * num) (x : num) : Prop :=
  (fst l <=? x) = true /\ (x <=? fst r) = true.

(** [y] is read off a table at [x]: it is the second coordinate of a point
    of the table whose first is [x], or the value at [x] of the line through
    two points that follow each other in the table, [x] being between
    them. *)
Definition read_off (arr : list (num * num)) (x y : num) : Prop :=
  (exists k : nat, nth_error arr k = Some (x, y))
  \/ (exists (k : nat) (l r : num * num),
        nth_error arr k = Some l /\ nth_error arr (S k) = Some r
        /\ between l r x /\ y = interpolate l r x).

End Cubic.

(** ** What a call writes *)

(** [s'] is [s] but for the global transform of the body behind [p]. *)
Definition writes_only_global (p : ref) (s s' : store) : Prop :=
  exists g : WTransformMatrix3,
    forall q : ref, s' q = upd s p (WPhysicsModel.set_global (s p) g) q.

(** A body without the force it has accumulated. *)
Definition but_force (b : WPhysicsModel) : WPhysicsModel :=
  WPhysicsModel.set_force b (vec2 Num.zero None).

(** What a body holds besides its local transform and its acceleration. *)
Definition rope_leaves (b : WPhysicsModel) :=
  (WPhysicsModel.origin b, WPhysicsModel.global b, WPhysicsModel.velocity b,
   WPhysicsModel.force b, WPhysicsModel.mass b).

(** The weighted sum [p * m + q * n] of two vectors. *)
Definition weighted (p : Vector2) (m : num) (q : Vector2) (n : num)
  : Vector2 :=
  Vector2.sum (Vector2.scale p m) [Vector2.scale q n].

(** ** What the copy constraints write *)

(** The effect of the factor [invert ? -1 : 1] on a number. *)
Definition mirrored (invert : bool) (c : num) : num :=
  if invert then - c else c.

(** What [CopyLocationConstraint] writes on an axis: the target's
    coordinate, mirrored on demand, plus the owner's when [offset] is set. *)
Definition copied_sum (invert offset : bool) (t o : num) : num :=
  if offset then mirrored invert t + o else mirrored invert t.

(** What [CopyScaleConstraint] writes on an axis: the target's factor, times
    the owner's when [offset] is set. *)
Definition copied_product (offset : bool) (t o : num) : num :=
  if offset then t * o else t.

(** ** Sequences of calls on a transform *)

Module Method.

(** A call of one of the methods of math.ts that change a transform. *)
Inductive t : Type :=
| calcMatrix
| calcFields
| translateX (x : num)
| translateY (y : num)
| translate (x y : num)
| rotate (v0 : num) (v1 : option num)
| scaleX (sx : num)
| scaleY (sy : num)
| scale (sx sy : num)
| skew (k : num)
| matrix (a b c d e f : option num)
| set_a (v : num)
| set_b (v : num)
| set_c (v : num)
| set_d (v : num)
| set_e (v : num)
| set_f (v : num).

Definition run (this : WTransformMatrix3) (c : t) : WTransformMatrix3 :=
  match c with
  | calcMatrix => WTransformMatrix3.calcMatrix this
  | calcFields => WTransformMatrix3.calcFields this
  | translateX x => WTransformMatrix3.translateX this x
  | translateY y => WTransformMatrix3.translateY this y
  | translate x y => WTransformMatrix3.translate this x y
  | rotate v0 v1 => WTransformMatrix3.rotate this v0 v1
  | scaleX sx => WTransformMatrix3.scaleX this sx
  | scaleY sy => WTransformMatrix3.scaleY this sy
  | scale sx sy => WTransformMatrix3.scale this sx sy
  | skew k => WTransformMatrix3.skew this k
  | matrix a b c d e f => WTransformMatrix3.matrix this a b c d e f
  | set_a v => WTransformMatrix3.set_a this v
  | set_b v => WTransformMatrix3.set_b this v
  | set_c v => WTransformMatrix3.set_c this v
  | set_d v => WTransformMatrix3.set_d this v
  | set_e v => WTransformMatrix3.set_e this v
  | set_f v => WTransformMatrix3.set_f this v
  end.

(** The calls that end in [calcMatrix]: they set fields and recompute the
    coefficients.  The others end in [calcFields]. *)
Definition sets_fields (c : t) : bool :=
  match c with
  | calcMatrix | translateX _ | translateY _ | translate _ _ | rotate _ _
  | scaleX _ | scaleY _ | scale _ _ | skew _ => true
  | _ => false
  end.

(** A sequence of calls, from left to right. *)
Definition run_all (this : WTransformMatrix3) (cs : list t)
  : WTransformMatrix3 :=
  fold_left run cs this.

End Method.

(** The last row of the coefficients of an affine transform. *)
Definition affine (m : WTransformMatrix3) : Prop :=
  d2 (WTransformMatrix3._data m) = Num.zero
  /\ d5 (WTransformMatrix3._data m) = Num.zero
  /\ d8 (WTransformMatrix3._data m) = Num.one.

(* ================================================================= *)
(** * Properties *)

(** ** Arithmetic of [num] *)

(** Splits the conjunctions of the goal, and nothing else. *)
Ltac conj_split := repeat match goal with |- _ /\ _ => split end.

(** Case analysis on the sign tests the operations make. *)
Ltac sign_cases :=
  repeat match goal with
         | |- context [Rlt_dec ?a ?b] => destruct (Rlt_dec a b)
         | |- context [Req_dec_T ?a ?b] => destruct (Req_dec_T a b)
         | H : context [Rlt_dec ?a ?b] |- _ => destruct (Rlt_dec a b)
         | H : context [Req_dec_T ?a ?b] |- _ => destruct (Req_dec_T a b)
         end.

Ltac num_unfold :=
  unfold Num.sub, Num.tan, Num.gtb, Num.or_else, NumExtra.sq, Num.zero,
    Num.one, Num.pi in *;
  cbn [Num.add Num.mul Num.div Num.neg Num.ltb Num.truthy Num.isFinite
       Num.max Num.min Num.sqrt Num.hypot Num.cos Num.sin Num.atan
       Num.atan2 Num.strict_neq Num.inf Num.inf_times negb] in *;
  unfold Num.inf_times in *;
  cbn [Num.inf negb] in *.

(** Runs the program and leaves the arithmetic as it is written. *)
Ltac run :=
  cbn -[Num.add Num.sub Num.mul Num.div Num.neg Num.ltb Num.gtb Num.max
        Num.min Num.sqrt Num.hypot Num.cos Num.sin Num.tan Num.atan
        Num.atan2 Num.strict_neq Num.truthy Num.or_else Num.isFinite
        Num.zero Num.one Num.pi NumExtra.sq] in *.

(** Closes a goal on numbers once every number in it is a constructor. *)
Ltac num_crush :=
  num_unfold; sign_cases;
  try reflexivity; try discriminate; try lra;
  try (exfalso; lra);
  try (f_equal; lra).

(** Evaluates an expression on concrete numbers: each sign test on
    constants is settled by linear arithmetic. *)
Ltac num_step :=
  unfold Num.inf_times, Num.or_else, Num.gtb, Num.sub, Num.tan,
    NumExtra.sq, Vector2.vec2, Vector2.scale, Vector2.dif, Vector2.neg,
    Vector2.size, Vector2.length, Vector2.norm, Vector2.rotation,
    LimitDistanceConstraint.breached, LimitLocationConstraint.correction;
  cbn.

Ltac num_eval :=
  cbn; repeat num_step;
  repeat (match goal with
          | |- context [Rlt_dec ?a ?b] =>
              destruct (Rlt_dec a b); try (exfalso; lra)
          | |- context [Req_dec_T ?a ?b] =>
              destruct (Req_dec_T a b); try (exfalso; lra)
          end; repeat num_step).

(** Equality of concrete values, up to arithmetic on the reals in them. *)
Ltac fin_eq :=
  unfold Num.zero, Num.one;
  repeat match goal with
         | |- ?a = ?b => constr_eq a b; reflexivity
         | |- Vector2.mk _ _ = Vector2.mk _ _ => apply f_equal2
         | |- Fin _ = Fin _ => apply (f_equal Fin)
         end;
  try first [ lra | ring | (field; lra) | nra ].

Module NumFacts.

Lemma add_0_r (a : num) : a + Num.zero = a.
Proof. destruct a; num_crush. Qed.

Lemma add_0_l (a : num) : Num.zero + a = a.
Proof. destruct a; num_crush. Qed.

Lemma mul_1_r (a : num) : a * Num.one = a.
Proof. destruct a; num_crush. Qed.

Lemma fin_mul_0 (r : R) : Fin r * Num.zero = Num.zero.
Proof. num_crush. Qed.

Lemma add_comm (a b : num) : a + b = b + a.
Proof. destruct a, b; num_crush. Qed.

Lemma mul_comm (a b : num) : a * b = b * a.
Proof. destruct a, b; num_crush. Qed.

Lemma neg_neg (a : num) : - - a = a.
Proof. destruct a; num_crush. Qed.

(** [isFinite] names the finite reals. *)
Lemma isFinite_Fin (a : num) : Num.isFinite a = true -> exists r, a = Fin r.
Proof. destruct a; try discriminate. intros _. eauto. Qed.

End NumFacts.

(** ** Vector2.fromDegree *)

(** C8, as amended.  Called with the angle first and the length second,
    [Vector2.fromDegree] of math.ts returns
    [(length * cos angle, length * sin angle)], the length being 1 when it is
    left out; the [fromDegree] of the compiled math.js takes its parameters
    in the other order, so the same call returns
    [(angle * cos length, angle * sin length)], which is (NaN, NaN) when the
    length is left out. *)
Theorem fromDegree_angle_then_length (angle : num) (length : option num) :
  Vector2.fromDegree angle length
  = Vector2.mk (NumExtra.default Num.one length * Num.cos angle)
               (NumExtra.default Num.one length * Num.sin angle)
  /\ Vector2.fromDegree_js (Some angle) length
     = Vector2.mk (angle * Num.cos (NumExtra.of_arg length))
                  (angle * Num.sin (NumExtra.of_arg length))
  /\ Vector2.fromDegree_js (Some angle) None = Vector2.mk NaN NaN.
Proof.
  conj_split.
  - reflexivity.
  - reflexivity.
  - destruct angle; reflexivity.
Qed.

(** C8 fails for the compiled math.js: asked for the vector of angle 0 and
    length 2, which is (2, 0), it returns (0, 0). *)
Lemma fromDegree_js_swaps_arguments :
  Vector2.fromDegree_js (Some (Fin 0)) (Some (Fin 2))
  = Vector2.mk (Fin 0) (Fin 0)
  /\ Vector2.mk (Fin 2 * Num.cos (Fin 0)) (Fin 2 * Num.sin (Fin 0))
     = Vector2.mk (Fin 2) (Fin 0)
  /\ Vector2.fromDegree_js (Some (Fin 0)) (Some (Fin 2))
     <> Vector2.mk (Fin 2 * Num.cos (Fin 0)) (Fin 2 * Num.sin (Fin 0)).
Proof.
  assert (E1 : Vector2.fromDegree_js (Some (Fin 0)) (Some (Fin 2))
               = Vector2.mk (Fin 0) (Fin 0)).
  { unfold Vector2.fromDegree_js, Vector2.vec2; cbn.
    f_equal; f_equal; lra. }
  assert (E2 : Vector2.mk (Fin 2 * Num.cos (Fin 0)) (Fin 2 * Num.sin (Fin 0))
               = Vector2.mk (Fin 2) (Fin 0)).
  { cbn. rewrite cos_0, sin_0. f_equal; f_equal; lra. }
  conj_split; trivial.
  rewrite E1, E2. intros H. injection H as H. lra.
Qed.

(** ** LimitLocationConstraint: the influence *)

Lemma clamp_unit (v : num) :
  v <> NaN -> in_unit_interval (clamp v Num.zero Num.one).
Proof.
  intros Hv. unfold in_unit_interval, clamp.
  destruct v as [ | | | r]; try congruence.
  - exists 1%R. split; [num_crush | lra].
  - exists 0%R. split; [num_crush | lra].
  - num_unfold. destruct (Rlt_dec 0 r) as [Hpos | Hneg].
    + cbn. destruct (Rlt_dec 1 r).
      * exists 1%R. split; [reflexivity | lra].
      * exists r. split; [reflexivity | lra].
    + cbn. destruct (Rlt_dec 1 0); [lra | ].
      exists 0%R. split; [reflexivity | lra].
Qed.

(** C9, as amended.  The influence setter stores [clamp (v, 0, 1)], which
    lies in [0, 1] for every [v] other than NaN; the constructor stores its
    influence argument as it is, so the getter of a fresh constraint reports
    exactly [v], inside [0, 1] or not. *)
Theorem influence_setter_clamps_constructor_does_not
        (this : LimitLocationConstraint.t) (v : num) (owner : ref)
        (relativity : option string) (minX minY maxX maxY : option num) :
  LimitLocationConstraint.influence
    (LimitLocationConstraint.set_influence this v)
  = clamp v Num.zero Num.one
  /\ (v <> NaN ->
      in_unit_interval
        (LimitLocationConstraint.influence
           (LimitLocationConstraint.set_influence this v)))
  /\ LimitLocationConstraint.influence
       (LimitLocationConstraint.new owner
          (LimitLocationConstraint.mkOptions relativity (Some v)
                                             minX minY maxX maxY))
     = v.
Proof.
  conj_split.
  - reflexivity.
  - intros Hv. apply clamp_unit, Hv.
  - reflexivity.
Qed.

(** The theorem at [v = 7]: the setter stores 1, the constructor 7. *)
Lemma influence_setter_clamps_constructor_does_not_witness :
  in_unit_interval
    (LimitLocationConstraint.influence
       (LimitLocationConstraint.set_influence
          (LimitLocationConstraint.new 0%nat
             (LimitLocationConstraint.mkOptions None None None None None None))
          (Fin 7)))
  /\ LimitLocationConstraint.influence
       (LimitLocationConstraint.new 0%nat
          (LimitLocationConstraint.mkOptions None (Some (Fin 7))
                                             None None None None))
     = Fin 7.
Proof.
  pose proof
    (influence_setter_clamps_constructor_does_not
       (LimitLocationConstraint.new 0%nat
          (LimitLocationConstraint.mkOptions None None None None None None))
       (Fin 7) 0%nat None None None None None) as [_ [Hset Hnew]].
  split; [apply Hset; discriminate | exact Hnew].
Defined.

(** C9 fails at NaN: [clamp (NaN, 0, 1)] is NaN, which the setter stores. *)
Lemma influence_setter_keeps_NaN :
  LimitLocationConstraint.influence
    (LimitLocationConstraint.set_influence
       (LimitLocationConstraint.new 0%nat
          (LimitLocationConstraint.mkOptions None None None None None None))
       NaN)
  = NaN
  /\ ~ in_unit_interval
       (LimitLocationConstraint.influence
          (LimitLocationConstraint.set_influence
             (LimitLocationConstraint.new 0%nat
                (LimitLocationConstraint.mkOptions None None None None None
                                                   None))
             NaN)).
Proof.
  split; [reflexivity | ].
  intros [r [H _]]. discriminate H.
Qed.

(** ** CopyTransformsConstraint: an unknown mix mode *)

(** C5.  When [mixMode] is none of 'replace', 'split', 'beforeFull' and
    'afterFull', [solve] throws the error "Invalid mix mode" (its cause is
    the mix mode) and has written nothing by then: the store, and with it
    [owner.global], is as it was. *)
Theorem CopyTransforms_invalid_mixMode_throws
        (this : CopyTransformsConstraint.t) (s : store) :
  CopyTransformsConstraint.mixMode this <> "replace"%string ->
  CopyTransformsConstraint.mixMode this <> "split"%string ->
  CopyTransformsConstraint.mixMode this <> "beforeFull"%string ->
  CopyTransformsConstraint.mixMode this <> "afterFull"%string ->
  CopyTransformsConstraint.solve this s
  = (Throw "Invalid mix mode" (CopyTransformsConstraint.mixMode this), s)
  /\ WPhysicsModel.global
       (snd (CopyTransformsConstraint.solve this s)
            (CopyTransformsConstraint.owner this))
     = WPhysicsModel.global (s (CopyTransformsConstraint.owner this)).
Proof.
  intros H1 H2 H3 H4.
  assert (E : CopyTransformsConstraint.solve this s
              = (Throw "Invalid mix mode"
                       (CopyTransformsConstraint.mixMode this), s)).
  { unfold CopyTransformsConstraint.solve.
    apply String.eqb_neq in H1, H2, H3, H4.
    rewrite H1, H2, H3, H4. reflexivity. }
  split; [exact E | rewrite E; reflexivity].
Qed.

(** The theorem at the mix mode 'add', between two bodies 9 apart. *)
Lemma CopyTransforms_invalid_mixMode_throws_witness :
  CopyTransformsConstraint.solve
    (CopyTransformsConstraint.mk 0 1 "add" "global" "global")
    (Scene.two (Scene.body 0 0 Num.one) (Scene.body 9 0 Num.one))
  = (Throw "Invalid mix mode" "add",
     Scene.two (Scene.body 0 0 Num.one) (Scene.body 9 0 Num.one))
  /\ WPhysicsModel.global
       (snd (CopyTransformsConstraint.solve
               (CopyTransformsConstraint.mk 0 1 "add" "global" "global")
               (Scene.two (Scene.body 0 0 Num.one) (Scene.body 9 0 Num.one)))
            0%nat)
     = WPhysicsModel.global
         (Scene.two (Scene.body 0 0 Num.one) (Scene.body 9 0 Num.one) 0%nat).
Proof.
  apply (CopyTransforms_invalid_mixMode_throws
           (CopyTransformsConstraint.mk 0 1 "add" "global" "global"));
    discriminate.
Defined.

(** ** WPhysicsModel.updateLocation *)

Lemma finite_vector_Fin (v : Vector2) :
  finite_vector v = true -> exists a b, v = Vector2.mk (Fin a) (Fin b).
Proof.
  destruct v as [[ | | | a] [ | | | b]]; try discriminate.
  intros _. eauto.
Qed.

(** A mass that is a number other than zero (an infinite mass is one) has
    a finite [1 / mass], in exact arithmetic. *)
Lemma one_over_mass (m : num) :
  Num.truthy m = true -> exists r, Num.one / m = Fin r.
Proof.
  destruct m as [ | | | r]; cbn; try discriminate; eauto.
  unfold Num.one; cbn. destruct (Req_dec_T r 0); [discriminate | eauto].
Qed.

(** Adding a finite number times zero changes nothing. *)
Lemma add_finite_times_zero (a : num) (r : R) : a + Fin r * Num.zero = a.
Proof. rewrite NumFacts.fin_mul_0. apply NumFacts.add_0_r. Qed.

(** A step of length zero, when the acceleration it computes is finite. *)
Lemma updateLocation_0_finite (this : WPhysicsModel) :
  finite_vector
    (Vector2.add (WPhysicsModel.acceleration this)
       [Vector2.scale (WPhysicsModel.force this)
                      (Num.one / WPhysicsModel.mass this)])
  = true ->
  WPhysicsModel.velocity (WPhysicsModel.updateLocation this Num.zero)
  = WPhysicsModel.velocity this
  /\ (finite_vector (WPhysicsModel.velocity this) = true ->
      WTransformMatrix3.get_t
        (WPhysicsModel.local (WPhysicsModel.updateLocation this Num.zero))
      = WTransformMatrix3.get_t (WPhysicsModel.local this)).
Proof.
  destruct this as [org [[tx ty] dir k sc dat] glo [vx vy] [ax ay] [fx fy] m].
  unfold WPhysicsModel.updateLocation, WPhysicsModel.applyAcceleration,
    WPhysicsModel.applyVelocity, WPhysicsModel.move, finite_vector; run.
  set (ax' := ax + fx * (Num.one / m)). set (ay' := ay + fy * (Num.one / m)).
  intros Ha. apply andb_true_iff in Ha as [Hx Hy].
  destruct (NumFacts.isFinite_Fin _ Hx) as [rx ->].
  destruct (NumFacts.isFinite_Fin _ Hy) as [ry ->].
  rewrite !add_finite_times_zero.
  split; [reflexivity | ].
  intros Hv. apply andb_true_iff in Hv as [Hvx Hvy].
  destruct (NumFacts.isFinite_Fin _ Hvx) as [qx ->].
  destruct (NumFacts.isFinite_Fin _ Hvy) as [qy ->].
  unfold Vector2.vec2; run.
  rewrite !add_finite_times_zero. reflexivity.
Qed.

(** C4, as amended.  For every [dt], [updateLocation (dt)] returns with
    [force = (0, 0)] and [acceleration = (0, 0)]; and for [dt = 0], when
    the acceleration that the call computes,
    [acceleration + force * (1 / mass)], has finite components, the call
    leaves the velocity as it was, and the local translation too when the
    velocity has finite components. *)
Theorem updateLocation_clears_accumulators
        (this : WPhysicsModel) (dt : num) :
  WPhysicsModel.force (WPhysicsModel.updateLocation this dt)
  = Vector2.mk Num.zero Num.zero
  /\ WPhysicsModel.acceleration (WPhysicsModel.updateLocation this dt)
     = Vector2.mk Num.zero Num.zero
  /\ (finite_vector
        (Vector2.add (WPhysicsModel.acceleration this)
           [Vector2.scale (WPhysicsModel.force this)
                          (Num.one / WPhysicsModel.mass this)])
      = true ->
      WPhysicsModel.velocity (WPhysicsModel.updateLocation this Num.zero)
      = WPhysicsModel.velocity this
      /\ (finite_vector (WPhysicsModel.velocity this) = true ->
          WTransformMatrix3.get_t
            (WPhysicsModel.local (WPhysicsModel.updateLocation this Num.zero))
          = WTransformMatrix3.get_t (WPhysicsModel.local this))).
Proof.
  split; [reflexivity | split; [reflexivity | ]].
  apply updateLocation_0_finite.
Qed.

(** The theorem at the body [Scene.pushed]. *)
Lemma updateLocation_clears_accumulators_witness :
  WPhysicsModel.force (WPhysicsModel.updateLocation Scene.pushed (Fin 7))
  = Vector2.mk Num.zero Num.zero
  /\ WPhysicsModel.acceleration
       (WPhysicsModel.updateLocation Scene.pushed (Fin 7))
     = Vector2.mk Num.zero Num.zero
  /\ WPhysicsModel.velocity
       (WPhysicsModel.updateLocation Scene.pushed Num.zero)
     = WPhysicsModel.velocity Scene.pushed
  /\ WTransformMatrix3.get_t
       (WPhysicsModel.local
          (WPhysicsModel.updateLocation Scene.pushed Num.zero))
     = WTransformMatrix3.get_t (WPhysicsModel.local Scene.pushed).
Proof.
  destruct (updateLocation_clears_accumulators Scene.pushed (Fin 7))
    as [Hf [Ha H0]].
  split; [exact Hf | split; [exact Ha | ]].
  destruct H0 as [Hv Hp].
  - num_eval; reflexivity.
  - split; [exact Hv | apply Hp]. num_eval; reflexivity.
Defined.

(** C4 fails at [dt = 0] on four bodies.  With a mass of 0 the body at rest
    gets the velocity (NaN, NaN) and the position (NaN, NaN), since
    [force * (1 / 0)] is [0 * Infinity]; with the force (Infinity, 0), or
    with the acceleration (Infinity, 0), the velocity (0, 0) becomes
    (NaN, 0); with the velocity (Infinity, 0) the position (0, 0) becomes
    (NaN, 0). *)
Lemma updateLocation_0_changes_velocity_and_position :
  (WPhysicsModel.velocity Scene.massless = Vector2.mk (Fin 0) (Fin 0)
   /\ WPhysicsModel.velocity
        (WPhysicsModel.updateLocation Scene.massless Num.zero)
      = Vector2.mk NaN NaN
   /\ WTransformMatrix3.get_t (WPhysicsModel.local Scene.massless)
      = Vector2.mk (Fin 0) (Fin 0)
   /\ WTransformMatrix3.get_t
        (WPhysicsModel.local
           (WPhysicsModel.updateLocation Scene.massless Num.zero))
      = Vector2.mk NaN NaN)
  /\ (WPhysicsModel.velocity Scene.overpushed = Vector2.mk (Fin 0) (Fin 0)
      /\ WPhysicsModel.velocity
           (WPhysicsModel.updateLocation Scene.overpushed Num.zero)
         = Vector2.mk NaN (Fin 0))
  /\ (WPhysicsModel.velocity Scene.accelerated = Vector2.mk (Fin 0) (Fin 0)
      /\ WPhysicsModel.velocity
           (WPhysicsModel.updateLocation Scene.accelerated Num.zero)
         = Vector2.mk NaN (Fin 0))
  /\ (WTransformMatrix3.get_t (WPhysicsModel.local Scene.runaway)
      = Vector2.mk (Fin 0) (Fin 0)
      /\ WTransformMatrix3.get_t
           (WPhysicsModel.local
              (WPhysicsModel.updateLocation Scene.runaway Num.zero))
         = Vector2.mk NaN (Fin 0)).
Proof.
  conj_split.
  all: num_eval; fin_eq.
Qed.

(** ** WPhysicsModel: the constructor *)

Lemma vec2_eta (v : Vector2) :
  vec2 (Vector2.x v) (Some (Vector2.y v)) = v.
Proof. destruct v; reflexivity. Qed.

(** What a finite acceleration adds to the velocity in a step of length
    zero, when nothing pushes the body: nothing. *)
Lemma velocity_after_rest_step (v a : Vector2) (m : num) :
  Num.truthy m = true ->
  finite_vector a = true ->
  Vector2.add v
    [Vector2.scale
       (Vector2.add a
          [Vector2.scale (vec2 Num.zero None) (Num.one / m)])
       Num.zero]
  = v.
Proof.
  intros Hm Ha.
  destruct (one_over_mass m Hm) as [im Him].
  destruct (finite_vector_Fin _ Ha) as [ax [ay ->]].
  rewrite Him. destruct v as [vx vy]. cbn.
  unfold Vector2.vec2; cbn.
  replace (ax + 0 * im)%R with ax by ring.
  replace (ay + 0 * im)%R with ay by ring.
  rewrite !Rmult_0_r.
  f_equal; apply NumFacts.add_0_r.
Qed.

(** With a finite acceleration argument and a non-zero mass, the
    constructor returns [built o]. *)
Lemma new_is_built (o : WPhysicsModel.options) :
  Num.truthy (mass_of o) = true ->
  finite_vector (acceleration_of o) = true ->
  WPhysicsModel.new o = built o.
Proof.
  intros Hm Ha.
  pose proof (velocity_after_rest_step (velocity_of o) _ _ Hm Ha) as Hv.
  unfold WPhysicsModel.new, built, WPhysicsModel.updateLocation,
    WPhysicsModel.applyAcceleration, WPhysicsModel.applyVelocity.
  fold (velocity_of o) (acceleration_of o) (mass_of o) (location_of o).
  cbn [WPhysicsModel.force WPhysicsModel.acceleration WPhysicsModel.velocity
       WPhysicsModel.mass WPhysicsModel.set_acceleration
       WPhysicsModel.set_velocity WPhysicsModel._origin
       WPhysicsModel._local WPhysicsModel._global].
  rewrite Hv.
  reflexivity.
Qed.

Lemma built_ignores_acceleration
      (o : WPhysicsModel.options) (a : option Vector2) :
  built (with_acceleration o a) = built o.
Proof. reflexivity. Qed.

Lemma built_position (o : WPhysicsModel.options) :
  finite_vector (velocity_of o) = true ->
  WTransformMatrix3.get_t (WPhysicsModel.local (built o)) = location_of o.
Proof.
  intros Hv. destruct (finite_vector_Fin _ Hv) as [vx [vy E]].
  unfold built. rewrite E.
  destruct (location_of o) as [tx ty].
  unfold WPhysicsModel.move; run. unfold Vector2.vec2; run.
  rewrite !NumFacts.fin_mul_0, !NumFacts.add_0_r. reflexivity.
Qed.

(** The masses with a finite [1 / mass] are the numbers other than zero,
    the infinite ones included. *)
Lemma finite_reciprocal (m : num) :
  Num.isFinite (Num.one / m) = true -> Num.truthy m = true.
Proof.
  destruct m as [ | | | r]; try discriminate; try reflexivity.
  unfold Num.one, Num.div, Num.truthy, Num.inf_times.
  destruct (Req_dec_T r 0); [ | reflexivity].
  sign_cases; try discriminate; lra.
Qed.

(** C10, as amended.  A freshly constructed body has [force = (0, 0)] and
    [acceleration = (0, 0)]; and when the acceleration argument has finite
    components and the [1 / mass] that the constructor's
    [updateLocation (0)] computes is finite, the acceleration argument
    leaves no trace (any other finite acceleration builds the same body),
    the velocity is the one supplied and, the velocity being finite, the
    position is the location supplied. *)
Theorem constructor_discards_acceleration (o : WPhysicsModel.options) :
  WPhysicsModel.force (WPhysicsModel.new o) = Vector2.mk Num.zero Num.zero
  /\ WPhysicsModel.acceleration (WPhysicsModel.new o)
     = Vector2.mk Num.zero Num.zero
  /\ (Num.isFinite (Num.one / mass_of o) = true ->
      finite_vector (acceleration_of o) = true ->
      WPhysicsModel.velocity (WPhysicsModel.new o) = velocity_of o
      /\ (forall a : Vector2,
             finite_vector a = true ->
             WPhysicsModel.new (with_acceleration o (Some a))
             = WPhysicsModel.new o)
      /\ (finite_vector (velocity_of o) = true ->
          WTransformMatrix3.get_t (WPhysicsModel.local (WPhysicsModel.new o))
          = location_of o)).
Proof.
  split; [reflexivity | split; [reflexivity | ]].
  intros Hm%finite_reciprocal Ha. rewrite (new_is_built o Hm Ha).
  split; [reflexivity | split].
  - intros a Hfin.
    rewrite (new_is_built (with_acceleration o (Some a)) Hm Hfin).
    apply built_ignores_acceleration.
  - apply built_position.
Qed.

(** The theorem at the arguments [Scene.launch]. *)
Lemma constructor_discards_acceleration_witness :
  WPhysicsModel.velocity (WPhysicsModel.new Scene.launch)
  = Vector2.mk (Fin 1) (Fin 2)
  /\ WPhysicsModel.new
       (with_acceleration Scene.launch (Some (vec2 (Fin 7) (Some (Fin 8)))))
     = WPhysicsModel.new Scene.launch
  /\ WTransformMatrix3.get_t
       (WPhysicsModel.local (WPhysicsModel.new Scene.launch))
     = Vector2.mk (Fin 3) (Fin 4).
Proof.
  destruct (constructor_discards_acceleration Scene.launch) as [_ [_ H]].
  destruct H as [Hv [Ha Hp]].
  - num_eval; reflexivity.
  - reflexivity.
  - split; [exact Hv | split].
    + apply Ha. reflexivity.
    + apply Hp. reflexivity.
Defined.

(** C10 fails on three sets of arguments.  With a mass of 0 and nothing
    else, the velocity and the position of the new body are (NaN, NaN), not
    the default (0, 0); with the acceleration (Infinity, 0) and nothing
    else, the velocity is (NaN, 0), where no acceleration gives (0, 0); with
    the velocity (Infinity, 0) and nothing else, the position is (NaN, 0),
    not the default (0, 0). *)
Lemma constructor_keeps_a_trace :
  (velocity_of Scene.no_mass = Vector2.mk (Fin 0) (Fin 0)
   /\ WPhysicsModel.velocity (WPhysicsModel.new Scene.no_mass)
      = Vector2.mk NaN NaN
   /\ location_of Scene.no_mass = Vector2.mk (Fin 0) (Fin 0)
   /\ WTransformMatrix3.get_t
        (WPhysicsModel.local (WPhysicsModel.new Scene.no_mass))
      = Vector2.mk NaN NaN)
  /\ (WPhysicsModel.velocity (WPhysicsModel.new Scene.infinite_acceleration)
      = Vector2.mk NaN (Fin 0)
      /\ WPhysicsModel.velocity (WPhysicsModel.new Scene.defaults)
         = Vector2.mk (Fin 0) (Fin 0))
  /\ (location_of Scene.infinite_velocity = Vector2.mk (Fin 0) (Fin 0)
      /\ WTransformMatrix3.get_t
           (WPhysicsModel.local (WPhysicsModel.new Scene.infinite_velocity))
         = Vector2.mk NaN (Fin 0)).
Proof.
  conj_split.
  all: num_eval; fin_eq.
Qed.

(** ** The store *)

Lemma upd_same (s : store) (p : ref) (b : WPhysicsModel) : upd s p b p = b.
Proof. unfold upd. rewrite Nat.eqb_refl. reflexivity. Qed.

Lemma upd_other (s : store) (p q : ref) (b : WPhysicsModel) :
  q <> p -> upd s p b q = s q.
Proof.
  intros H. unfold upd. apply Nat.eqb_neq in H. rewrite H. reflexivity.
Qed.

Lemma call_same (s : store) (p : ref) (m : WPhysicsModel -> WPhysicsModel) :
  call s p m p = m (s p).
Proof. apply upd_same. Qed.

Lemma call_other (s : store) (p q : ref)
      (m : WPhysicsModel -> WPhysicsModel) :
  q <> p -> call s p m q = s q.
Proof. apply upd_other. Qed.

Lemma two_first (a b : WPhysicsModel) : Scene.two a b 0%nat = a.
Proof. reflexivity. Qed.

Lemma two_second (a b : WPhysicsModel) : Scene.two a b 1%nat = b.
Proof. reflexivity. Qed.

Lemma global_position_unfold (s : store) (p : ref) :
  global_position s p = WTransformMatrix3.get_t (WPhysicsModel.global (s p)).
Proof. reflexivity. Qed.

Lemma get_t_translate (m : WTransformMatrix3) (x y : num) :
  WTransformMatrix3.get_t (WTransformMatrix3.translate m x y)
  = Vector2.mk x y.
Proof. reflexivity. Qed.

Lemma get_t_eta (m : WTransformMatrix3) :
  Vector2.mk (WTransformMatrix3.tx m) (WTransformMatrix3.ty m)
  = WTransformMatrix3.get_t m.
Proof. reflexivity. Qed.

Lemma move_position (b : WPhysicsModel) (d : Vector2) :
  WTransformMatrix3.get_t (WPhysicsModel.local (WPhysicsModel.move b d))
  = Vector2.sum (WTransformMatrix3.get_t (WPhysicsModel.local b)) [d].
Proof. reflexivity. Qed.

Lemma move_global (b : WPhysicsModel) (d : Vector2) :
  WPhysicsModel.global (WPhysicsModel.move b d) = WPhysicsModel.global b.
Proof. reflexivity. Qed.

(** Adding a vector of NaNs gives a vector of NaNs. *)
Lemma sum_NaN (v : Vector2) :
  Vector2.sum v [Vector2.mk NaN NaN] = Vector2.mk NaN NaN.
Proof. destruct v as [[ | | | a] [ | | | b]]; reflexivity. Qed.

Lemma scale_NaN (n : num) :
  Vector2.scale (Vector2.mk NaN NaN) n = Vector2.mk NaN NaN.
Proof. reflexivity. Qed.

(** ** WRope.solve *)

(** The shares [solve] computes are the shares of the specification. *)
Lemma shares_spec (om tm : num) :
  mass_shares om tm (fst (WRope.shares om tm)) (snd (WRope.shares om tm)).
Proof.
  unfold WRope.shares.
  destruct (Num.isFinite om) eqn:Ho, (Num.isFinite tm) eqn:Ht; cbn [fst snd];
    constructor; assumption.
Qed.

Lemma dif_self_finite (x y : R) :
  Vector2.dif (Vector2.mk (Fin x) (Fin y)) (Vector2.mk (Fin x) (Fin y))
  = Vector2.mk (Fin 0) (Fin 0).
Proof. unfold Vector2.dif, Vector2.vec2; cbn. f_equal; f_equal; ring. Qed.

Lemma size_origin : Vector2.size (Vector2.mk (Fin 0) (Fin 0)) = Fin 0.
Proof.
  unfold Vector2.size; cbn. f_equal.
  replace (0 * 0 + 0 * 0)%R with 0%R by ring. apply sqrt_0.
Qed.

(** A rope from a body to itself that is longer than its length (so of
    negative length): the overshoot is not a number. *)
Lemma rope_overshoot_self (this : WRope.t) (s : store) :
  WRope.owner this = WRope.target this ->
  (rope_diff this s >? WRope.length this) = true ->
  rope_overshoot this s = Vector2.mk NaN NaN.
Proof.
  intros Halias Hlong.
  unfold rope_overshoot, rope_diff, rope_dir, global_position in *.
  rewrite Halias in *.
  destruct (WTransformMatrix3.get_t
              (WPhysicsModel.global (s (WRope.target this)))) as [gx gy].
  destruct gx as [ | | | x], gy as [ | | | y];
    try (destruct (WRope.length this); discriminate Hlong).
  rewrite dif_self_finite, size_origin in *.
  destruct (WRope.length this) as [ | | | l]; try discriminate Hlong.
  - num_eval; reflexivity.
  - cbn in Hlong.
    destruct (Rlt_dec l 0) as [Hl | Hl]; [ | discriminate Hlong].
    num_eval; reflexivity.
Qed.

Lemma applyAcceleration_local (b : WPhysicsModel) (a : Vector2) :
  WPhysicsModel.local (WPhysicsModel.applyAcceleration b a)
  = WPhysicsModel.local b.
Proof. reflexivity. Qed.

(** What [solve] does to the positions when the rope is taut. *)
Lemma rope_moves (this : WRope.t) (s : store) :
  (rope_diff this s >? WRope.length this) = true ->
  let r1 := fst (WRope.shares (WPhysicsModel.mass (s (WRope.owner this)))
                              (WPhysicsModel.mass (s (WRope.target this)))) in
  let r2 := snd (WRope.shares (WPhysicsModel.mass (s (WRope.owner this)))
                              (WPhysicsModel.mass (s (WRope.target this)))) in
  position (WRope.solve this s) (WRope.owner this)
  = Vector2.sum (position s (WRope.owner this))
                [Vector2.scale (rope_overshoot this s) r1]
  /\ position (WRope.solve this s) (WRope.target this)
     = Vector2.sum (position s (WRope.target this))
                   [Vector2.scale (rope_overshoot this s) (- r2)].
Proof.
  intros Hlong r1 r2.
  unfold WRope.solve.
  fold (global_position s (WRope.target this))
       (global_position s (WRope.owner this)).
  fold (rope_dir this s). fold (rope_diff this s).
  rewrite Hlong. fold (rope_overshoot this s).
  destruct (WRope.shares _ _) as [q1 q2] eqn:Hq. cbn [fst snd] in r1, r2.
  subst r1 r2. unfold position.
  destruct (Nat.eq_dec (WRope.owner this) (WRope.target this)) as [Heq | Hne].
  - rewrite (rope_overshoot_self this s Heq Hlong), !scale_NaN.
    rewrite Heq, !call_same, !applyAcceleration_local, !move_position.
    rewrite !sum_NaN. split; reflexivity.
  - split.
    + rewrite (call_other _ (WRope.target this)) by exact Hne.
      rewrite call_same, applyAcceleration_local.
      rewrite (call_other _ (WRope.target this)) by exact Hne.
      rewrite call_same, move_position. reflexivity.
    + rewrite call_same, applyAcceleration_local.
      rewrite (call_other _ (WRope.owner this)) by (apply not_eq_sym, Hne).
      rewrite call_same, move_position.
      rewrite (call_other _ (WRope.owner this)) by (apply not_eq_sym, Hne).
      reflexivity.
Qed.

(** After [updateLocation] the global transform carries the translation
    of the local one. *)
Lemma updateLocation_syncs_global (b : WPhysicsModel) (dt : num) :
  WTransformMatrix3.get_t
    (WPhysicsModel.global (WPhysicsModel.updateLocation b dt))
  = WTransformMatrix3.get_t
      (WPhysicsModel.local (WPhysicsModel.updateLocation b dt)).
Proof. reflexivity. Qed.

(** The bodies of the scenes: where they are and what they weigh. *)
Lemma body_position (x y : R) (m : num) :
  Num.truthy m = true ->
  WTransformMatrix3.get_t (WPhysicsModel.local (Scene.body x y m))
  = Vector2.mk (Fin x) (Fin y).
Proof.
  intros Hm. unfold Scene.body.
  rewrite new_is_built by (exact Hm || reflexivity).
  rewrite built_position by reflexivity. reflexivity.
Qed.

Lemma body_global_position (x y : R) (m : num) :
  Num.truthy m = true ->
  WTransformMatrix3.get_t (WPhysicsModel.global (Scene.body x y m))
  = Vector2.mk (Fin x) (Fin y).
Proof.
  intros Hm. rewrite <- (body_position x y m Hm).
  apply (updateLocation_syncs_global _ Num.zero).
Qed.

Lemma body_mass (x y : R) (m : num) :
  WPhysicsModel.mass (Scene.body x y m) = m.
Proof. reflexivity. Qed.

Lemma truthy_one : Num.truthy Num.one = true.
Proof. num_eval; reflexivity. Qed.

(** Two bodies 9 apart along the x-axis, joined by a rope of length 5: the
    overshoot is the vector (4, 0). *)
Lemma scene_overshoot (x y : R) (m1 m2 bounce : num) :
  Num.truthy m1 = true -> Num.truthy m2 = true ->
  let s := Scene.two (Scene.body x y m1) (Scene.body (x + 9) y m2) in
  let rope := WRope.mk 0 1 (Fin 5) bounce in
  (rope_diff rope s >? WRope.length rope) = true
  /\ rope_overshoot rope s = Vector2.mk (Fin 4) (Fin 0).
Proof.
  intros H1 H2 s rope.
  assert (Hdir : rope_dir rope s = Vector2.mk (Fin 9) (Fin 0)).
  { unfold rope_dir, global_position, s, rope, Scene.two; cbn [WRope.owner
      WRope.target Nat.eqb].
    rewrite !body_global_position by assumption.
    unfold Vector2.dif, Vector2.vec2; cbn. f_equal; f_equal; ring. }
  assert (Hdiff : rope_diff rope s = Fin 9).
  { unfold rope_diff. rewrite Hdir. unfold Vector2.size; cbn. f_equal.
    replace (9 * 9 + 0 * 0)%R with (9 * 9)%R by ring.
    apply sqrt_square. lra. }
  unfold rope_overshoot. rewrite Hdiff, Hdir. split.
  - num_eval; reflexivity.
  - num_eval; fin_eq.
Qed.

Lemma sum_finite (a b c d : R) :
  Vector2.sum (Vector2.mk (Fin a) (Fin b)) [Vector2.mk (Fin c) (Fin d)]
  = Vector2.mk (Fin (a + c)) (Fin (b + d)).
Proof. reflexivity. Qed.

(** The scenario of the specification: masses [m1] and [m2], the bodies 9
    apart along the x-axis, a rope of length 5. *)
Lemma scene_rope (x y : R) (m1 m2 bounce : num) :
  Num.truthy m1 = true -> Num.truthy m2 = true ->
  let s := Scene.two (Scene.body x y m1) (Scene.body (x + 9) y m2) in
  let s' := WRope.solve (WRope.mk 0 1 (Fin 5) bounce) s in
  position s' 0%nat
  = Vector2.sum (Vector2.mk (Fin x) (Fin y))
                [Vector2.scale (Vector2.mk (Fin 4) (Fin 0))
                               (fst (WRope.shares m1 m2))]
  /\ position s' 1%nat
     = Vector2.sum (Vector2.mk (Fin (x + 9)) (Fin y))
                   [Vector2.scale (Vector2.mk (Fin 4) (Fin 0))
                                  (- snd (WRope.shares m1 m2))].
Proof.
  intros H1 H2 s s'.
  destruct (scene_overshoot x y m1 m2 bounce H1 H2) as [Hlong Hover].
  destruct (rope_moves (WRope.mk 0 1 (Fin 5) bounce) s Hlong) as [Ho Ht].
  fold s in Hover. rewrite Hover in Ho, Ht.
  cbn [WRope.owner WRope.target] in Ho, Ht.
  subst s'. rewrite Ho, Ht. unfold position, s, Scene.two; cbn [Nat.eqb].
  rewrite !body_position, !body_mass by assumption.
  split; reflexivity.
Qed.

(** C1.  When the global translations of owner and target are [diff] apart
    and [diff] exceeds the rope length, [solve] moves the owner by the
    fraction [(diff - length) / diff] of the connecting vector times [r1],
    and the target by that fraction times [r2] the other way, [r1] and [r2]
    being the mass shares of the specification.  In particular, for two
    bodies 9 apart along the x-axis and a rope of length 5: with masses 1
    and 1 each body moves 2 units towards the other and they end 5 apart;
    with an owner of infinite mass the owner stays and the target moves the
    whole 4 units. *)
Theorem rope_splits_overshoot :
  (forall (this : WRope.t) (s : store),
      (rope_diff this s >? WRope.length this) = true ->
      exists r1 r2 : num,
        mass_shares (WPhysicsModel.mass (s (WRope.owner this)))
                    (WPhysicsModel.mass (s (WRope.target this))) r1 r2
        /\ position (WRope.solve this s) (WRope.owner this)
           = Vector2.sum (position s (WRope.owner this))
                         [Vector2.scale (rope_overshoot this s) r1]
        /\ position (WRope.solve this s) (WRope.target this)
           = Vector2.sum (position s (WRope.target this))
                         [Vector2.scale (rope_overshoot this s) (- r2)])
  /\ (forall (x y : R) (bounce : num),
         let s :=
           Scene.two (Scene.body x y (Fin 1)) (Scene.body (x + 9) y (Fin 1)) in
         let s' := WRope.solve (WRope.mk 0 1 (Fin 5) bounce) s in
         position s 0%nat = Vector2.mk (Fin x) (Fin y)
         /\ position s 1%nat = Vector2.mk (Fin (x + 9)) (Fin y)
         /\ position s' 0%nat = Vector2.mk (Fin (x + 2)) (Fin y)
         /\ position s' 1%nat = Vector2.mk (Fin (x + 7)) (Fin y)
         /\ Vector2.size (Vector2.dif (position s' 1%nat) (position s' 0%nat))
            = Fin 5)
  /\ (forall (x y : R) (bounce : num),
         let s :=
           Scene.two (Scene.body x y PInf) (Scene.body (x + 9) y (Fin 1)) in
         let s' := WRope.solve (WRope.mk 0 1 (Fin 5) bounce) s in
         position s 0%nat = Vector2.mk (Fin x) (Fin y)
         /\ position s 1%nat = Vector2.mk (Fin (x + 9)) (Fin y)
         /\ position s' 0%nat = Vector2.mk (Fin x) (Fin y)
         /\ position s' 1%nat = Vector2.mk (Fin (x + 5)) (Fin y)).
Proof.
  split; [ | split].
  - intros this s Hlong.
    destruct (rope_moves this s Hlong) as [Ho Ht].
    eexists. eexists. split; [apply shares_spec | split; eassumption].
  - intros x y bounce s s'.
    destruct (scene_rope x y (Fin 1) (Fin 1) bounce truthy_one truthy_one)
      as [Ho Ht].
    fold s in Ho, Ht. fold s' in Ho, Ht.
    assert (Eo : position s' 0%nat = Vector2.mk (Fin (x + 2)) (Fin y)).
    { rewrite Ho. num_eval; fin_eq. }
    assert (Et : position s' 1%nat = Vector2.mk (Fin (x + 7)) (Fin y)).
    { rewrite Ht. num_eval; fin_eq. }
    conj_split; trivial.
    + apply (body_position x y (Fin 1) truthy_one).
    + apply (body_position (x + 9) y (Fin 1) truthy_one).
    + rewrite Eo, Et. unfold Vector2.size, Vector2.dif, Vector2.vec2; cbn.
      f_equal.
      replace ((x + 7 + - (x + 2)) * (x + 7 + - (x + 2))
               + (y + - y) * (y + - y))%R with (5 * 5)%R by ring.
      apply sqrt_square. lra.
  - intros x y bounce s s'.
    destruct (scene_rope x y PInf (Fin 1) bounce eq_refl truthy_one)
      as [Ho Ht].
    fold s in Ho, Ht. fold s' in Ho, Ht.
    conj_split.
    + apply (body_position x y PInf eq_refl).
    + apply (body_position (x + 9) y (Fin 1) truthy_one).
    + rewrite Ho. num_eval; fin_eq.
    + rewrite Ht. num_eval; fin_eq.
Qed.

(** The general part of the theorem at two bodies of infinite mass, 9 apart
    and joined by a rope of length 5: neither moves. *)
Lemma rope_splits_overshoot_witness :
  position
    (WRope.solve (WRope.mk 0 1 (Fin 5) (Fin 1))
                 (Scene.two (Scene.body 0 0 PInf) (Scene.body (0 + 9) 0 PInf)))
    0%nat
  = Vector2.mk (Fin 0) (Fin 0)
  /\ position
       (WRope.solve (WRope.mk 0 1 (Fin 5) (Fin 1))
                    (Scene.two (Scene.body 0 0 PInf)
                               (Scene.body (0 + 9) 0 PInf)))
       1%nat
     = Vector2.mk (Fin 9) (Fin 0).
Proof.
  destruct (scene_overshoot 0 0 PInf PInf (Fin 1) eq_refl eq_refl)
    as [Hlong Hover].
  destruct (proj1 rope_splits_overshoot _ _ Hlong)
    as [r1 [r2 [Hshares [Ho Ht]]]].
  cbn [WRope.owner WRope.target] in Ho, Ht, Hshares.
  rewrite Ho, Ht, Hover.
  unfold position, Scene.two in *; cbn [Nat.eqb] in *.
  rewrite !body_position by reflexivity.
  rewrite !body_mass in Hshares.
  inversion Hshares; subst; try discriminate.
  split; num_eval; fin_eq.
Defined.

(** ** WSpring.solve *)

Lemma sub_self (a : num) : zero_or_NaN (a - a).
Proof.
  destruct a; cbn; [left | left | left | right]; try reflexivity.
  f_equal; ring.
Qed.

Lemma zero_or_NaN_mul (c q : num) : zero_or_NaN c -> zero_or_NaN (c * q).
Proof.
  intros [-> | ->]; [left; reflexivity | ].
  destruct q as [ | | | r]; unfold zero_or_NaN; cbn; unfold Num.inf_times.
  - left; reflexivity.
  - left. sign_cases; try reflexivity; exfalso; lra.
  - left. sign_cases; try reflexivity; exfalso; lra.
  - right. f_equal; ring.
Qed.

Lemma zero_or_NaN_absorbed (f c : num) :
  zero_or_NaN c -> f + - c + c = f + c /\ f + - c + c = f + - c.
Proof.
  intros [-> | ->]; destruct f; cbn; split; try reflexivity; f_equal; ring.
Qed.

(** Between a body and itself the spring force has components that are
    zero or NaN. *)
Lemma spring_force_self (this : WSpring.t) (s : store) :
  WSpring.owner this = WSpring.target this ->
  zero_or_NaN (Vector2.x (spring_force this s))
  /\ zero_or_NaN (Vector2.y (spring_force this s)).
Proof.
  intros Halias. unfold spring_force.
  set (q := _ / _). clearbody q.
  unfold spring_diff. rewrite Halias.
  destruct (global_position s (WSpring.target this)) as [gx gy].
  unfold Vector2.scale, Vector2.dif, Vector2.vec2; cbn [Vector2.x Vector2.y
    NumExtra.default].
  split; apply zero_or_NaN_mul, sub_self.
Qed.

Lemma applyForce_force (b : WPhysicsModel) (f : Vector2) :
  WPhysicsModel.force (WPhysicsModel.applyForce b f)
  = Vector2.add (WPhysicsModel.force b) [f].
Proof. reflexivity. Qed.

(** What [solve] does to the forces. *)
Lemma spring_effect (this : WSpring.t) (s : store) :
  WPhysicsModel.force (WSpring.solve this s (WSpring.target this))
  = Vector2.add (WPhysicsModel.force (s (WSpring.target this)))
                [spring_force this s]
  /\ WPhysicsModel.force (WSpring.solve this s (WSpring.owner this))
     = Vector2.add (WPhysicsModel.force (s (WSpring.owner this)))
                   [Vector2.neg (spring_force this s)].
Proof.
  unfold WSpring.solve.
  fold (global_position s (WSpring.target this))
       (global_position s (WSpring.owner this)).
  fold (spring_diff this s). fold (spring_dl this s).
  fold (spring_force this s).
  destruct (Nat.eq_dec (WSpring.owner this) (WSpring.target this))
    as [Heq | Hne].
  - destruct (spring_force_self this s Heq) as [Hx Hy].
    rewrite Heq, !call_same, !applyForce_force.
    destruct (spring_force this s) as [fx fy].
    destruct (WPhysicsModel.force (s (WSpring.target this))) as [ax ay].
    cbn [Vector2.x Vector2.y] in Hx, Hy.
    destruct (zero_or_NaN_absorbed ax fx Hx) as [Hx1 Hx2].
    destruct (zero_or_NaN_absorbed ay fy Hy) as [Hy1 Hy2].
    unfold Vector2.neg, Vector2.vec2; cbn.
    rewrite Hx1, Hy1. split; [reflexivity | ].
    rewrite <- Hx1, <- Hy1, Hx2, Hy2. reflexivity.
  - split.
    + rewrite call_same, applyForce_force.
      rewrite (call_other _ (WSpring.owner this)) by (apply not_eq_sym, Hne).
      reflexivity.
    + rewrite (call_other _ (WSpring.target this)) by exact Hne.
      rewrite call_same, applyForce_force. reflexivity.
Qed.

(** A vector of finite length has finite components, and only the null
    vector has length zero. *)
Lemma size_finite (v : Vector2) (r : R) :
  Vector2.size v = Fin r ->
  exists a b : R,
    v = Vector2.mk (Fin a) (Fin b) /\ r = R_sqrt.sqrt (a * a + b * b).
Proof.
  destruct v as [[ | | | a] [ | | | b]]; cbn; try discriminate.
  intros H. injection H as <-. eauto.
Qed.

Lemma size_zero (v : Vector2) :
  Vector2.size v = Fin 0 -> v = Vector2.mk (Fin 0) (Fin 0).
Proof.
  intros H. destruct (size_finite v 0 H) as [a [b [-> Hab]]].
  symmetry in Hab. apply sqrt_eq_0 in Hab; [ | nra].
  assert (a = 0)%R by nra. assert (b = 0)%R by nra. subst. reflexivity.
Qed.

Lemma add_null (f : Vector2) :
  Vector2.add f [Vector2.mk (Fin 0) (Fin 0)] = f.
Proof.
  destruct f as [fx fy]. cbn. change (Fin 0) with Num.zero.
  rewrite (NumFacts.add_0_r fx), (NumFacts.add_0_r fy). reflexivity.
Qed.

Lemma neg_null :
  Vector2.neg (Vector2.mk (Fin 0) (Fin 0)) = Vector2.mk (Fin 0) (Fin 0).
Proof. unfold Vector2.neg, Vector2.vec2; cbn. fin_eq. Qed.

(** Where the length is not zero the guard [dl || Infinity] is [dl]
    (or, for a NaN length, changes nothing: both quotients are NaN). *)
Lemma spring_force_formula (this : WSpring.t) (s : store) :
  spring_dl this s <> Fin 0 ->
  spring_force this s
  = Vector2.scale (spring_diff this s)
      ((WSpring.ks this * (spring_dl this s - WSpring.L0 this))
       / spring_dl this s).
Proof.
  intros Hdl. unfold spring_force. f_equal.
  destruct (spring_dl this s) as [ | | | r]; try reflexivity.
  - destruct (WSpring.ks this), (WSpring.L0 this); reflexivity.
  - unfold Num.or_else; cbn. destruct (Req_dec_T r 0) as [-> | _];
      [congruence | reflexivity].
Qed.

(** At length zero the quotient is taken by Infinity: the force is null when
    the magnitude [f] is finite, and (NaN, NaN) when it is not. *)
Lemma spring_force_at_zero (this : WSpring.t) (s : store) :
  spring_dl this s = Fin 0 ->
  (Num.isFinite (WSpring.ks this * (spring_dl this s - WSpring.L0 this)) = true ->
   spring_force this s = Vector2.mk (Fin 0) (Fin 0))
  /\ (Num.isFinite (WSpring.ks this * (spring_dl this s - WSpring.L0 this))
      = false ->
      spring_force this s = Vector2.mk NaN NaN).
Proof.
  intros Hdl. unfold spring_force. rewrite Hdl.
  unfold spring_dl in Hdl. rewrite (size_zero _ Hdl).
  destruct (WSpring.ks this * (Fin 0 - WSpring.L0 this)) as [ | | | f];
    split; intros Hf; try discriminate Hf; num_eval; fin_eq.
Qed.

(** At the rest length the force is null. *)
Lemma spring_force_at_rest (o t : ref) (L0 ks : R) (s : store) :
  let this := WSpring.mk o t (Fin L0) (Fin ks) in
  spring_dl this s = Fin L0 ->
  spring_force this s = Vector2.mk (Fin 0) (Fin 0).
Proof.
  intros this Hdl. unfold spring_force. rewrite Hdl.
  unfold spring_dl in Hdl.
  destruct (size_finite _ _ Hdl) as [a [b [-> _]]].
  unfold this, Num.or_else; cbn.
  unfold Vector2.scale, Vector2.vec2; cbn.
  destruct (Req_dec_T L0 0) as [-> | Hne]; cbn.
  - fin_eq.
  - destruct (Req_dec_T L0 0) as [E | _]; [contradiction | ].
    cbn. apply f_equal2; apply (f_equal Fin); field; exact Hne.
Qed.

(** C2, as amended.  For every spring, owner and target, with
    [diff = owner.global.t - target.global.t], [dl = |diff|] and the
    magnitude [f = ks * (dl - L0)] that [solve] computes: [solve] adds a
    force [F] to the target's force and its negation to the owner's, where
    [F = diff * (f / dl)] when [dl] is not 0; when [dl] is 0, [F] is the
    null vector if [f] is finite and (NaN, NaN) if it is not; and when
    [ks] and [L0] are finite and [dl = L0], the force and its negation are
    null and the forces on both bodies stay as they were. *)
Theorem spring_applies_hooke (this : WSpring.t) (s : store) :
  let o := WSpring.owner this in
  let t := WSpring.target this in
  let diff :=
    Vector2.dif (WTransformMatrix3.get_t (WPhysicsModel.global (s o)))
                (WTransformMatrix3.get_t (WPhysicsModel.global (s t))) in
  let dl := Vector2.size diff in
  let f := WSpring.ks this * (dl - WSpring.L0 this) in
  exists F : Vector2,
    WPhysicsModel.force (WSpring.solve this s t)
    = Vector2.add (WPhysicsModel.force (s t)) [F]
    /\ WPhysicsModel.force (WSpring.solve this s o)
       = Vector2.add (WPhysicsModel.force (s o)) [Vector2.neg F]
    /\ (dl <> Fin 0 -> F = Vector2.scale diff (f / dl))
    /\ (dl = Fin 0 ->
        (Num.isFinite f = true -> F = Vector2.mk (Fin 0) (Fin 0))
        /\ (Num.isFinite f = false -> F = Vector2.mk NaN NaN))
    /\ (Num.isFinite (WSpring.ks this) = true ->
        Num.isFinite (WSpring.L0 this) = true ->
        dl = WSpring.L0 this ->
        F = Vector2.mk (Fin 0) (Fin 0)
        /\ Vector2.neg F = Vector2.mk (Fin 0) (Fin 0)
        /\ WPhysicsModel.force (WSpring.solve this s t)
           = WPhysicsModel.force (s t)
        /\ WPhysicsModel.force (WSpring.solve this s o)
           = WPhysicsModel.force (s o)).
Proof.
  intros o t diff dl f.
  destruct (spring_effect this s) as [Ht Ho].
  subst o t diff dl f.
  exists (spring_force this s).
  split; [exact Ht | split; [exact Ho | split; [ | split]]].
  - apply (spring_force_formula this s).
  - apply (spring_force_at_zero this s).
  - intros Hks HL0.
    destruct (NumFacts.isFinite_Fin _ Hks) as [k Ek].
    destruct (NumFacts.isFinite_Fin _ HL0) as [l El].
    destruct this as [o t L0 ks]. cbn [WSpring.ks WSpring.L0] in Ek, El.
    subst ks L0. cbn [WSpring.owner WSpring.target WSpring.L0] in *.
    intros Hrest.
    pose proof (spring_force_at_rest o t l k s Hrest) as HF.
    cbv zeta in HF. rewrite Ht, Ho, HF, neg_null, !add_null.
    conj_split; reflexivity.
Qed.

Lemma spring_force_unfold (this : WSpring.t) (s : store) :
  spring_force this s
  = Vector2.scale
      (Vector2.dif (global_position s (WSpring.owner this))
                   (global_position s (WSpring.target this)))
      ((WSpring.ks this
        * (Vector2.size
             (Vector2.dif (global_position s (WSpring.owner this))
                          (global_position s (WSpring.target this)))
           - WSpring.L0 this))
       / Num.or_else
           (Vector2.size
              (Vector2.dif (global_position s (WSpring.owner this))
                           (global_position s (WSpring.target this))))
           PInf).
Proof. reflexivity. Qed.

(** The vector from a target built at [(x2, 0)] to an owner built at the
    origin, and its length. *)
Lemma scene_spring_diff (x2 : R) :
  (0 <= x2)%R ->
  let s := Scene.two (Scene.body 0 0 (Fin 1)) (Scene.body x2 0 (Fin 1)) in
  Vector2.dif (global_position s 0%nat) (global_position s 1%nat)
  = Vector2.mk (Fin (- x2)) (Fin 0)
  /\ Vector2.size (Vector2.dif (global_position s 0%nat)
                               (global_position s 1%nat))
     = Fin x2.
Proof.
  intros Hx s.
  assert (Hd : Vector2.dif (global_position s 0%nat) (global_position s 1%nat)
               = Vector2.mk (Fin (- x2)) (Fin 0)).
  { unfold s. rewrite !global_position_unfold, two_first, two_second.
    rewrite !body_global_position by exact truthy_one.
    unfold Vector2.dif, Vector2.vec2; cbn. fin_eq. }
  split; [exact Hd | ].
  rewrite Hd. unfold Vector2.size; cbn. f_equal.
  replace (- x2 * - x2 + 0 * 0)%R with (x2 * x2)%R by ring.
  apply sqrt_square, Hx.
Qed.

Lemma body_force (x y : R) (m : num) :
  WPhysicsModel.force (Scene.body x y m) = Vector2.mk (Fin 0) (Fin 0).
Proof. reflexivity. Qed.

(** The theorem at three scenes of a spring with [L0 = 10] and [ks = 2]:
    two bodies 20 apart, which it pulls together with the forces (-20, 0)
    on the target and (20, 0) on the owner; two bodies exactly 10 apart, as in
    the specification, whose forces are left as they were; and two bodies
    at the same place, on which the force is null. *)
Lemma spring_applies_hooke_witness :
  (WPhysicsModel.force
     (WSpring.solve (WSpring.mk 0 1 (Fin 10) (Fin 2))
                    (Scene.two (Scene.body 0 0 (Fin 1))
                               (Scene.body 20 0 (Fin 1)))
                    1%nat)
   = Vector2.mk (Fin (- 20)) (Fin 0)
   /\ WPhysicsModel.force
        (WSpring.solve (WSpring.mk 0 1 (Fin 10) (Fin 2))
                       (Scene.two (Scene.body 0 0 (Fin 1))
                                  (Scene.body 20 0 (Fin 1)))
                       0%nat)
      = Vector2.mk (Fin 20) (Fin 0))
  /\ (WPhysicsModel.force
        (WSpring.solve (WSpring.mk 0 1 (Fin 10) (Fin 2))
                       (Scene.two (Scene.body 0 0 (Fin 1))
                                  (Scene.body 10 0 (Fin 1)))
                       1%nat)
      = WPhysicsModel.force
          (Scene.two (Scene.body 0 0 (Fin 1)) (Scene.body 10 0 (Fin 1)) 1%nat)
      /\ WPhysicsModel.force
           (WSpring.solve (WSpring.mk 0 1 (Fin 10) (Fin 2))
                          (Scene.two (Scene.body 0 0 (Fin 1))
                                     (Scene.body 10 0 (Fin 1)))
                          0%nat)
         = WPhysicsModel.force
             (Scene.two (Scene.body 0 0 (Fin 1)) (Scene.body 10 0 (Fin 1))
                        0%nat))
  /\ WPhysicsModel.force
       (WSpring.solve (WSpring.mk 0 1 (Fin 10) (Fin 2))
                      (Scene.two (Scene.body 0 0 (Fin 1))
                                 (Scene.body 0 0 (Fin 1)))
                      1%nat)
     = Vector2.mk (Fin 0) (Fin 0).
Proof.
  split; [ | split].
  - destruct (spring_applies_hooke
                (WSpring.mk 0 1 (Fin 10) (Fin 2))
                (Scene.two (Scene.body 0 0 (Fin 1))
                           (Scene.body 20 0 (Fin 1))))
      as [F [Ht [Ho [Hformula _]]]].
    destruct (scene_spring_diff 20) as [Hd Hs]; [lra | ].
    unfold global_position in Hd, Hs.
    cbn [WSpring.owner WSpring.target WSpring.ks WSpring.L0]
      in Ht, Ho, Hformula.
    rewrite Hs, Hd in Hformula.
    rewrite Ht, Ho, Hformula by (intros H; injection H; lra).
    rewrite two_first, two_second, !body_force.
    split; num_eval; fin_eq.
  - destruct (spring_applies_hooke
                (WSpring.mk 0 1 (Fin 10) (Fin 2))
                (Scene.two (Scene.body 0 0 (Fin 1))
                           (Scene.body 10 0 (Fin 1))))
      as [F [_ [_ [_ [_ Hrest]]]]].
    destruct (Hrest eq_refl eq_refl) as [_ [_ [Ht Ho]]].
    + apply (scene_spring_diff 10). lra.
    + split; [exact Ht | exact Ho].
  - destruct (spring_applies_hooke
                (WSpring.mk 0 1 (Fin 10) (Fin 2))
                (Scene.two (Scene.body 0 0 (Fin 1))
                           (Scene.body 0 0 (Fin 1))))
      as [F [Ht [_ [_ [Hzero _]]]]].
    destruct (scene_spring_diff 0 (Rle_refl 0)) as [Hd Hs].
    unfold global_position in Hd, Hs.
    cbn [WSpring.owner WSpring.target WSpring.ks WSpring.L0] in Ht, Hzero.
    destruct (Hzero Hs) as [Hfinite _].
    rewrite Hs in Hfinite.
    rewrite Ht, Hfinite by reflexivity.
    rewrite two_second, body_force. num_eval; fin_eq.
Defined.

(** C2 fails for a spring of infinite stiffness [ks] and rest length 10.
    Between two bodies at the same place, [dl = 0] and the force on the
    target, (0, 0) before, is (NaN, NaN) after [solve]:
    [f = Infinity * (0 - 10)] and [f / Infinity] is NaN.  Between two
    bodies 10 apart, [dl = L0] and the force on the target becomes
    (NaN, NaN) as well: [f = Infinity * 0]. *)
Lemma spring_of_infinite_stiffness :
  (Vector2.size
     (Vector2.dif
        (global_position
           (Scene.two (Scene.body 0 0 (Fin 1)) (Scene.body 0 0 (Fin 1)))
           0%nat)
        (global_position
           (Scene.two (Scene.body 0 0 (Fin 1)) (Scene.body 0 0 (Fin 1)))
           1%nat))
   = Fin 0
   /\ WPhysicsModel.force
        (WSpring.solve (WSpring.mk 0 1 (Fin 10) PInf)
                       (Scene.two (Scene.body 0 0 (Fin 1))
                                  (Scene.body 0 0 (Fin 1)))
                       1%nat)
      = Vector2.mk NaN NaN)
  /\ (Vector2.size
        (Vector2.dif
           (global_position
              (Scene.two (Scene.body 0 0 (Fin 1)) (Scene.body 10 0 (Fin 1)))
              0%nat)
           (global_position
              (Scene.two (Scene.body 0 0 (Fin 1)) (Scene.body 10 0 (Fin 1)))
              1%nat))
      = Fin 10
      /\ WPhysicsModel.force
           (WSpring.solve (WSpring.mk 0 1 (Fin 10) PInf)
                          (Scene.two (Scene.body 0 0 (Fin 1))
                                     (Scene.body 10 0 (Fin 1)))
                          1%nat)
         = Vector2.mk NaN NaN).
Proof.
  assert (Hforce : forall x : R,
             WPhysicsModel.force (Scene.body x 0 (Fin 1))
             = Vector2.mk (Fin 0) (Fin 0)) by reflexivity.
  destruct (scene_spring_diff 0 (Rle_refl 0)) as [Hd0 Hs0].
  destruct (scene_spring_diff 10) as [Hd10 Hs10]; [lra | ].
  split; split.
  - exact Hs0.
  - destruct (spring_effect
                (WSpring.mk 0 1 (Fin 10) PInf)
                (Scene.two (Scene.body 0 0 (Fin 1)) (Scene.body 0 0 (Fin 1))))
      as [Ht _].
    cbn [WSpring.target] in Ht. rewrite Ht, spring_force_unfold.
    cbn [WSpring.owner WSpring.target WSpring.ks WSpring.L0].
    rewrite Hs0, Hd0, two_second, Hforce.
    num_eval; reflexivity.
  - exact Hs10.
  - destruct (spring_effect
                (WSpring.mk 0 1 (Fin 10) PInf)
                (Scene.two (Scene.body 0 0 (Fin 1))
                           (Scene.body 10 0 (Fin 1))))
      as [Ht _].
    cbn [WSpring.target] in Ht. rewrite Ht, spring_force_unfold.
    cbn [WSpring.owner WSpring.target WSpring.ks WSpring.L0].
    rewrite Hs10, Hd10, two_second, Hforce.
    num_eval; reflexivity.
Qed.

(** ** LimitDistanceConstraint.solve *)

Lemma one_over_finite (r : R) : r <> 0%R -> Num.one / Fin r = Fin (1 / r).
Proof.
  intros Hr. unfold Num.one; cbn.
  destruct (Req_dec_T r 0); [contradiction | reflexivity].
Qed.

(** Scaling by [diff / dist] is scaling the unit vector by [diff]. *)
Lemma scale_by_quotient (a r : R) (D : num) :
  (0 < r)%R ->
  Fin a * ((Fin r - D) / Fin r) = Fin a * (Num.one / Fin r) * (Fin r - D).
Proof.
  intros Hr.
  assert (Hinv : (0 < 1 / r)%R) by (apply Rdiv_lt_0_compat; lra).
  rewrite one_over_finite by lra.
  destruct D as [ | | | d]; num_unfold.
  - reflexivity.
  - destruct (Rlt_dec r 0); [exfalso; lra | ].
    destruct (Rlt_dec 0 a), (Rlt_dec a 0), (Rlt_dec 0 (a * (1 / r))),
      (Rlt_dec (a * (1 / r)) 0); try reflexivity; exfalso; nra.
  - destruct (Rlt_dec r 0); [exfalso; lra | ].
    destruct (Rlt_dec 0 a), (Rlt_dec a 0), (Rlt_dec 0 (a * (1 / r))),
      (Rlt_dec (a * (1 / r)) 0); try reflexivity; exfalso; nra.
  - destruct (Req_dec_T r 0); [exfalso; lra | ].
    f_equal. field. lra.
Qed.

Lemma norm_by_size (v : Vector2) :
  Vector2.norm v = Vector2.scale v (Num.one / Vector2.size v).
Proof. reflexivity. Qed.

(** The normalised vector has length 1 when the vector has a finite,
    non-zero length. *)
Lemma norm_is_unit (v : Vector2) (r : R) :
  Vector2.size v = Fin r -> r <> 0%R -> Vector2.size (Vector2.norm v) = Fin 1.
Proof.
  intros Hsize Hr.
  destruct (size_finite v r Hsize) as [a [b [-> Hab]]].
  assert (Hpos : (0 < r)%R).
  { pose proof (sqrt_pos (a * a + b * b)). lra. }
  assert (Hsq : (r * r = a * a + b * b)%R).
  { rewrite Hab. apply sqrt_sqrt. nra. }
  unfold Vector2.norm, Vector2.length, Vector2.scale, Vector2.vec2.
  cbn [Vector2.x Vector2.y Num.hypot NumExtra.default].
  rewrite <- Hab. unfold Num.one; cbn.
  destruct (Req_dec_T r 0); [contradiction | ]. cbn. f_equal.
  replace (a * (1 / r) * (a * (1 / r)) + b * (1 / r) * (b * (1 / r)))%R
    with 1%R.
  - apply sqrt_1.
  - replace (a * (1 / r) * (a * (1 / r)) + b * (1 / r) * (b * (1 / r)))%R
      with ((a * a + b * b) / (r * r))%R by (field; lra).
    rewrite <- Hsq. field. lra.
Qed.

(** What [solve] writes when the region is breached. *)
Lemma limit_distance_breached (this : LimitDistanceConstraint.t) (s : store) :
  LimitDistanceConstraint.breached
    (LimitDistanceConstraint.clampRegion this) (limit_violation this s)
  = true ->
  global_position (LimitDistanceConstraint.solve this s)
                  (LimitDistanceConstraint.owner this)
  = Vector2.sum
      (Vector2.scale (limit_dir this s)
                     (limit_violation this s / limit_dist this s))
      [global_position s (LimitDistanceConstraint.owner this)].
Proof.
  intros Hb. unfold LimitDistanceConstraint.solve.
  fold (limit_dir this s). fold (limit_dist this s).
  fold (limit_violation this s). rewrite Hb.
  unfold global_position. rewrite call_same. reflexivity.
Qed.

(** Away from the distance zero the code does what the specification says
    of it, in exact arithmetic.  When the signed violation breaches the
    selected region and the resolved owner and target translations are a
    finite, non-zero distance apart, [solve] moves the translation of
    [owner.global] by the violation along the unit vector of the connecting
    direction; when the region is not breached, [solve] changes nothing. *)
Lemma limit_distance_moves_by_violation
        (this : LimitDistanceConstraint.t) (s : store) :
  (forall r : R,
      LimitDistanceConstraint.breached
        (LimitDistanceConstraint.clampRegion this) (limit_violation this s)
      = true ->
      limit_dist this s = Fin r -> r <> 0%R ->
      Vector2.size (Vector2.norm (limit_dir this s)) = Fin 1
      /\ global_position (LimitDistanceConstraint.solve this s)
                         (LimitDistanceConstraint.owner this)
         = Vector2.sum
             (global_position s (LimitDistanceConstraint.owner this))
             [Vector2.scale (Vector2.norm (limit_dir this s))
                            (limit_violation this s)])
  /\ (LimitDistanceConstraint.breached
        (LimitDistanceConstraint.clampRegion this) (limit_violation this s)
      = false ->
      LimitDistanceConstraint.solve this s = s).
Proof.
  split.
  - intros r Hb Hdist Hr.
    split; [apply (norm_is_unit _ r Hdist Hr) | ].
    rewrite (limit_distance_breached this s Hb).
    unfold limit_violation. rewrite Hdist.
    unfold limit_dist in Hdist.
    destruct (size_finite _ _ Hdist) as [a [b [Hdir Hab]]].
    assert (Hpos : (0 < r)%R).
    { pose proof (sqrt_pos (a * a + b * b)). lra. }
    rewrite Hdir.
    destruct (global_position s (LimitDistanceConstraint.owner this))
      as [gx gy].
    unfold Vector2.norm, Vector2.length, Vector2.scale, Vector2.sum,
      Vector2.vec2.
    cbn [Vector2.x Vector2.y Num.hypot NumExtra.default fold_left].
    rewrite <- Hab.
    rewrite !scale_by_quotient by exact Hpos.
    f_equal; apply NumFacts.add_comm.
  - intros Hb. unfold LimitDistanceConstraint.solve.
    fold (limit_dir this s). fold (limit_dist this s).
    fold (limit_violation this s). rewrite Hb. reflexivity.
Qed.

Lemma select_global (b : WPhysicsModel) :
  select "global" b = WPhysicsModel.global b.
Proof. reflexivity. Qed.

Lemma select_local (b : WPhysicsModel) :
  select "local" b = WPhysicsModel.local b.
Proof. reflexivity. Qed.

(** Two bodies built at [(x1, y)] and [(x2, y)], seen by a constraint on
    their global transforms. *)
Lemma scene_limit_dir (x1 x2 y : R) (D : num) (region : string) :
  limit_dir (LimitDistanceConstraint.mk 0 1 D region "global" "global")
            (Scene.two (Scene.body x1 y (Fin 1)) (Scene.body x2 y (Fin 1)))
  = Vector2.mk (Fin (x2 - x1)) (Fin 0).
Proof.
  unfold limit_dir.
  cbn [LimitDistanceConstraint.owner LimitDistanceConstraint.target
       LimitDistanceConstraint.ownerRelativity
       LimitDistanceConstraint.targetRelativity].
  rewrite !select_global. unfold Scene.two; cbn [Nat.eqb].
  rewrite !body_global_position by exact truthy_one.
  unfold Vector2.dif, Vector2.vec2; cbn. fin_eq.
Qed.

Lemma limit_violation_unfold (this : LimitDistanceConstraint.t) (s : store) :
  limit_violation this s
  = limit_dist this s - LimitDistanceConstraint.distance this.
Proof. reflexivity. Qed.

Lemma limit_dist_unfold (this : LimitDistanceConstraint.t) (s : store) :
  limit_dist this s = Vector2.size (limit_dir this s).
Proof. reflexivity. Qed.

Lemma size_along_x (r : R) :
  (0 <= r)%R -> Vector2.size (Vector2.mk (Fin r) (Fin 0)) = Fin r.
Proof.
  intros Hr. unfold Vector2.size; cbn. f_equal.
  replace (r * r + 0 * 0)%R with (r * r)%R by ring.
  apply sqrt_square, Hr.
Qed.

(** A body 9 away from its target and kept inside the distance 5 moves the
    4 units of the violation towards the target. *)
Lemma limit_distance_moves_by_violation_witness :
  global_position
    (LimitDistanceConstraint.solve
       (LimitDistanceConstraint.mk 0 1 (Fin 5) "inside" "global" "global")
       (Scene.two (Scene.body 0 0 (Fin 1)) (Scene.body 9 0 (Fin 1))))
    0%nat
  = Vector2.mk (Fin 4) (Fin 0).
Proof.
  pose proof (scene_limit_dir 0 9 0 (Fin 5) "inside") as Hdir.
  replace (9 - 0)%R with 9%R in Hdir by ring.
  pose proof (limit_dist_unfold
                (LimitDistanceConstraint.mk 0 1 (Fin 5) "inside" "global"
                                            "global")
                (Scene.two (Scene.body 0 0 (Fin 1)) (Scene.body 9 0 (Fin 1))))
    as Hdist.
  rewrite Hdir, size_along_x in Hdist by lra.
  destruct (proj1 (limit_distance_moves_by_violation
                     (LimitDistanceConstraint.mk 0 1 (Fin 5) "inside"
                                                 "global" "global")
                     (Scene.two (Scene.body 0 0 (Fin 1))
                                (Scene.body 9 0 (Fin 1))))
                  9) as [_ Hmove].
  - rewrite limit_violation_unfold, Hdist. num_eval; reflexivity.
  - exact Hdist.
  - lra.
  - cbn [LimitDistanceConstraint.owner] in Hmove. rewrite Hmove.
    rewrite norm_by_size, <- limit_dist_unfold, limit_violation_unfold.
    rewrite Hdist, Hdir, global_position_unfold, two_first.
    rewrite body_global_position by exact truthy_one.
    num_eval; fin_eq.
Defined.

Lemma far_global :
  WTransformMatrix3.get_t (WPhysicsModel.global Scene.far)
  = Vector2.mk PInf (Fin 0).
Proof. reflexivity. Qed.

Lemma limit_dir_unfold (this : LimitDistanceConstraint.t) (s : store) :
  limit_dir this s
  = Vector2.dif
      (WTransformMatrix3.get_t
         (select (LimitDistanceConstraint.targetRelativity this)
                 (s (LimitDistanceConstraint.target this))))
      (WTransformMatrix3.get_t
         (select (LimitDistanceConstraint.ownerRelativity this)
                 (s (LimitDistanceConstraint.owner this)))).
Proof. reflexivity. Qed.

(** What [solve] writes where the resolved translations of owner and target
    coincide, for a distance other than 0 and a region that is breached: the
    quotient [diff / dist] is a division by zero, the null direction times
    the infinite quotient is (NaN, NaN), and so is the translation of
    [owner.global], wherever the owner was. *)
Lemma limit_distance_at_zero_distance
      (this : LimitDistanceConstraint.t) (s : store) (d : R) :
  limit_dir this s = Vector2.mk (Fin 0) (Fin 0) ->
  LimitDistanceConstraint.distance this = Fin d -> d <> 0%R ->
  LimitDistanceConstraint.breached
    (LimitDistanceConstraint.clampRegion this) (limit_violation this s)
  = true ->
  global_position (LimitDistanceConstraint.solve this s)
                  (LimitDistanceConstraint.owner this)
  = Vector2.mk NaN NaN.
Proof.
  intros Hdir Hd Hne Hb.
  rewrite (limit_distance_breached this s Hb).
  rewrite limit_violation_unfold, limit_dist_unfold, Hdir, size_origin, Hd.
  destruct (global_position s (LimitDistanceConstraint.owner this))
    as [gx gy].
  unfold Vector2.scale, Vector2.sum, Vector2.vec2.
  cbn [Vector2.x Vector2.y NumExtra.default fold_left].
  assert (Hq : Fin 0 * ((Fin 0 - Fin d) / Fin 0) = NaN).
  { num_unfold. sign_cases; try reflexivity; exfalso; lra. }
  rewrite Hq. destruct gx, gy; reflexivity.
Qed.

(** C6.  The code misses the claim where owner and target are at the same
    place.  Kept outside the distance 5 of a target at its own place (0, 0),
    the owner has the violation -5 and the region is breached; the
    connecting direction is the null vector, [solve] divides by its length
    with no guard that holds ([t.x ?? 0] lets NaN through), and the
    translation of [owner.global] becomes (NaN, NaN) instead of staying
    where the correction of a null direction leaves it, at (0, 0). *)
Theorem limit_distance_unguarded_at_zero_distance :
  let this :=
    LimitDistanceConstraint.mk 0 1 (Fin 5) "outside" "global" "global" in
  let s := Scene.two (Scene.body 0 0 (Fin 1)) (Scene.body 0 0 (Fin 1)) in
  limit_dir this s = Vector2.mk (Fin 0) (Fin 0)
  /\ limit_violation this s = Fin (- 5)
  /\ LimitDistanceConstraint.breached "outside" (limit_violation this s)
     = true
  /\ global_position s 0%nat = Vector2.mk (Fin 0) (Fin 0)
  /\ global_position (LimitDistanceConstraint.solve this s) 0%nat
     = Vector2.mk NaN NaN.
Proof.
  intros this s.
  assert (Hdir : limit_dir this s = Vector2.mk (Fin 0) (Fin 0)).
  { pose proof (scene_limit_dir 0 0 0 (Fin 5) "outside") as Hdir.
    replace (0 - 0)%R with 0%R in Hdir by ring. exact Hdir. }
  assert (Hv : limit_violation this s = Fin (- 5)).
  { rewrite limit_violation_unfold, limit_dist_unfold, Hdir, size_origin.
    cbn. fin_eq. }
  assert (Hb : LimitDistanceConstraint.breached "outside"
                 (limit_violation this s) = true).
  { rewrite Hv. num_eval; reflexivity. }
  conj_split; trivial.
  - unfold s. rewrite global_position_unfold, two_first.
    apply body_global_position, truthy_one.
  - apply (limit_distance_at_zero_distance this s 5 Hdir eq_refl); [lra | ].
    exact Hb.
Qed.

(** ** LimitLocationConstraint.solve *)

(** What [solve] writes: on each axis, the translation of [owner.global]
    plus the correction of the baseline times the influence. *)
Lemma limit_location_effect (this : LimitLocationConstraint.t) (s : store) :
  global_position (LimitLocationConstraint.solve this s)
                  (LimitLocationConstraint.owner this)
  = Vector2.mk
      (Vector2.x (global_position s (LimitLocationConstraint.owner this))
       + LimitLocationConstraint.correction
           (Vector2.x (LimitLocationConstraint.min this)
            - Vector2.x (baseline this s))
           (Vector2.x (LimitLocationConstraint.max this)
            - Vector2.x (baseline this s))
         * LimitLocationConstraint.influence this)
      (Vector2.y (global_position s (LimitLocationConstraint.owner this))
       + LimitLocationConstraint.correction
           (Vector2.y (LimitLocationConstraint.min this)
            - Vector2.y (baseline this s))
           (Vector2.y (LimitLocationConstraint.max this)
            - Vector2.y (baseline this s))
         * LimitLocationConstraint.influence this).
Proof.
  unfold LimitLocationConstraint.solve, global_position.
  rewrite call_same. reflexivity.
Qed.

(** With a finite baseline, a lower bound that is not +Infinity and an
    upper bound that is not -Infinity, the correction is finite. *)
Lemma correction_finite (a : R) (mn mx : num) :
  mn <> PInf -> mx <> NInf ->
  exists c : R,
    LimitLocationConstraint.correction (mn - Fin a) (mx - Fin a) = Fin c.
Proof.
  intros Hmn Hmx. unfold LimitLocationConstraint.correction.
  destruct mn as [ | | | m], mx as [ | | | n]; try congruence;
    num_unfold; sign_cases; eauto.
Qed.

(** No influence, no move. *)
Lemma no_influence (g : num) (c : R) : g + Fin c * Num.zero = g.
Proof. rewrite NumFacts.fin_mul_0. apply NumFacts.add_0_r. Qed.

(** Full influence on a violated axis: the baseline lands on the bound. *)
Lemma correction_low (a : R) (mn mx : num) :
  (Fin a <? mn) = true -> (mx <? Fin a) = false ->
  Fin a
  + LimitLocationConstraint.correction (mn - Fin a) (mx - Fin a) * Num.one
  = mn.
Proof.
  unfold LimitLocationConstraint.correction.
  destruct mn as [ | | | m], mx as [ | | | n]; num_unfold; sign_cases;
    intros H1 H2; try discriminate; try (exfalso; lra);
    num_eval; fin_eq.
Qed.

Lemma correction_high (a : R) (mn mx : num) :
  (mx <? Fin a) = true -> (Fin a <? mn) = false ->
  Fin a
  + LimitLocationConstraint.correction (mn - Fin a) (mx - Fin a) * Num.one
  = mx.
Proof.
  unfold LimitLocationConstraint.correction.
  destruct mn as [ | | | m], mx as [ | | | n]; num_unfold; sign_cases;
    intros H1 H2; try discriminate; try (exfalso; lra);
    num_eval; fin_eq.
Qed.

Lemma correction_inside (a : R) (mn mx : num) :
  (Fin a <? mn) = false -> (mx <? Fin a) = false ->
  Fin a
  + LimitLocationConstraint.correction (mn - Fin a) (mx - Fin a) * Num.one
  = Fin a.
Proof.
  unfold LimitLocationConstraint.correction.
  destruct mn as [ | | | m], mx as [ | | | n]; num_unfold; sign_cases;
    intros H1 H2; try discriminate; try (exfalso; lra);
    num_eval; fin_eq.
Qed.

(** The three cases of a full clamp on one axis. *)
Lemma clamped_axis_full (a : R) (mn mx : num) :
  clamped_axis
    (Fin a) mn mx
    (Fin a
     + LimitLocationConstraint.correction (mn - Fin a) (mx - Fin a)
       * Num.one).
Proof.
  unfold clamped_axis. conj_split; intros H1 H2.
  - apply correction_low; assumption.
  - apply correction_high; assumption.
  - apply correction_inside; assumption.
Qed.

(** No influence, no move, when the correction is finite. *)
Lemma no_influence_finite (g c : num) :
  Num.isFinite c = true -> g + c * Num.zero = g.
Proof.
  intros Hc. destruct (NumFacts.isFinite_Fin _ Hc) as [r ->].
  apply no_influence.
Qed.

(** Full influence on one axis, as [solve] computes it. *)
Lemma moved_axis_full (a mn mx g : num) :
  moved_axis a mn mx g
    (g + LimitLocationConstraint.correction (mn - a) (mx - a) * Num.one).
Proof.
  rewrite NumFacts.mul_1_r.
  unfold moved_axis, LimitLocationConstraint.correction.
  destruct a as [ | | | a], mn as [ | | | m], mx as [ | | | n];
    num_unfold; sign_cases; conj_split; intros;
    try discriminate; try (exfalso; lra); try reflexivity;
    try apply (NumFacts.add_0_r g).
Qed.

(** C7, as amended.  With [influence = 0], [solve] leaves the translation
    of [owner.global] as it was whenever the correction it computes is
    finite on both axes.  With [influence = 1], [solve] adds to the
    translation of [owner.global], on each axis, the difference between
    the bound that the baseline translation violates and the baseline,
    when it violates one of the two, and nothing when it violates none or
    both.  When the baseline translation is finite and is the translation
    of [owner.global] (as it is whenever [ownerRelativity] is not 'local'),
    the sum is, in exact arithmetic, the violated bound. *)
Theorem limit_location_clamps (this : LimitLocationConstraint.t) (s : store) :
  let owner := LimitLocationConstraint.owner this in
  let mn := LimitLocationConstraint.min this in
  let mx := LimitLocationConstraint.max this in
  let before := global_position s owner in
  let after := global_position (LimitLocationConstraint.solve this s) owner in
  let base := baseline this s in
  let cx :=
    LimitLocationConstraint.correction (Vector2.x mn - Vector2.x base)
                                       (Vector2.x mx - Vector2.x base) in
  let cy :=
    LimitLocationConstraint.correction (Vector2.y mn - Vector2.y base)
                                       (Vector2.y mx - Vector2.y base) in
  (LimitLocationConstraint.influence this = Fin 0 ->
   Num.isFinite cx = true -> Num.isFinite cy = true ->
   after = before)
  /\ (LimitLocationConstraint.influence this = Fin 1 ->
      moved_axis (Vector2.x base) (Vector2.x mn) (Vector2.x mx)
                 (Vector2.x before) (Vector2.x after)
      /\ moved_axis (Vector2.y base) (Vector2.y mn) (Vector2.y mx)
                    (Vector2.y before) (Vector2.y after))
  /\ (LimitLocationConstraint.influence this = Fin 1 ->
      finite_vector base = true ->
      before = base ->
      clamped_axis (Vector2.x base) (Vector2.x mn) (Vector2.x mx)
                   (Vector2.x after)
      /\ clamped_axis (Vector2.y base) (Vector2.y mn) (Vector2.y mx)
                      (Vector2.y after))
  /\ (String.eqb (LimitLocationConstraint.ownerRelativity this) "local"
      = false ->
      before = base).
Proof.
  intros owner mn mx before after base cx cy.
  subst owner mn mx before after base cx cy.
  rewrite (limit_location_effect this s).
  cbn [Vector2.x Vector2.y].
  split; [ | split; [ | split]].
  - intros Hinf Hx Hy. rewrite Hinf. change (Fin 0) with Num.zero.
    rewrite (no_influence_finite _ _ Hx), (no_influence_finite _ _ Hy).
    destruct (global_position s (LimitLocationConstraint.owner this));
      reflexivity.
  - intros Hinf. rewrite Hinf. change (Fin 1) with Num.one.
    split; apply moved_axis_full.
  - intros Hinf Hfin Hsame. rewrite Hinf, Hsame.
    destruct (finite_vector_Fin _ Hfin) as [a [b ->]].
    cbn [Vector2.x Vector2.y].
    split; apply clamped_axis_full.
  - intros Hrel. unfold baseline, select. rewrite Hrel. reflexivity.
Qed.

Lemma baseline_unfold (this : LimitLocationConstraint.t) (s : store) :
  baseline this s
  = WTransformMatrix3.get_t
      (select (LimitLocationConstraint.ownerRelativity this)
              (s (LimitLocationConstraint.owner this))).
Proof. reflexivity. Qed.

Lemma displaced_local :
  WTransformMatrix3.get_t (WPhysicsModel.local Scene.displaced)
  = Vector2.mk (Fin 10) (Fin 0).
Proof. apply (body_position 10 0 Num.one truthy_one). Qed.

Lemma displaced_global :
  WTransformMatrix3.get_t (WPhysicsModel.global Scene.displaced)
  = Vector2.mk (Fin 20) (Fin 0).
Proof. reflexivity. Qed.

(** The translation of [owner.global] after [solve], for a constraint on
    the body behind the reference 0 of a scene, from the translations of
    its global and of its baseline transform. *)
Lemma scene_limit_location
      (infl : num) (rel : string) (mn mx : Vector2) (a b : WPhysicsModel)
      (gx gy bx by' : num) :
  WTransformMatrix3.get_t (WPhysicsModel.global a) = Vector2.mk gx gy ->
  WTransformMatrix3.get_t (select rel a) = Vector2.mk bx by' ->
  global_position
    (LimitLocationConstraint.solve
       (LimitLocationConstraint.mk 0 infl rel mn mx) (Scene.two a b))
    0%nat
  = Vector2.mk
      (gx + LimitLocationConstraint.correction (Vector2.x mn - bx)
                                               (Vector2.x mx - bx) * infl)
      (gy + LimitLocationConstraint.correction (Vector2.y mn - by')
                                               (Vector2.y mx - by') * infl).
Proof.
  intros Hg Hb.
  pose proof (limit_location_effect
                (LimitLocationConstraint.mk 0 infl rel mn mx) (Scene.two a b))
    as H.
  rewrite baseline_unfold, (global_position_unfold (Scene.two a b)) in H.
  cbn [LimitLocationConstraint.owner LimitLocationConstraint.ownerRelativity
       LimitLocationConstraint.min LimitLocationConstraint.max
       LimitLocationConstraint.influence LimitLocationConstraint._influence]
    in H.
  rewrite two_first, Hg, Hb in H. exact H.
Qed.

(** The theorem at a body at (9, 3) and the box [x <= 5]: with full
    influence the body lands on (5, 3); with none it stays. *)
Lemma limit_location_clamps_witness :
  global_position
    (LimitLocationConstraint.solve
       (LimitLocationConstraint.mk 0 (Fin 1) "global"
          (Vector2.mk NInf NInf) (Vector2.mk (Fin 5) PInf))
       (Scene.two (Scene.body 9 3 (Fin 1)) (Scene.body 0 0 (Fin 1))))
    0%nat
  = Vector2.mk (Fin 5) (Fin 3)
  /\ global_position
       (LimitLocationConstraint.solve
          (LimitLocationConstraint.mk 0 (Fin 0) "global"
             (Vector2.mk NInf NInf) (Vector2.mk (Fin 5) PInf))
          (Scene.two (Scene.body 9 3 (Fin 1)) (Scene.body 0 0 (Fin 1))))
       0%nat
     = Vector2.mk (Fin 9) (Fin 3).
Proof.
  set (S := Scene.two (Scene.body 9 3 (Fin 1)) (Scene.body 0 0 (Fin 1))).
  assert (Hg : global_position S 0%nat = Vector2.mk (Fin 9) (Fin 3)).
  { unfold S. rewrite global_position_unfold, two_first.
    apply body_global_position, truthy_one. }
  split.
  - set (C := LimitLocationConstraint.mk 0 (Fin 1) "global"
                (Vector2.mk NInf NInf) (Vector2.mk (Fin 5) PInf)).
    destruct (limit_location_clamps C S) as [_ [_ [H1 Hrel]]].
    specialize (Hrel eq_refl).
    cbn [LimitLocationConstraint.owner LimitLocationConstraint.min
         LimitLocationConstraint.max C] in H1, Hrel.
    rewrite <- Hrel, Hg in H1.
    destruct (H1 eq_refl eq_refl eq_refl) as [[_ [Hx _]] [_ [_ Hy]]].
    cbn [Vector2.x Vector2.y] in Hx, Hy.
    destruct (global_position (LimitLocationConstraint.solve C S) 0%nat)
      as [ax ay].
    cbn [Vector2.x Vector2.y] in Hx, Hy.
    rewrite Hx, Hy; try reflexivity; num_eval; reflexivity.
  - set (C := LimitLocationConstraint.mk 0 (Fin 0) "global"
                (Vector2.mk NInf NInf) (Vector2.mk (Fin 5) PInf)).
    destruct (limit_location_clamps C S) as [H0 [_ [_ Hrel]]].
    specialize (Hrel eq_refl).
    cbn [LimitLocationConstraint.owner LimitLocationConstraint.min
         LimitLocationConstraint.max C] in H0, Hrel.
    rewrite <- Hrel, Hg in H0.
    rewrite H0; try reflexivity; cbn [Vector2.x Vector2.y];
      num_eval; reflexivity.
Defined.

(** C7 fails in four ways.  With [influence = 0] and a lower bound
    [minX = +Infinity], the body at (0, 0) goes to (NaN, 0): the correction
    is infinite and [Infinity * 0] is NaN.  With [influence = 0] and the
    bound [maxX = 5], the body whose global translation is (Infinity, 0)
    goes to (NaN, 0) for the same reason.  With [influence = 1] and
    [ownerRelativity = 'local'], the body whose local translation is (10, 0)
    and whose global translation is (20, 0) goes to (15, 0), and not to the
    bound [maxX = 5] it violates: the correction of the local translation is
    added to the global one.  With [influence = 1] and a box whose bounds
    are crossed ([minX = 5], [maxX = 1]), the body at (3, 0) violates both
    and stays. *)
Lemma limit_location_misses_the_bound :
  (global_position
     (Scene.two (Scene.body 0 0 (Fin 1)) (Scene.body 0 0 (Fin 1))) 0%nat
   = Vector2.mk (Fin 0) (Fin 0)
   /\ global_position
        (LimitLocationConstraint.solve
           (LimitLocationConstraint.mk 0 (Fin 0) "global"
              (Vector2.mk PInf NInf) (Vector2.mk PInf PInf))
           (Scene.two (Scene.body 0 0 (Fin 1)) (Scene.body 0 0 (Fin 1))))
        0%nat
      = Vector2.mk NaN (Fin 0))
  /\ (global_position
        (Scene.two Scene.far (Scene.body 0 0 (Fin 1))) 0%nat
      = Vector2.mk PInf (Fin 0)
      /\ global_position
           (LimitLocationConstraint.solve
              (LimitLocationConstraint.mk 0 (Fin 0) "global"
                 (Vector2.mk NInf NInf) (Vector2.mk (Fin 5) PInf))
              (Scene.two Scene.far (Scene.body 0 0 (Fin 1))))
           0%nat
         = Vector2.mk NaN (Fin 0))
  /\ (WTransformMatrix3.get_t (select "local" Scene.displaced)
      = Vector2.mk (Fin 10) (Fin 0)
      /\ global_position
           (LimitLocationConstraint.solve
              (LimitLocationConstraint.mk 0 (Fin 1) "local"
                 (Vector2.mk NInf NInf) (Vector2.mk (Fin 5) PInf))
              (Scene.two Scene.displaced (Scene.body 0 0 (Fin 1))))
           0%nat
         = Vector2.mk (Fin 15) (Fin 0))
  /\ (global_position
        (Scene.two (Scene.body 3 0 (Fin 1)) (Scene.body 0 0 (Fin 1))) 0%nat
      = Vector2.mk (Fin 3) (Fin 0)
      /\ global_position
           (LimitLocationConstraint.solve
              (LimitLocationConstraint.mk 0 (Fin 1) "global"
                 (Vector2.mk (Fin 5) NInf) (Vector2.mk (Fin 1) PInf))
              (Scene.two (Scene.body 3 0 (Fin 1)) (Scene.body 0 0 (Fin 1))))
           0%nat
         = Vector2.mk (Fin 3) (Fin 0)).
Proof.
  assert (Hbody : forall x y : R,
             WTransformMatrix3.get_t
               (WPhysicsModel.global (Scene.body x y (Fin 1)))
             = Vector2.mk (Fin x) (Fin y)).
  { intros x y. apply body_global_position, truthy_one. }
  conj_split.
  - rewrite global_position_unfold, two_first. apply Hbody.
  - rewrite (scene_limit_location _ _ _ _ _ _ _ _ _ _
               (Hbody 0%R 0%R)
               (eq_trans (f_equal _ (select_global _)) (Hbody 0%R 0%R))).
    num_eval; fin_eq.
  - rewrite global_position_unfold, two_first. exact far_global.
  - rewrite (scene_limit_location _ _ _ _ _ _ _ _ _ _
               far_global
               (eq_trans (f_equal _ (select_global _)) far_global)).
    num_eval; fin_eq.
  - rewrite select_local. exact displaced_local.
  - rewrite (scene_limit_location _ _ _ _ _ _ _ _ _ _
               displaced_global
               (eq_trans (f_equal _ (select_local _)) displaced_local)).
    num_eval; fin_eq.
  - rewrite global_position_unfold, two_first. apply Hbody.
  - rewrite (scene_limit_location _ _ _ _ _ _ _ _ _ _
               (Hbody 3%R 0%R)
               (eq_trans (f_equal _ (select_global _)) (Hbody 3%R 0%R))).
    num_eval; fin_eq.
Qed.

(** ** calcMatrix and calcFields *)

Section Angles.

Local Open Scope R_scope.

(** The length of the vector [(1, t)], for [t = y / x]. *)
Lemma sqrt_quotient (x y : R) :
  0 < x ->
  sqrt (1 + (y / x)²) = sqrt (x * x + y * y) / x.
Proof.
  intros Hx.
  assert (Hs : 0 <= sqrt (x * x + y * y)) by apply sqrt_pos.
  assert (Hss : sqrt (x * x + y * y) * sqrt (x * x + y * y) = x * x + y * y)
    by (apply sqrt_sqrt; nra).
  apply sqrt_lem_1.
  - unfold Rsqr. nra.
  - apply Rmult_le_pos; [exact Hs | ].
    left. apply Rinv_0_lt_compat, Hx.
  - unfold Rsqr.
    replace (sqrt (x * x + y * y) / x * (sqrt (x * x + y * y) / x))
      with (sqrt (x * x + y * y) * sqrt (x * x + y * y) / (x * x))
      by (field; lra).
    rewrite Hss. field. lra.
Qed.

Lemma Rsqr_quotient_opp (x y : R) : x <> 0 -> (y / x)² = (- y / - x)².
Proof. intros Hx. unfold Rsqr. field. lra. Qed.

(** The angle that [Num.Ratan2] gives to a point other than the origin is
    the angle of that point: its cosine and sine are the coordinates over
    the distance to the origin. *)
Lemma Ratan2_cos_sin (x y : R) :
  x * x + y * y <> 0 ->
  cos (Num.Ratan2 y x) = x / sqrt (x * x + y * y)
  /\ sin (Num.Ratan2 y x) = y / sqrt (x * x + y * y).
Proof.
  intros Hxy.
  assert (Hpos : 0 < sqrt (x * x + y * y)) by (apply sqrt_lt_R0; nra).
  unfold Num.Ratan2.
  destruct (Rlt_dec 0 x) as [Hx | Hx].
  - rewrite cos_atan, sin_atan, sqrt_quotient by exact Hx.
    split; field; lra.
  - destruct (Rlt_dec x 0) as [Hx' | Hx'].
    + assert (Hq : sqrt (1 + (y / x)²) = sqrt (x * x + y * y) / - x).
      { rewrite (Rsqr_quotient_opp x y) by lra.
        rewrite sqrt_quotient by lra.
        replace (- x * - x + - y * - y) with (x * x + y * y) by ring.
        reflexivity. }
      destruct (Rlt_dec y 0) as [Hy | Hy].
      * rewrite cos_minus, sin_minus, cos_PI, sin_PI, cos_atan, sin_atan, Hq.
        split; field; lra.
      * rewrite neg_cos, neg_sin, cos_atan, sin_atan, Hq.
        split; field; lra.
    + assert (x = 0) by lra. subst x.
      replace (0 * 0 + y * y) with (y * y) in * by ring.
      destruct (Rlt_dec 0 y) as [Hy | Hy].
      * rewrite cos_PI2, sin_PI2, sqrt_square by lra.
        split; field; lra.
      * destruct (Rlt_dec y 0) as [Hy' | Hy']; [ | exfalso; nra].
        rewrite cos_neg, sin_neg, cos_PI2, sin_PI2.
        replace (y * y) with (- y * - y) by ring.
        rewrite sqrt_square by lra.
        split; field; lra.
Qed.

End Angles.

Section Decomposition.

Local Open Scope R_scope.

Variables rx ry k sy : R.
Hypothesis unit_direction : rx * rx + ry * ry = 1.
Hypothesis positive_scale : 0 < sy.

(** The second column of the matrix, and the angle that [calcFields]
    reads in it. *)
Let c := (rx * k + - ry) * sy.
Let d := (ry * k + rx) * sy.
Let h := sqrt (1 + k * k).
Let sk := Num.Ratan2 d c + - (PI / 2) + - Num.Ratan2 ry rx.

Lemma h_positive : 0 < h.
Proof. apply sqrt_lt_R0. nra. Qed.

Lemma second_column_length : sqrt (c * c + d * d) = sy * h.
Proof.
  pose proof h_positive as Hh.
  apply sqrt_lem_1.
  - nra.
  - nra.
  - replace (sy * h * (sy * h)) with (sy * sy * (h * h)) by ring.
    unfold h. rewrite sqrt_sqrt by nra.
    unfold c, d.
    replace ((rx * k + - ry) * sy * ((rx * k + - ry) * sy)
             + (ry * k + rx) * sy * ((ry * k + rx) * sy))
      with (sy * sy * ((1 + k * k) * (rx * rx + ry * ry))) by ring.
    rewrite unit_direction. ring.
Qed.

Lemma direction_angle :
  cos (Num.Ratan2 ry rx) = rx /\ sin (Num.Ratan2 ry rx) = ry.
Proof.
  destruct (Ratan2_cos_sin rx ry) as [Hc Hs].
  - rewrite unit_direction. lra.
  - rewrite Hc, Hs, unit_direction, sqrt_1. split; field.
Qed.

Lemma second_column_angle :
  cos (Num.Ratan2 d c) = c / (sy * h) /\ sin (Num.Ratan2 d c) = d / (sy * h).
Proof.
  pose proof h_positive as Hh.
  pose proof second_column_length as Hlen.
  destruct (Ratan2_cos_sin c d) as [Hc Hs].
  - intros H0. rewrite H0, sqrt_0 in Hlen. nra.
  - rewrite Hc, Hs, Hlen. split; reflexivity.
Qed.

(** The angle [sk] is minus the skew angle: its tangent is [- k]. *)
Lemma skew_angle : cos sk = 1 / h /\ sin sk = - k / h.
Proof.
  pose proof h_positive as Hh.
  destruct direction_angle as [HcB HsB].
  destruct second_column_angle as [HcA HsA].
  unfold sk.
  replace (Num.Ratan2 d c + - (PI / 2) + - Num.Ratan2 ry rx)
    with (Num.Ratan2 d c - PI / 2 - Num.Ratan2 ry rx) by ring.
  repeat (rewrite cos_minus || rewrite sin_minus).
  rewrite cos_PI2, sin_PI2, HcA, HsA, HcB, HsB.
  unfold c, d. split.
  - transitivity ((rx * rx + ry * ry) / h).
    + field. conj_split; apply Rgt_not_eq; assumption.
    + rewrite unit_direction. reflexivity.
  - transitivity (- k * (rx * rx + ry * ry) / h).
    + field. conj_split; apply Rgt_not_eq; assumption.
    + rewrite unit_direction. field. apply Rgt_not_eq; assumption.
Qed.

End Decomposition.

(** The coefficients [calcMatrix] computes from a canonical parameter
    set. *)
Lemma calcMatrix_canonical (tx ty : num) (rx ry k sx sy : R)
      (data : Float32x9) :
  WTransformMatrix3._data
    (WTransformMatrix3.calcMatrix (canonical tx ty rx ry k sx sy data))
  = mkData (Fin (rx * sx)) (Fin (ry * sx)) (Fin 0)
           (Fin ((rx * k + - ry) * sy)) (Fin ((ry * k + rx) * sy)) (Fin 0)
           tx ty (Fin 1).
Proof. reflexivity. Qed.

Section Recovery.

Variables rx ry k sx sy : R.
Hypothesis unit_direction : (rx * rx + ry * ry = 1)%R.
Hypothesis positive_sx : (0 < sx)%R.
Hypothesis positive_sy : (0 < sy)%R.

Lemma first_column_length :
  R_sqrt.sqrt (rx * sx * (rx * sx) + ry * sx * (ry * sx)) = sx.
Proof.
  replace (rx * sx * (rx * sx) + ry * sx * (ry * sx))%R
    with (sx * sx * (rx * rx + ry * ry))%R by ring.
  rewrite unit_direction, Rmult_1_r. apply sqrt_square. lra.
Qed.

Lemma recovered_direction :
  Vector2.norm (vec2 (Fin (rx * sx)) (Some (Fin (ry * sx))))
  = Vector2.mk (Fin rx) (Fin ry).
Proof.
  unfold Vector2.norm, Vector2.length, Vector2.scale, Vector2.vec2.
  cbn [Vector2.x Vector2.y NumExtra.default Num.hypot].
  rewrite first_column_length, one_over_finite by lra.
  cbn. apply f_equal2; apply (f_equal Fin); field; lra.
Qed.

Lemma recovered_angle :
  Num.atan2 (Fin ((ry * k + rx) * sy)) (Fin ((rx * k + - ry) * sy))
  - Num.pi / Fin 2
  - Vector2.rotation (Vector2.mk (Fin rx) (Fin ry))
  = Fin (Num.Ratan2 ((ry * k + rx) * sy) ((rx * k + - ry) * sy)
         + - (PI / 2) + - Num.Ratan2 ry rx).
Proof.
  unfold Vector2.rotation, Num.pi, Num.sub. cbn.
  destruct (Req_dec_T 2 0); [exfalso; lra | reflexivity].
Qed.

Lemma recovered_skew (sk : R) :
  sk = (Num.Ratan2 ((ry * k + rx) * sy) ((rx * k + - ry) * sy)
        + - (PI / 2) + - Num.Ratan2 ry rx)%R ->
  - Num.tan (Fin sk) = Fin k
  /\ Num.sqrt (NumExtra.sq (Fin ((rx * k + - ry) * sy))
               + NumExtra.sq (Fin ((ry * k + rx) * sy)))
     * Num.cos (Fin sk)
     = Fin sy.
Proof.
  intros ->.
  pose proof (skew_angle rx ry k sy unit_direction positive_sy) as [Hc Hs].
  pose proof (second_column_length rx ry k sy unit_direction positive_sy)
    as Hlen.
  pose proof (h_positive k) as Hh.
  cbv zeta in Hc, Hs, Hlen, Hh.
  set (sk := (Num.Ratan2 _ _ + - (PI / 2) + - Num.Ratan2 ry rx)%R) in *.
  set (h := R_sqrt.sqrt (1 + k * k)) in *.
  split.
  - unfold Num.tan. cbn [Num.sin Num.cos Num.div]. rewrite Hc, Hs.
    destruct (Req_dec_T (1 / h) 0) as [E | _].
    + exfalso. assert (0 < 1 / h)%R by (apply Rdiv_lt_0_compat; lra). lra.
    + cbn. f_equal. field. lra.
  - unfold NumExtra.sq. cbn [Num.mul Num.add Num.sqrt Num.cos].
    destruct (Rlt_dec _ 0) as [Hneg | _]; [exfalso; nra | ].
    rewrite Hlen, Hc. cbn. f_equal. field. lra.
Qed.

Lemma recovered_scale_x :
  Num.sqrt (NumExtra.sq (Fin (rx * sx)) + NumExtra.sq (Fin (ry * sx)))
  = Fin sx.
Proof.
  unfold NumExtra.sq. cbn [Num.mul Num.add Num.sqrt].
  destruct (Rlt_dec _ 0) as [Hneg | _]; [exfalso; nra | ].
  rewrite first_column_length. reflexivity.
Qed.

End Recovery.

(** C3, as amended.  In exact arithmetic (no rounding, no underflow and no
    overflow, in the numbers or in the [Float32Array] that holds the
    coefficients): for every canonical parameter set with a unit direction,
    a skew angle in (-PI/2, PI/2) (its tangent [k] is any finite number) and
    scale components that are strictly positive, [calcFields] on the
    coefficients that [calcMatrix] computes recovers the direction, the
    skew tangent, the scale and the translation, and keeps the
    coefficients. *)
Theorem calcFields_calcMatrix_roundtrip
        (tx ty : num) (rx ry k sx sy : R) (data : Float32x9) :
  (rx * rx + ry * ry = 1)%R -> (0 < sx)%R -> (0 < sy)%R ->
  let p := canonical tx ty rx ry k sx sy data in
  let q := WTransformMatrix3.calcFields (WTransformMatrix3.calcMatrix p) in
  WTransformMatrix3._direct q = WTransformMatrix3._direct p
  /\ WTransformMatrix3._skew q = WTransformMatrix3._skew p
  /\ WTransformMatrix3._scale q = WTransformMatrix3._scale p
  /\ WTransformMatrix3._translate q = WTransformMatrix3._translate p
  /\ WTransformMatrix3._data q
     = WTransformMatrix3._data (WTransformMatrix3.calcMatrix p).
Proof.
  intros Hunit Hsx Hsy p q. subst q p.
  unfold WTransformMatrix3.calcFields.
  rewrite calcMatrix_canonical.
  cbn [d0 d1 d3 d4 d6 d7 WTransformMatrix3._direct WTransformMatrix3._skew
       WTransformMatrix3._scale WTransformMatrix3._translate
       WTransformMatrix3._data canonical].
  rewrite (recovered_direction rx ry sx Hunit Hsx).
  rewrite (recovered_angle rx ry k sy).
  destruct (recovered_skew rx ry k sy Hunit Hsy _ eq_refl) as [Hk Hy].
  rewrite Hk, Hy, (recovered_scale_x rx ry sx Hunit Hsx).
  conj_split; reflexivity.
Qed.

(** The theorem at the direction (1, 0), the skew tangent 1, the scale
    (2, 3) and the translation (4, 5). *)
Lemma calcFields_calcMatrix_roundtrip_witness :
  let p := canonical (Fin 4) (Fin 5) 1 0 1 2 3 Scene.zeros in
  let q := WTransformMatrix3.calcFields (WTransformMatrix3.calcMatrix p) in
  WTransformMatrix3._direct q = Vector2.mk (Fin 1) (Fin 0)
  /\ WTransformMatrix3._skew q = Fin 1
  /\ WTransformMatrix3._scale q = Vector2.mk (Fin 2) (Fin 3)
  /\ WTransformMatrix3._translate q = Vector2.mk (Fin 4) (Fin 5).
Proof.
  intros p q.
  destruct (calcFields_calcMatrix_roundtrip
              (Fin 4) (Fin 5) 1 0 1 2 3 Scene.zeros)
    as [Hd [Hk [Hs [Ht _]]]]; try lra.
  conj_split; assumption.
Defined.

(** C3 fails where a scale component is 0, which the claim allows.  With
    [scale.x = 0] the first column of the matrix is null and [calcFields]
    normalises the null vector: the direction (1, 0) comes back as
    (NaN, NaN).  With [scale.y = 0] the second column is null, its angle is
    read as 0, and the skew tangent 1 comes back as the tangent at the pole
    PI/2 (Infinity in exact arithmetic). *)
Lemma calcFields_loses_parameters_at_zero_scale :
  (WTransformMatrix3._direct (canonical (Fin 0) (Fin 0) 1 0 0 0 1 Scene.zeros)
   = Vector2.mk (Fin 1) (Fin 0)
   /\ WTransformMatrix3._direct
        (WTransformMatrix3.calcFields
           (WTransformMatrix3.calcMatrix
              (canonical (Fin 0) (Fin 0) 1 0 0 0 1 Scene.zeros)))
      = Vector2.mk NaN NaN)
  /\ (WTransformMatrix3._skew (canonical (Fin 0) (Fin 0) 1 0 1 1 0 Scene.zeros)
      = Fin 1
      /\ WTransformMatrix3._skew
           (WTransformMatrix3.calcFields
              (WTransformMatrix3.calcMatrix
                 (canonical (Fin 0) (Fin 0) 1 0 1 1 0 Scene.zeros)))
         = PInf).
Proof.
  split; split.
  - reflexivity.
  - unfold WTransformMatrix3.calcFields. rewrite calcMatrix_canonical.
    cbn [d0 d1 WTransformMatrix3._direct].
    unfold Vector2.norm, Vector2.length, Vector2.scale, Vector2.vec2.
    cbn [Vector2.x Vector2.y NumExtra.default Num.hypot].
    replace (1 * 0 * (1 * 0) + 0 * 0 * (0 * 0))%R with 0%R by ring.
    rewrite sqrt_0. num_eval; reflexivity.
  - reflexivity.
  - unfold WTransformMatrix3.calcFields. rewrite calcMatrix_canonical.
    cbn [d0 d1 d3 d4 WTransformMatrix3._skew].
    replace ((1 * 1 + - 0) * 0)%R with 0%R by ring.
    replace ((0 * 1 + 1) * 0)%R with 0%R by ring.
    replace (1 * 1)%R with 1%R by ring.
    replace (0 * 1)%R with 0%R by ring.
    assert (Hn : Vector2.norm (vec2 (Fin 1) (Some (Fin 0)))
                 = Vector2.mk (Fin 1) (Fin 0)).
    { replace 1%R with (1 * 1)%R at 1 by ring.
      replace 0%R with (0 * 1)%R at 1 by ring.
      apply recovered_direction; lra. }
    rewrite Hn.
    assert (Hsk : Num.atan2 (Fin 0) (Fin 0) - Num.pi / Fin 2
                  - Vector2.rotation (Vector2.mk (Fin 1) (Fin 0))
                  = Fin (- (PI / 2))).
    { unfold Vector2.rotation, Num.pi, Num.sub, Num.Ratan2. cbn.
      unfold Num.Ratan2.
      destruct (Req_dec_T 2 0); [exfalso; lra | ].
      destruct (Rlt_dec 0 0); [exfalso; lra | ].
      destruct (Rlt_dec 0 1); [ | exfalso; lra].
      cbn. f_equal.
      replace (0 / 1)%R with 0%R by field. rewrite atan_0. ring. }
    rewrite Hsk. unfold Num.tan. cbn [Num.sin Num.cos].
    rewrite sin_neg, cos_neg, sin_PI2, cos_PI2.
    num_eval; reflexivity.
Qed.

(* ================================================================= *)
(** * Further properties of the code

    Properties of the functions above that the code itself shows: what a
    call writes and what it leaves alone, what holds after it, how calls
    compose and what happens at the edges.  *)

(** ** Shared facts *)

(** A method that leaves a view of the body alone leaves it alone in the
    store. *)
Lemma call_frame {A : Type} (view : WPhysicsModel -> A)
      (m : WPhysicsModel -> WPhysicsModel) (s : store) (p q : ref) :
  (forall b, view (m b) = view b) ->
  view (call s p m q) = view (s q).
Proof.
  intros Hm. unfold call, upd. destruct (Nat.eqb q p) eqn:E.
  - apply Nat.eqb_eq in E. subst q. apply Hm.
  - reflexivity.
Qed.

(** Calling twice a method that does nothing the second time. *)
Lemma call_again (s : store) (p q : ref) (m : WPhysicsModel -> WPhysicsModel) :
  (forall b, m (m b) = m b) -> call (call s p m) p m q = call s p m q.
Proof.
  intros Hm. unfold call, upd. destruct (Nat.eqb q p) eqn:E; [ | reflexivity].
  rewrite Nat.eqb_refl. apply Hm.
Qed.

Lemma select_not_local (relativity : string) (b : WPhysicsModel) :
  String.eqb relativity "local" = false ->
  select relativity b = WPhysicsModel.global b.
Proof. intros H. unfold select. rewrite H. reflexivity. Qed.

Lemma select_is_local (relativity : string) (b : WPhysicsModel) :
  String.eqb relativity "local" = true ->
  select relativity b = WPhysicsModel.local b.
Proof. intros H. unfold select. rewrite H. reflexivity. Qed.

(** The length of a vector scaled by a non-negative factor. *)
Lemma sqrt_scaled (x y q : R) :
  (0 <= q)%R ->
  R_sqrt.sqrt (x * q * (x * q) + y * q * (y * q))
  = (R_sqrt.sqrt (x * x + y * y) * q)%R.
Proof.
  intros Hq.
  replace (x * q * (x * q) + y * q * (y * q))%R
    with ((x * x + y * y) * (q * q))%R by ring.
  rewrite sqrt_mult by nra.
  rewrite sqrt_square by exact Hq. reflexivity.
Qed.

(** A finite difference is a difference of finite numbers. *)
Lemma sub_finite (p q : num) (a : R) :
  p - q = Fin a ->
  exists p' q' : R, p = Fin p' /\ q = Fin q' /\ a = (p' + - q')%R.
Proof.
  destruct p as [ | | | p'], q as [ | | | q']; try discriminate.
  unfold Num.sub; cbn. intros H. injection H as <-. eauto.
Qed.

Lemma dif_finite (p q : Vector2) (a b : R) :
  Vector2.dif p q = Vector2.mk (Fin a) (Fin b) ->
  exists px py qx qy : R,
    p = Vector2.mk (Fin px) (Fin py) /\ q = Vector2.mk (Fin qx) (Fin qy)
    /\ a = (px + - qx)%R /\ b = (py + - qy)%R.
Proof.
  destruct p as [px py], q as [qx qy].
  unfold Vector2.dif, Vector2.vec2; cbn [Vector2.x Vector2.y NumExtra.default].
  intros H. injection H as Hx Hy.
  destruct (sub_finite _ _ _ Hx) as [px' [qx' [-> [-> ->]]]].
  destruct (sub_finite _ _ _ Hy) as [py' [qy' [-> [-> ->]]]].
  exists px', py', qx', qy'. auto.
Qed.

(** Two bodies built by the constructor, as a constraint sees them. *)
Lemma scene_two (x1 y1 x2 y2 : R) (m1 m2 : num) :
  Num.truthy m1 = true -> Num.truthy m2 = true ->
  let s := Scene.two (Scene.body x1 y1 m1) (Scene.body x2 y2 m2) in
  (position s 0%nat = Vector2.mk (Fin x1) (Fin y1)
   /\ position s 1%nat = Vector2.mk (Fin x2) (Fin y2))
  /\ (global_position s 0%nat = Vector2.mk (Fin x1) (Fin y1)
      /\ global_position s 1%nat = Vector2.mk (Fin x2) (Fin y2))
  /\ (WPhysicsModel.mass (s 0%nat) = m1 /\ WPhysicsModel.mass (s 1%nat) = m2).
Proof.
  intros H1 H2 s. subst s. unfold position, global_position.
  rewrite !two_first, !two_second.
  rewrite !body_position, !body_global_position by assumption.
  conj_split; reflexivity.
Qed.

Lemma truthy_finite (r : R) : r <> 0%R -> Num.truthy (Fin r) = true.
Proof.
  intros Hr. cbn. destruct (Req_dec_T r 0); [contradiction | reflexivity].
Qed.

(** ** What the constraints write *)

Lemma set_global_same (b : WPhysicsModel) :
  WPhysicsModel.set_global b (WPhysicsModel.global b) = b.
Proof. destruct b; reflexivity. Qed.

Lemma writes_nothing (p : ref) (s : store) : writes_only_global p s s.
Proof.
  exists (WPhysicsModel.global (s p)). intros q. unfold upd.
  destruct (Nat.eqb q p) eqn:E.
  - apply Nat.eqb_eq in E. subst q. symmetry. apply set_global_same.
  - reflexivity.
Qed.

Lemma writes_global_then (p : ref) (s s' : store)
      (m : WPhysicsModel -> WTransformMatrix3) :
  writes_only_global p s s' ->
  writes_only_global p s
    (call s' p (fun b => WPhysicsModel.set_global b (m b))).
Proof.
  intros [g Hg]. exists (m (s' p)). intros q.
  unfold call, upd. destruct (Nat.eqb q p) eqn:E.
  - rewrite (Hg p). unfold upd. rewrite Nat.eqb_refl. reflexivity.
  - rewrite (Hg q). unfold upd. rewrite E. reflexivity.
Qed.

(** X1.  The constraints that work on transforms (the four copy
    constraints and the two limit constraints) write the global transform
    of their owner and nothing else: after [solve], every other body is
    what it was, and so are the owner's local transform, velocity,
    acceleration, force, mass and origin.  For [CopyTransformsConstraint]
    this holds of the store it leaves, whether it returns or throws. *)
Theorem transform_constraints_write_owner_global_only (s : store) :
  (forall this : CopyLocationConstraint.t,
      writes_only_global (CopyLocationConstraint.owner this) s
                         (CopyLocationConstraint.solve this s))
  /\ (forall this : CopyRotationConstraint.t,
         writes_only_global (CopyRotationConstraint.owner this) s
                            (CopyRotationConstraint.solve this s))
  /\ (forall this : CopyScaleConstraint.t,
         writes_only_global (CopyScaleConstraint.owner this) s
                            (CopyScaleConstraint.solve this s))
  /\ (forall this : CopyTransformsConstraint.t,
         writes_only_global (CopyTransformsConstraint.owner this) s
                            (snd (CopyTransformsConstraint.solve this s)))
  /\ (forall this : LimitDistanceConstraint.t,
         writes_only_global (LimitDistanceConstraint.owner this) s
                            (LimitDistanceConstraint.solve this s))
  /\ (forall this : LimitLocationConstraint.t,
         writes_only_global (LimitLocationConstraint.owner this) s
                            (LimitLocationConstraint.solve this s)).
Proof.
  conj_split; intros this.
  - unfold CopyLocationConstraint.solve.
    destruct (fst (CopyLocationConstraint.axes this)),
      (snd (CopyLocationConstraint.axes this)).
    + apply writes_global_then, writes_global_then, writes_nothing.
    + apply writes_global_then, writes_nothing.
    + apply writes_global_then, writes_nothing.
    + apply writes_nothing.
  - unfold CopyRotationConstraint.solve.
    apply writes_global_then, writes_nothing.
  - unfold CopyScaleConstraint.solve.
    destruct (fst (CopyScaleConstraint.axes this)),
      (snd (CopyScaleConstraint.axes this)).
    + apply writes_global_then, writes_global_then, writes_nothing.
    + apply writes_global_then, writes_nothing.
    + apply writes_global_then, writes_nothing.
    + apply writes_nothing.
  - unfold CopyTransformsConstraint.solve, CopyTransformsConstraint.on_og.
    destruct (String.eqb (CopyTransformsConstraint.mixMode this) "replace").
    { apply writes_global_then, writes_nothing. }
    destruct (String.eqb (CopyTransformsConstraint.mixMode this) "split").
    { cbn [snd].
      apply writes_global_then, writes_global_then, writes_global_then,
        writes_global_then, writes_nothing. }
    destruct (String.eqb (CopyTransformsConstraint.mixMode this) "beforeFull").
    { apply writes_global_then, writes_nothing. }
    destruct (String.eqb (CopyTransformsConstraint.mixMode this) "afterFull").
    { apply writes_global_then, writes_nothing. }
    apply writes_nothing.
  - unfold LimitDistanceConstraint.solve.
    match goal with
    | |- context [if ?c then _ else _] => destruct c
    end.
    + apply writes_global_then, writes_nothing.
    + apply writes_nothing.
  - unfold LimitLocationConstraint.solve.
    apply writes_global_then, writes_nothing.
Qed.

(** X2.  [WSpring.solve] moves nothing: in every body it leaves the two
    transforms, the velocity, the acceleration, the mass and the origin as
    they were (only the accumulated force can differ), and a body that is
    neither the owner nor the target is left as it was. *)
Theorem spring_only_accumulates_force
        (this : WSpring.t) (s : store) (q : ref) :
  but_force (WSpring.solve this s q) = but_force (s q)
  /\ (q <> WSpring.owner this -> q <> WSpring.target this ->
      WSpring.solve this s q = s q).
Proof.
  unfold WSpring.solve. cbv zeta. split.
  - rewrite (call_frame but_force) by reflexivity.
    rewrite (call_frame but_force) by reflexivity.
    reflexivity.
  - intros Ho Ht. rewrite call_other by exact Ht.
    apply call_other, Ho.
Qed.

(** The theorem at a spring between the bodies behind the references 0
    and 1, for the body behind the reference 2. *)
Lemma spring_only_accumulates_force_witness :
  WSpring.solve (WSpring.mk 0 1 (Fin 10) (Fin 2))
                (Scene.two (Scene.body 0 0 (Fin 1)) (Scene.body 9 0 (Fin 1)))
                2%nat
  = Scene.two (Scene.body 0 0 (Fin 1)) (Scene.body 9 0 (Fin 1)) 2%nat.
Proof.
  apply (proj2 (spring_only_accumulates_force
                  (WSpring.mk 0 1 (Fin 10) (Fin 2))
                  (Scene.two (Scene.body 0 0 (Fin 1))
                             (Scene.body 9 0 (Fin 1)))
                  2%nat));
    cbn [WSpring.owner WSpring.target]; discriminate.
Defined.

(** ** WRope.solve: what it leaves alone, and what holds after it *)

Lemma rope_frame (this : WRope.t) (s : store) (q : ref) :
  rope_leaves (WRope.solve this s q) = rope_leaves (s q).
Proof.
  unfold WRope.solve. cbv zeta.
  destruct (_ >? _); [ | reflexivity].
  destruct (WRope.shares _ _) as [r1 r2].
  repeat (rewrite (call_frame rope_leaves) by reflexivity).
  reflexivity.
Qed.

Lemma rope_leaves_global (b b' : WPhysicsModel) :
  rope_leaves b' = rope_leaves b ->
  WPhysicsModel.global b' = WPhysicsModel.global b
  /\ WPhysicsModel.mass b' = WPhysicsModel.mass b.
Proof. unfold rope_leaves. intros H. injection H. auto. Qed.

(** X3.  [WRope.solve] reads the global transforms and writes the local
    ones: it leaves the global transform, the velocity, the force, the mass
    and the origin of every body as they were.  So, until [updateLocation]
    copies the local transforms into the global ones, the rope measures
    the same distance and the same overshoot, and on a taut rope a second
    [solve] displaces the two bodies once more by what the first did. *)
Theorem rope_repeats_until_updateLocation (this : WRope.t) (s : store) :
  let o := WRope.owner this in
  let t := WRope.target this in
  let s' := WRope.solve this s in
  (forall q : ref, rope_leaves (s' q) = rope_leaves (s q))
  /\ rope_diff this s' = rope_diff this s
  /\ rope_overshoot this s' = rope_overshoot this s
  /\ ((rope_diff this s >? WRope.length this) = true ->
      forall r1 r2 : num,
        WRope.shares (WPhysicsModel.mass (s o)) (WPhysicsModel.mass (s t))
        = (r1, r2) ->
        position (WRope.solve this s') o
        = Vector2.sum (position s o)
                      [Vector2.scale (rope_overshoot this s) r1;
                       Vector2.scale (rope_overshoot this s) r1]
        /\ position (WRope.solve this s') t
           = Vector2.sum (position s t)
                         [Vector2.scale (rope_overshoot this s) (- r2);
                          Vector2.scale (rope_overshoot this s) (- r2)]).
Proof.
  cbv zeta.
  assert (Hframe : forall q : ref,
             rope_leaves (WRope.solve this s q) = rope_leaves (s q))
    by (intros q; apply rope_frame).
  assert (Hdir : rope_dir this (WRope.solve this s) = rope_dir this s).
  { unfold rope_dir, global_position.
    destruct (rope_leaves_global _ _ (Hframe (WRope.owner this))) as [-> _].
    destruct (rope_leaves_global _ _ (Hframe (WRope.target this))) as [-> _].
    reflexivity. }
  assert (Hdiff : rope_diff this (WRope.solve this s) = rope_diff this s).
  { unfold rope_diff. rewrite Hdir. reflexivity. }
  assert (Hov : rope_overshoot this (WRope.solve this s)
                = rope_overshoot this s).
  { unfold rope_overshoot. rewrite Hdir, Hdiff. reflexivity. }
  conj_split; try assumption.
  intros Htaut r1 r2 Hsh.
  assert (Htaut' : (rope_diff this (WRope.solve this s) >? WRope.length this)
                   = true) by (rewrite Hdiff; exact Htaut).
  destruct (rope_moves this (WRope.solve this s) Htaut') as [Ho Ht].
  destruct (rope_leaves_global _ _ (Hframe (WRope.owner this))) as [_ Hmo].
  destruct (rope_leaves_global _ _ (Hframe (WRope.target this))) as [_ Hmt].
  rewrite Hmo, Hmt, Hsh, Hov in Ho, Ht. cbn [fst snd] in Ho, Ht.
  rewrite Ho, Ht.
  destruct (rope_moves this s Htaut) as [Ho1 Ht1].
  rewrite Hsh in Ho1, Ht1. cbn [fst snd] in Ho1, Ht1.
  rewrite Ho1, Ht1. split; reflexivity.
Qed.

(** The theorem at two bodies of mass 1, 9 apart and joined by a rope of
    length 5: solved twice in a row, the rope brings them 1 apart. *)
Lemma rope_repeats_until_updateLocation_witness :
  position
    (WRope.solve
       (WRope.mk 0 1 (Fin 5) (Fin 0))
       (WRope.solve
          (WRope.mk 0 1 (Fin 5) (Fin 0))
          (Scene.two (Scene.body 0 0 (Fin 1)) (Scene.body (0 + 9) 0 (Fin 1)))))
    0%nat
  = Vector2.mk (Fin 4) (Fin 0)
  /\ position
       (WRope.solve
          (WRope.mk 0 1 (Fin 5) (Fin 0))
          (WRope.solve
             (WRope.mk 0 1 (Fin 5) (Fin 0))
             (Scene.two (Scene.body 0 0 (Fin 1))
                        (Scene.body (0 + 9) 0 (Fin 1)))))
       1%nat
     = Vector2.mk (Fin 5) (Fin 0).
Proof.
  destruct (scene_overshoot 0 0 (Fin 1) (Fin 1) (Fin 0) truthy_one truthy_one)
    as [Htaut Hover].
  destruct (scene_two 0 0 (0 + 9) 0 (Fin 1) (Fin 1) truthy_one truthy_one)
    as [[Hpo Hpt] [_ [Hmo Hmt]]].
  destruct (rope_repeats_until_updateLocation
              (WRope.mk 0 1 (Fin 5) (Fin 0))
              (Scene.two (Scene.body 0 0 (Fin 1))
                         (Scene.body (0 + 9) 0 (Fin 1))))
    as [_ [_ [_ Htwice]]].
  destruct (Htwice Htaut _ _ (surjective_pairing _)) as [Ho Ht].
  cbn [WRope.owner WRope.target] in Ho, Ht.
  rewrite Hover, Hpo, Hmo, Hmt in Ho. rewrite Hover, Hpt, Hmo, Hmt in Ht.
  split.
  - rewrite Ho. num_eval; fin_eq.
  - rewrite Ht. num_eval; fin_eq.
Defined.

(** The shares of a rope between two bodies of which one at least has a
    finite mass are two finite numbers that add up to 1. *)
Lemma shares_whole (om tm : num) :
  Num.isFinite om = true \/ Num.isFinite tm = true ->
  om + tm <> Fin 0 ->
  exists r1 r2 : R,
    WRope.shares om tm = (Fin r1, Fin r2) /\ (r1 + r2 = 1)%R.
Proof.
  intros Hfin Hsum. unfold WRope.shares.
  destruct om as [ | | | mo], tm as [ | | | mt]; cbn [Num.isFinite];
    try (destruct Hfin; discriminate);
    try (exists 1%R, 0%R; split; [reflexivity | lra]);
    try (exists 0%R, 1%R; split; [reflexivity | lra]).
  cbn [Num.add] in *.
  assert (Hne : (mo + mt)%R <> 0%R) by (intros E; apply Hsum; f_equal; exact E).
  exists (mt / (mo + mt))%R, (mo / (mo + mt))%R. split.
  - cbn [Num.div]. destruct (Req_dec_T (mo + mt) 0); [contradiction | ].
    reflexivity.
  - field. exact Hne.
Qed.

(** X4.  A taut rope of length [L >= 0] between two bodies whose finite
    positions are those their global transforms hold (as they are after
    [updateLocation]), one at least of finite mass and the two masses not
    adding up to zero: after [solve] the two positions are exactly [L]
    apart (in exact arithmetic). *)
Theorem rope_restores_length (this : WRope.t) (s : store) (L : R) :
  let o := WRope.owner this in
  let t := WRope.target this in
  WRope.length this = Fin L -> (0 <= L)%R ->
  finite_vector (position s o) = true ->
  finite_vector (position s t) = true ->
  global_position s o = position s o ->
  global_position s t = position s t ->
  Num.isFinite (WPhysicsModel.mass (s o)) = true
  \/ Num.isFinite (WPhysicsModel.mass (s t)) = true ->
  WPhysicsModel.mass (s o) + WPhysicsModel.mass (s t) <> Fin 0 ->
  (rope_diff this s >? WRope.length this) = true ->
  Vector2.size (Vector2.dif (position (WRope.solve this s) t)
                            (position (WRope.solve this s) o))
  = Fin L.
Proof.
  cbv zeta. intros HL HL0 Hfo Hft Hgo Hgt Hfin Hsum Htaut.
  destruct (rope_moves this s Htaut) as [Ho Ht].
  destruct (shares_whole _ _ Hfin Hsum) as [r1 [r2 [Hsh Hr]]].
  rewrite Hsh in Ho, Ht. cbn [fst snd] in Ho, Ht.
  rewrite Ho, Ht.
  unfold rope_overshoot, rope_diff, rope_dir in *.
  rewrite Hgo, Hgt in *.
  destruct (finite_vector_Fin _ Hfo) as [a [b Hpo]].
  destruct (finite_vector_Fin _ Hft) as [c [d Hpt]].
  rewrite Hpo, Hpt in *. rewrite HL in *.
  clear Ho Ht Hsh Hpo Hpt Hgo Hgt Hfo Hft Hfin Hsum HL.
  unfold Vector2.dif, Vector2.size, Vector2.scale, Vector2.sum, Vector2.vec2
    in *.
  cbn [Vector2.x Vector2.y NumExtra.default Num.sub Num.neg Num.add Num.hypot
       fold_left] in *.
  set (D := R_sqrt.sqrt ((c + - a) * (c + - a) + (d + - b) * (d + - b))) in *.
  unfold Num.gtb in Htaut. cbn [Num.ltb] in Htaut.
  destruct (Rlt_dec L D) as [HLD | ]; [ | discriminate].
  cbn [Num.div]. destruct (Req_dec_T D 0) as [ | HD]; [exfalso; lra | ].
  cbn [Num.mul Num.add Num.neg Vector2.x Vector2.y].
  unfold Num.sub. cbn [Num.add Num.neg Num.hypot]. apply (f_equal Fin).
  replace (c + (c + - a) * ((D + - L) / D) * - r2
           + - (a + (c + - a) * ((D + - L) / D) * r1))%R
    with ((c + - a) * (L / D))%R.
  2:{ replace r1 with (1 - r2)%R by lra. field. exact HD. }
  replace (d + (d + - b) * ((D + - L) / D) * - r2
           + - (b + (d + - b) * ((D + - L) / D) * r1))%R
    with ((d + - b) * (L / D))%R.
  2:{ replace r1 with (1 - r2)%R by lra. field. exact HD. }
  rewrite sqrt_scaled.
  - fold D. field. exact HD.
  - apply Rmult_le_pos; [exact HL0 | ].
    left. apply Rinv_0_lt_compat. lra.
Qed.

(** The theorem at a body of mass 1 and a body of mass 3, 9 apart and
    joined by a rope of length 5. *)
Lemma rope_restores_length_witness :
  Vector2.size
    (Vector2.dif
       (position
          (WRope.solve
             (WRope.mk 0 1 (Fin 5) (Fin 0))
             (Scene.two (Scene.body 0 0 (Fin 1))
                        (Scene.body (0 + 9) 0 (Fin 3))))
          1%nat)
       (position
          (WRope.solve
             (WRope.mk 0 1 (Fin 5) (Fin 0))
             (Scene.two (Scene.body 0 0 (Fin 1))
                        (Scene.body (0 + 9) 0 (Fin 3))))
          0%nat))
  = Fin 5.
Proof.
  assert (H3 : Num.truthy (Fin 3) = true) by (apply truthy_finite; lra).
  destruct (scene_overshoot 0 0 (Fin 1) (Fin 3) (Fin 0) truthy_one H3)
    as [Htaut _].
  destruct (scene_two 0 0 (0 + 9) 0 (Fin 1) (Fin 3) truthy_one H3)
    as [[Hpo Hpt] [[Hgo Hgt] [Hmo Hmt]]].
  apply (rope_restores_length
           (WRope.mk 0 1 (Fin 5) (Fin 0))
           (Scene.two (Scene.body 0 0 (Fin 1)) (Scene.body (0 + 9) 0 (Fin 3)))
           5);
    cbn [WRope.owner WRope.target WRope.length].
  - reflexivity.
  - lra.
  - rewrite Hpo. reflexivity.
  - rewrite Hpt. reflexivity.
  - rewrite Hgo, Hpo. reflexivity.
  - rewrite Hgt, Hpt. reflexivity.
  - left. rewrite Hmo. reflexivity.
  - rewrite Hmo, Hmt. cbn. intros E. injection E as E. lra.
  - exact Htaut.
Defined.

Lemma move_acceleration (b : WPhysicsModel) (d : Vector2) :
  WPhysicsModel.acceleration (WPhysicsModel.move b d)
  = WPhysicsModel.acceleration b.
Proof. reflexivity. Qed.

Lemma applyAcceleration_acceleration (b : WPhysicsModel) (a : Vector2) :
  WPhysicsModel.acceleration (WPhysicsModel.applyAcceleration b a)
  = Vector2.add (WPhysicsModel.acceleration b) [a].
Proof. reflexivity. Qed.

(** What [solve] adds to the accelerations when the rope is taut and joins
    two bodies. *)
Lemma rope_bounces (this : WRope.t) (s : store) :
  WRope.owner this <> WRope.target this ->
  (rope_diff this s >? WRope.length this) = true ->
  let r1 := fst (WRope.shares (WPhysicsModel.mass (s (WRope.owner this)))
                              (WPhysicsModel.mass (s (WRope.target this)))) in
  let r2 := snd (WRope.shares (WPhysicsModel.mass (s (WRope.owner this)))
                              (WPhysicsModel.mass (s (WRope.target this)))) in
  WPhysicsModel.acceleration (WRope.solve this s (WRope.owner this))
  = Vector2.add (WPhysicsModel.acceleration (s (WRope.owner this)))
                [Vector2.scale (Vector2.scale (rope_overshoot this s) r1)
                               (WRope.bounce this)]
  /\ WPhysicsModel.acceleration (WRope.solve this s (WRope.target this))
     = Vector2.add (WPhysicsModel.acceleration (s (WRope.target this)))
                   [Vector2.scale (Vector2.scale (rope_overshoot this s) (- r2))
                                  (WRope.bounce this)].
Proof.
  intros Hne Hlong r1 r2.
  unfold WRope.solve.
  fold (global_position s (WRope.target this))
       (global_position s (WRope.owner this)).
  fold (rope_dir this s). fold (rope_diff this s).
  rewrite Hlong. fold (rope_overshoot this s).
  destruct (WRope.shares _ _) as [q1 q2] eqn:Hq. cbn [fst snd] in r1, r2.
  subst r1 r2. split.
  - rewrite (call_other _ (WRope.target this)) by exact Hne.
    rewrite call_same, applyAcceleration_acceleration.
    rewrite (call_other _ (WRope.target this)) by exact Hne.
    rewrite call_same, move_acceleration. reflexivity.
  - rewrite call_same, applyAcceleration_acceleration.
    rewrite (call_other _ (WRope.owner this)) by (apply not_eq_sym, Hne).
    rewrite call_same, move_acceleration.
    rewrite (call_other _ (WRope.owner this)) by (apply not_eq_sym, Hne).
    reflexivity.
Qed.

(** A taut rope of non-negative length joins two distinct bodies, when the
    global translations it reads are finite. *)
Lemma taut_rope_joins_two (this : WRope.t) (s : store) (L : R) :
  WRope.length this = Fin L -> (0 <= L)%R ->
  finite_vector (global_position s (WRope.owner this)) = true ->
  (rope_diff this s >? WRope.length this) = true ->
  WRope.owner this <> WRope.target this.
Proof.
  intros HL HL0 Hfin Htaut Heq.
  unfold rope_diff, rope_dir in Htaut. rewrite <- Heq, HL in Htaut.
  destruct (finite_vector_Fin _ Hfin) as [a [b Hg]].
  rewrite Hg, dif_self_finite, size_origin in Htaut.
  unfold Num.gtb in Htaut. cbn [Num.ltb] in Htaut.
  destruct (Rlt_dec L 0); [lra | discriminate].
Qed.

(** X5.  A taut rope of finite length [L >= 0] and finite bounce between
    two bodies of finite masses [mo] and [mt] with [mo + mt <> 0], all of
    whose translations and accelerations are finite: [solve] keeps the
    mass-weighted sum of the two positions (the centre of mass) and the
    mass-weighted sum of the two accelerations (it adds no net impulse), in
    exact arithmetic. *)
Theorem rope_keeps_centre_of_mass
        (this : WRope.t) (s : store) (L mo mt : R) :
  let o := WRope.owner this in
  let t := WRope.target this in
  WRope.length this = Fin L -> (0 <= L)%R ->
  WPhysicsModel.mass (s o) = Fin mo -> WPhysicsModel.mass (s t) = Fin mt ->
  (mo + mt)%R <> 0%R ->
  finite_vector (global_position s o) = true ->
  finite_vector (global_position s t) = true ->
  finite_vector (position s o) = true ->
  finite_vector (position s t) = true ->
  finite_vector (WPhysicsModel.acceleration (s o)) = true ->
  finite_vector (WPhysicsModel.acceleration (s t)) = true ->
  Num.isFinite (WRope.bounce this) = true ->
  (rope_diff this s >? WRope.length this) = true ->
  weighted (position (WRope.solve this s) o) (Fin mo)
           (position (WRope.solve this s) t) (Fin mt)
  = weighted (position s o) (Fin mo) (position s t) (Fin mt)
  /\ weighted (WPhysicsModel.acceleration (WRope.solve this s o)) (Fin mo)
              (WPhysicsModel.acceleration (WRope.solve this s t)) (Fin mt)
     = weighted (WPhysicsModel.acceleration (s o)) (Fin mo)
                (WPhysicsModel.acceleration (s t)) (Fin mt).
Proof.
  cbv zeta. intros HL HL0 Hmo Hmt Hsum Hgo Hgt Hpo Hpt Hao Hat Hb Htaut.
  pose proof (taut_rope_joins_two this s L HL HL0 Hgo Htaut) as Hne.
  destruct (rope_moves this s Htaut) as [Ho Ht].
  destruct (rope_bounces this s Hne Htaut) as [Ho' Ht'].
  rewrite Ho, Ht, Ho', Ht'. clear Ho Ht Ho' Ht'.
  rewrite Hmo, Hmt.
  unfold rope_overshoot, rope_diff, rope_dir in *.
  destruct (finite_vector_Fin _ Hgo) as [a [b Ego]].
  destruct (finite_vector_Fin _ Hgt) as [c [d Egt]].
  destruct (finite_vector_Fin _ Hpo) as [pa [pb Epo]].
  destruct (finite_vector_Fin _ Hpt) as [pc [pd Ept]].
  destruct (finite_vector_Fin _ Hao) as [aa [ab Eao]].
  destruct (finite_vector_Fin _ Hat) as [ac [ad Eat]].
  destruct (NumFacts.isFinite_Fin _ Hb) as [k Ek].
  rewrite Ego, Egt, Epo, Ept, Eao, Eat, Ek, HL in *.
  clear Ego Egt Epo Ept Eao Eat Ek HL Hgo Hgt Hpo Hpt Hao Hat Hb Hmo Hmt.
  unfold WRope.shares, weighted, Vector2.dif, Vector2.size, Vector2.scale,
    Vector2.sum, Vector2.add, Vector2.vec2 in *.
  cbn [Vector2.x Vector2.y NumExtra.default Num.sub Num.neg Num.add Num.hypot
       Num.isFinite fold_left fst snd] in *.
  unfold Num.sub in *.
  cbn [Vector2.x Vector2.y NumExtra.default Num.sub Num.neg Num.add Num.hypot
       Num.isFinite fold_left fst snd] in *.
  set (D := R_sqrt.sqrt ((c + - a) * (c + - a) + (d + - b) * (d + - b))) in *.
  unfold Num.gtb in Htaut. cbn [Num.ltb] in Htaut.
  destruct (Rlt_dec L D) as [HLD | ]; [ | discriminate].
  cbn [Num.div]. destruct (Req_dec_T D 0) as [ | HD]; [exfalso; lra | ].
  destruct (Req_dec_T (mo + mt) 0) as [ | _]; [contradiction | ].
  cbn [Num.mul Num.add Num.neg Vector2.x Vector2.y fst snd].
  split; apply f_equal2; apply (f_equal Fin); field; auto.
Qed.

Lemma body_acceleration (x y : R) (m : num) :
  WPhysicsModel.acceleration (Scene.body x y m)
  = Vector2.mk (Fin 0) (Fin 0).
Proof. reflexivity. Qed.

(** The theorem at a body of mass 1 at (0, 0) and a body of mass 3 at
    (9, 0), joined by a rope of length 5 and bounce 2: the weighted sum of
    the positions stays (27, 0), and that of the accelerations (0, 0). *)
Lemma rope_keeps_centre_of_mass_witness :
  weighted
    (position
       (WRope.solve
          (WRope.mk 0 1 (Fin 5) (Fin 2))
          (Scene.two (Scene.body 0 0 (Fin 1)) (Scene.body (0 + 9) 0 (Fin 3))))
       0%nat)
    (Fin 1)
    (position
       (WRope.solve
          (WRope.mk 0 1 (Fin 5) (Fin 2))
          (Scene.two (Scene.body 0 0 (Fin 1)) (Scene.body (0 + 9) 0 (Fin 3))))
       1%nat)
    (Fin 3)
  = Vector2.mk (Fin 27) (Fin 0)
  /\ weighted
       (WPhysicsModel.acceleration
          (WRope.solve
             (WRope.mk 0 1 (Fin 5) (Fin 2))
             (Scene.two (Scene.body 0 0 (Fin 1))
                        (Scene.body (0 + 9) 0 (Fin 3)))
             0%nat))
       (Fin 1)
       (WPhysicsModel.acceleration
          (WRope.solve
             (WRope.mk 0 1 (Fin 5) (Fin 2))
             (Scene.two (Scene.body 0 0 (Fin 1))
                        (Scene.body (0 + 9) 0 (Fin 3)))
             1%nat))
       (Fin 3)
     = Vector2.mk (Fin 0) (Fin 0).
Proof.
  assert (H3 : Num.truthy (Fin 3) = true) by (apply truthy_finite; lra).
  destruct (scene_overshoot 0 0 (Fin 1) (Fin 3) (Fin 2) truthy_one H3)
    as [Htaut _].
  destruct (scene_two 0 0 (0 + 9) 0 (Fin 1) (Fin 3) truthy_one H3)
    as [[Hpo Hpt] [[Hgo Hgt] [Hmo Hmt]]].
  destruct (rope_keeps_centre_of_mass
              (WRope.mk 0 1 (Fin 5) (Fin 2))
              (Scene.two (Scene.body 0 0 (Fin 1))
                         (Scene.body (0 + 9) 0 (Fin 3)))
              5 1 3) as [Hpos Hacc];
    cbn [WRope.owner WRope.target WRope.length WRope.bounce];
    try (rewrite ?Hpo, ?Hpt, ?Hgo, ?Hgt; reflexivity);
    try assumption; try lra.
  cbn [WRope.owner WRope.target] in Hpos, Hacc.
  rewrite Hpos, Hacc, Hpo, Hpt, two_first, two_second, !body_acceleration.
  unfold weighted, Vector2.scale, Vector2.sum, Vector2.vec2; cbn.
  split; fin_eq.
Defined.

(** ** The limit constraints: what holds after [solve] *)

(** [LimitDistanceConstraint.solve] leaves the local transforms and the
    bodies other than the owner alone. *)
Lemma limit_distance_frame (this : LimitDistanceConstraint.t) (s : store)
      (q : ref) :
  WPhysicsModel.local (LimitDistanceConstraint.solve this s q)
  = WPhysicsModel.local (s q)
  /\ (q <> LimitDistanceConstraint.owner this ->
      LimitDistanceConstraint.solve this s q = s q).
Proof.
  unfold LimitDistanceConstraint.solve. cbv zeta.
  destruct (LimitDistanceConstraint.breached _ _); [ | auto].
  split.
  - unfold call, upd. destruct (Nat.eqb q _) eqn:E; [ | reflexivity].
    apply Nat.eqb_eq in E. subst q. reflexivity.
  - intros Hq. apply call_other, Hq.
Qed.

Lemma limit_distance_at_rest (this : LimitDistanceConstraint.t) (s : store) :
  LimitDistanceConstraint.breached
    (LimitDistanceConstraint.clampRegion this) (limit_violation this s)
  = false ->
  LimitDistanceConstraint.solve this s = s.
Proof.
  intros Hb. unfold LimitDistanceConstraint.solve.
  fold (limit_dir this s). fold (limit_dist this s).
  fold (limit_violation this s). rewrite Hb. reflexivity.
Qed.

(** No region is breached by a violation of zero. *)
Lemma not_breached_at_zero (region : string) (z : R) :
  z = 0%R -> LimitDistanceConstraint.breached region (Fin z) = false.
Proof.
  intros ->. unfold LimitDistanceConstraint.breached, Num.gtb, Num.zero.
  cbn [Num.ltb Num.strict_neq].
  destruct (Rlt_dec 0 0); [exfalso; lra | ].
  destruct (Req_dec_T 0 0); [ | exfalso; lra].
  rewrite !andb_false_r. reflexivity.
Qed.

(** X6.  A [LimitDistanceConstraint] of distance [D >= 0] whose owner is
    read in its global transform: when the region is breached and the two
    resolved translations are a finite, non-zero distance apart, the owner
    is exactly [D] away from the target after [solve] (in exact
    arithmetic), and a second [solve] changes nothing. *)
Theorem limit_distance_reaches_distance
        (this : LimitDistanceConstraint.t) (s : store) (r D : R) :
  let s' := LimitDistanceConstraint.solve this s in
  String.eqb (LimitDistanceConstraint.ownerRelativity this) "local" = false ->
  LimitDistanceConstraint.breached
    (LimitDistanceConstraint.clampRegion this) (limit_violation this s)
  = true ->
  limit_dist this s = Fin r -> r <> 0%R ->
  LimitDistanceConstraint.distance this = Fin D -> (0 <= D)%R ->
  limit_dist this s' = Fin D
  /\ LimitDistanceConstraint.solve this s' = s'.
Proof.
  cbv zeta. intros Hrel Hb Hdist Hr HD HD0.
  pose proof (limit_distance_breached this s Hb) as Hmove.
  assert (Hviol : limit_violation this s = Fin (r + - D)).
  { unfold limit_violation. rewrite Hdist, HD. reflexivity. }
  rewrite Hviol, Hdist in Hmove.
  pose proof Hdist as Hsize. unfold limit_dist in Hsize.
  destruct (size_finite _ _ Hsize) as [a [b [Hdir Hab]]].
  assert (Hpos : (0 < r)%R).
  { pose proof (sqrt_pos (a * a + b * b)). lra. }
  rewrite Hdir in Hmove.
  pose proof Hdir as Hdir0. unfold limit_dir in Hdir0.
  rewrite (select_not_local _ _ Hrel) in Hdir0.
  destruct (dif_finite _ _ _ _ Hdir0) as [tx [ty [ox [oy [HT [HO [Ha Hb']]]]]]].
  fold (global_position s (LimitDistanceConstraint.owner this)) in HO.
  rewrite HO in Hmove.
  (* the target's translation is where it was *)
  assert (HT' : WTransformMatrix3.get_t
                  (select (LimitDistanceConstraint.targetRelativity this)
                     (LimitDistanceConstraint.solve this s
                        (LimitDistanceConstraint.target this)))
                = Vector2.mk (Fin tx) (Fin ty)).
  { rewrite <- HT.
    destruct (limit_distance_frame this s (LimitDistanceConstraint.target this))
      as [Hlocal Hother].
    destruct (Nat.eq_dec (LimitDistanceConstraint.target this)
                         (LimitDistanceConstraint.owner this)) as [Heq | Hne].
    - destruct (String.eqb (LimitDistanceConstraint.targetRelativity this)
                           "local") eqn:Etrel.
      + rewrite !(select_is_local _ _ Etrel), Hlocal. reflexivity.
      + exfalso. rewrite (select_not_local _ _ Etrel), Heq in HT.
        unfold global_position in HO. rewrite HO in HT.
        injection HT as Hx Hy. apply Hr. rewrite Hab, Ha, Hb', Hx, Hy.
        replace ((tx + - tx) * (tx + - tx) + (ty + - ty) * (ty + - ty))%R
          with 0%R by ring.
        apply sqrt_0.
    - rewrite (Hother Hne). reflexivity. }
  assert (Hdist' : limit_dist this (LimitDistanceConstraint.solve this s)
                   = Fin D).
  { unfold limit_dist, limit_dir.
    rewrite (select_not_local _ _ Hrel), HT'.
    fold (global_position (LimitDistanceConstraint.solve this s)
                          (LimitDistanceConstraint.owner this)).
    rewrite Hmove.
    unfold Vector2.dif, Vector2.size, Vector2.scale, Vector2.sum, Vector2.vec2.
    cbn [Vector2.x Vector2.y NumExtra.default fold_left Num.div].
    destruct (Req_dec_T r 0) as [ | _]; [contradiction | ].
    unfold Num.sub. cbn [Num.mul Num.add Num.neg Num.hypot Vector2.x Vector2.y].
    apply (f_equal Fin).
    replace (tx + - (a * ((r + - D) / r) + ox))%R with (a * (D / r))%R
      by (rewrite Ha; field; exact Hr).
    replace (ty + - (b * ((r + - D) / r) + oy))%R with (b * (D / r))%R
      by (rewrite Hb'; field; exact Hr).
    rewrite sqrt_scaled.
    - rewrite <- Hab. field. exact Hr.
    - apply Rmult_le_pos; [exact HD0 | ].
      left. apply Rinv_0_lt_compat, Hpos. }
  split; [exact Hdist' | ].
  apply limit_distance_at_rest.
  unfold limit_violation. rewrite Hdist', HD.
  unfold Num.sub; cbn [Num.neg Num.add].
  apply not_breached_at_zero. ring.
Qed.

(** The theorem at a body 9 away from its target and kept on the circle of
    radius 5 around it. *)
Lemma limit_distance_reaches_distance_witness :
  limit_dist
    (LimitDistanceConstraint.mk 0 1 (Fin 5) "surface" "global" "global")
    (LimitDistanceConstraint.solve
       (LimitDistanceConstraint.mk 0 1 (Fin 5) "surface" "global" "global")
       (Scene.two (Scene.body 0 0 (Fin 1)) (Scene.body 9 0 (Fin 1))))
  = Fin 5
  /\ LimitDistanceConstraint.solve
       (LimitDistanceConstraint.mk 0 1 (Fin 5) "surface" "global" "global")
       (LimitDistanceConstraint.solve
          (LimitDistanceConstraint.mk 0 1 (Fin 5) "surface" "global" "global")
          (Scene.two (Scene.body 0 0 (Fin 1)) (Scene.body 9 0 (Fin 1))))
     = LimitDistanceConstraint.solve
         (LimitDistanceConstraint.mk 0 1 (Fin 5) "surface" "global" "global")
         (Scene.two (Scene.body 0 0 (Fin 1)) (Scene.body 9 0 (Fin 1))).
Proof.
  pose proof (scene_limit_dir 0 9 0 (Fin 5) "surface") as Hdir.
  replace (9 - 0)%R with 9%R in Hdir by ring.
  pose proof (limit_dist_unfold
                (LimitDistanceConstraint.mk 0 1 (Fin 5) "surface" "global"
                                            "global")
                (Scene.two (Scene.body 0 0 (Fin 1)) (Scene.body 9 0 (Fin 1))))
    as Hdist.
  rewrite Hdir, size_along_x in Hdist by lra.
  apply (limit_distance_reaches_distance
           (LimitDistanceConstraint.mk 0 1 (Fin 5) "surface" "global" "global")
           (Scene.two (Scene.body 0 0 (Fin 1)) (Scene.body 9 0 (Fin 1)))
           9 5).
  - reflexivity.
  - rewrite limit_violation_unfold, Hdist. num_eval; reflexivity.
  - exact Hdist.
  - lra.
  - reflexivity.
  - lra.
Defined.

(** One axis of a full clamp between bounds that do not cross: the
    coordinate it gives violates neither bound, and clamping it again gives
    it back. *)
Lemma clamp_axis_settles (a : R) (mn mx : num) :
  (mx <? mn) = false ->
  let a' :=
    Fin a + LimitLocationConstraint.correction (mn - Fin a) (mx - Fin a)
            * Num.one in
  (a' <? mn) = false /\ (mx <? a') = false
  /\ a' + LimitLocationConstraint.correction (mn - a') (mx - a') * Num.one
     = a'.
Proof.
  intros Hcross. cbv zeta.
  unfold LimitLocationConstraint.correction.
  destruct mn as [ | | | mn], mx as [ | | | mx];
    try discriminate Hcross; num_unfold; sign_cases;
    try discriminate Hcross;
    num_unfold; sign_cases; conj_split;
    try reflexivity; try (exfalso; lra); try (apply (f_equal Fin); lra).
Qed.

(** [solve] is a call of [translate] on the global transform of the owner,
    with the translation that the owner ends with. *)
Lemma limit_location_translates
      (this : LimitLocationConstraint.t) (s : store) :
  LimitLocationConstraint.solve this s
  = call s (LimitLocationConstraint.owner this)
         (fun b =>
            WPhysicsModel.set_global b
              (WTransformMatrix3.translate (WPhysicsModel.global b)
                 (Vector2.x
                    (global_position (LimitLocationConstraint.solve this s)
                                     (LimitLocationConstraint.owner this)))
                 (Vector2.y
                    (global_position (LimitLocationConstraint.solve this s)
                                     (LimitLocationConstraint.owner this))))).
Proof.
  unfold global_position, LimitLocationConstraint.solve. cbv zeta.
  rewrite call_same. reflexivity.
Qed.

(** X7.  In exact arithmetic (the sum [tx + (bound - tx)] is the bound; no
    rounding, no overflow): a [LimitLocationConstraint] of influence 1 whose
    owner is read in its global transform, at a finite translation, with
    bounds that do not cross on either axis ([max < min] is false): after
    [solve] the global translation of the owner violates none of the four
    bounds, and a second [solve] changes nothing, in any body. *)
Theorem limit_location_settles
        (this : LimitLocationConstraint.t) (s : store) :
  let owner := LimitLocationConstraint.owner this in
  let mn := LimitLocationConstraint.min this in
  let mx := LimitLocationConstraint.max this in
  let s' := LimitLocationConstraint.solve this s in
  let after := global_position s' owner in
  LimitLocationConstraint.influence this = Fin 1 ->
  String.eqb (LimitLocationConstraint.ownerRelativity this) "local" = false ->
  finite_vector (global_position s owner) = true ->
  (Vector2.x mx <? Vector2.x mn) = false ->
  (Vector2.y mx <? Vector2.y mn) = false ->
  ((Vector2.x after <? Vector2.x mn) = false
   /\ (Vector2.x mx <? Vector2.x after) = false
   /\ (Vector2.y after <? Vector2.y mn) = false
   /\ (Vector2.y mx <? Vector2.y after) = false)
  /\ forall q : ref, LimitLocationConstraint.solve this s' q = s' q.
Proof.
  cbv zeta. intros Hinf Hrel Hfin Hx Hy.
  pose proof (limit_location_effect this s) as Hafter.
  assert (Hbase : baseline this s
                  = global_position s (LimitLocationConstraint.owner this)).
  { unfold baseline. rewrite (select_not_local _ _ Hrel). reflexivity. }
  rewrite Hbase, Hinf in Hafter.
  destruct (finite_vector_Fin _ Hfin) as [a [b Hg]].
  rewrite Hg in Hafter. cbn [Vector2.x Vector2.y] in Hafter.
  change (Fin 1) with Num.one in Hafter.
  destruct (clamp_axis_settles a _ _ Hx) as [Hx1 [Hx2 Hx3]].
  destruct (clamp_axis_settles b _ _ Hy) as [Hy1 [Hy2 Hy3]].
  split.
  - rewrite Hafter. cbn [Vector2.x Vector2.y]. auto.
  - intros q.
    pose proof (limit_location_effect
                  this (LimitLocationConstraint.solve this s)) as Hagain.
    assert (Hbase' : baseline this (LimitLocationConstraint.solve this s)
                     = global_position (LimitLocationConstraint.solve this s)
                         (LimitLocationConstraint.owner this)).
    { unfold baseline. rewrite (select_not_local _ _ Hrel). reflexivity. }
    rewrite Hbase', Hinf, Hafter in Hagain.
    cbn [Vector2.x Vector2.y] in Hagain.
    change (Fin 1) with Num.one in Hagain.
    rewrite Hx3, Hy3, <- Hafter in Hagain.
    rewrite (limit_location_translates
               this (LimitLocationConstraint.solve this s)), Hagain.
    set (P := global_position (LimitLocationConstraint.solve this s)
                              (LimitLocationConstraint.owner this)).
    rewrite (limit_location_translates this s). fold P.
    apply call_again. intros g. reflexivity.
Qed.

(** The theorem at a body at (9, 3) kept to the left of x = 5: it ends on
    the bound, and stays there. *)
Lemma limit_location_settles_witness :
  (Fin 5
   <? Vector2.x
        (global_position
           (LimitLocationConstraint.solve
              (LimitLocationConstraint.mk 0 (Fin 1) "global"
                 (Vector2.mk NInf NInf) (Vector2.mk (Fin 5) PInf))
              (Scene.two (Scene.body 9 3 (Fin 1)) (Scene.body 0 0 (Fin 1))))
           0%nat))
  = false
  /\ LimitLocationConstraint.solve
       (LimitLocationConstraint.mk 0 (Fin 1) "global"
          (Vector2.mk NInf NInf) (Vector2.mk (Fin 5) PInf))
       (LimitLocationConstraint.solve
          (LimitLocationConstraint.mk 0 (Fin 1) "global"
             (Vector2.mk NInf NInf) (Vector2.mk (Fin 5) PInf))
          (Scene.two (Scene.body 9 3 (Fin 1)) (Scene.body 0 0 (Fin 1))))
       0%nat
     = LimitLocationConstraint.solve
         (LimitLocationConstraint.mk 0 (Fin 1) "global"
            (Vector2.mk NInf NInf) (Vector2.mk (Fin 5) PInf))
         (Scene.two (Scene.body 9 3 (Fin 1)) (Scene.body 0 0 (Fin 1)))
         0%nat.
Proof.
  destruct (scene_two 9 3 0 0 (Fin 1) (Fin 1) truthy_one truthy_one)
    as [_ [[Hgo _] _]].
  destruct (limit_location_settles
              (LimitLocationConstraint.mk 0 (Fin 1) "global"
                 (Vector2.mk NInf NInf) (Vector2.mk (Fin 5) PInf))
              (Scene.two (Scene.body 9 3 (Fin 1)) (Scene.body 0 0 (Fin 1))))
    as [[_ [Hx _]] Hagain];
    cbn [LimitLocationConstraint.owner LimitLocationConstraint.min
         LimitLocationConstraint.max LimitLocationConstraint.influence
         LimitLocationConstraint._influence
         LimitLocationConstraint.ownerRelativity Vector2.x Vector2.y];
    try reflexivity.
  - rewrite Hgo. reflexivity.
  - split; [exact Hx | apply Hagain].
Defined.

(** ** Angles: [fromDegree], [rotation] and the getters of a transform *)

Section Turns.

Local Open Scope R_scope.

(** [Num.Ratan2] gives angles of (-PI, PI]. *)
Lemma Ratan2_range (x y : R) : - PI < Num.Ratan2 y x <= PI.
Proof.
  pose proof PI_RGT_0 as Hpi.
  unfold Num.Ratan2.
  destruct (Rlt_dec 0 x) as [Hx | Hx].
  - pose proof (atan_bound (y / x)). lra.
  - destruct (Rlt_dec x 0) as [Hx' | Hx'].
    + destruct (Rlt_dec y 0) as [Hy | Hy].
      * assert (0 < y / x).
        { replace (y / x) with (- y * / - x) by (field; lra).
          apply Rmult_lt_0_compat; [lra | apply Rinv_0_lt_compat; lra]. }
        pose proof (atan_bound (y / x)).
        assert (0 < atan (y / x)).
        { rewrite <- atan_0. apply atan_increasing. assumption. }
        lra.
      * assert (y / x <= 0).
        { replace (y / x) with (- (y * / - x)) by (field; lra).
          assert (0 <= y * / - x).
          { apply Rmult_le_pos; [lra | left; apply Rinv_0_lt_compat; lra]. }
          lra. }
        pose proof (atan_bound (y / x)).
        assert (atan (y / x) <= 0).
        { destruct (Req_dec (y / x) 0) as [E | E].
          - rewrite E, atan_0. lra.
          - left. rewrite <- atan_0. apply atan_increasing. lra. }
        lra.
    + destruct (Rlt_dec 0 y); [lra | ].
      destruct (Rlt_dec y 0); lra.
Qed.

(** Two angles of (-PI, PI] with the same cosine and the same sine are
    one angle. *)
Lemma angle_unique (a b : R) :
  - PI < a <= PI -> - PI < b <= PI ->
  cos a = cos b -> sin a = sin b -> a = b.
Proof.
  intros Ha Hb Hc Hs.
  pose proof PI_RGT_0 as Hpi.
  assert (Hsin : sin (a - b) = 0).
  { rewrite sin_minus, Hc, Hs. ring. }
  assert (Hcos : cos (a - b) = 1).
  { rewrite cos_minus, Hc, Hs.
    pose proof (sin2_cos2 b) as H. unfold Rsqr in H. lra. }
  destruct (Rle_dec 0 (a - b)) as [Hpos | Hneg].
  - destruct (sin_eq_O_2PI_0 (a - b) Hpos ltac:(lra) Hsin) as [E | [E | E]].
    + lra.
    + rewrite E, cos_PI in Hcos. lra.
    + lra.
  - assert (Hsin' : sin (b - a) = 0).
    { replace (b - a) with (- (a - b)) by ring. rewrite sin_neg, Hsin. ring. }
    assert (Hcos' : cos (b - a) = 1).
    { replace (b - a) with (- (a - b)) by ring. rewrite cos_neg. exact Hcos. }
    destruct (sin_eq_O_2PI_0 (b - a) ltac:(lra) ltac:(lra) Hsin')
      as [E | [E | E]].
    + lra.
    + rewrite E, cos_PI in Hcos'. lra.
    + lra.
Qed.

(** The angle of the point at the angle [a] and the distance [l > 0]. *)
Lemma Ratan2_polar (a l : R) :
  - PI < a <= PI -> 0 < l -> Num.Ratan2 (l * sin a) (l * cos a) = a.
Proof.
  intros Ha Hl.
  assert (Hone : l * cos a * (l * cos a) + l * sin a * (l * sin a) = l * l).
  { pose proof (sin2_cos2 a) as H. unfold Rsqr in H. nra. }
  assert (Hne : l * cos a * (l * cos a) + l * sin a * (l * sin a) <> 0)
    by (rewrite Hone; nra).
  destruct (Ratan2_cos_sin _ _ Hne) as [Hc Hs].
  rewrite Hone, sqrt_square in Hc, Hs by lra.
  apply angle_unique.
  - apply Ratan2_range.
  - exact Ha.
  - rewrite Hc. field. lra.
  - rewrite Hs. field. lra.
Qed.

(** Scaling a point by a positive factor keeps its angle. *)
Lemma Ratan2_scaled (x y q : R) :
  0 < q -> Num.Ratan2 (y * q) (x * q) = Num.Ratan2 y x.
Proof.
  intros Hq.
  destruct (Req_dec (x * x + y * y) 0) as [Hz | Hnz].
  - assert (x = 0 /\ y = 0) as [-> ->] by (split; nra).
    rewrite !Rmult_0_l. reflexivity.
  - assert (Hnz' : x * q * (x * q) + y * q * (y * q) <> 0).
    { replace (x * q * (x * q) + y * q * (y * q))
        with ((x * x + y * y) * (q * q)) by ring.
      apply Rmult_integral_contrapositive. split; nra. }
    destruct (Ratan2_cos_sin _ _ Hnz) as [Hc Hs].
    destruct (Ratan2_cos_sin _ _ Hnz') as [Hc' Hs'].
    assert (Hlen : sqrt (x * q * (x * q) + y * q * (y * q))
                   = sqrt (x * x + y * y) * q).
    { apply sqrt_scaled. lra. }
    assert (Hpos : 0 < sqrt (x * x + y * y)) by (apply sqrt_lt_R0; nra).
    apply angle_unique; try apply Ratan2_range.
    + rewrite Hc, Hc', Hlen. field. lra.
    + rewrite Hs, Hs', Hlen. field. lra.
Qed.

Lemma hypot_polar (a l : R) :
  sqrt (l * cos a * (l * cos a) + l * sin a * (l * sin a)) = Rabs l.
Proof.
  replace (l * cos a * (l * cos a) + l * sin a * (l * sin a)) with (Rsqr l).
  - apply sqrt_Rsqr_abs.
  - pose proof (sin2_cos2 a) as H. unfold Rsqr in *. nra.
Qed.

End Turns.

(** X8.  The vector [fromDegree (a, l)] of math.ts has the length [|l|];
    for an angle [a] of (-PI, PI] and a length [l > 0] its [rotation] is
    [a], and so is that of [fromDegree (a)] (in exact arithmetic). *)
Theorem fromDegree_length_and_rotation (a l : R) :
  let v := Vector2.fromDegree (Fin a) (Some (Fin l)) in
  Vector2.length v = Fin (Rabs l)
  /\ ((- PI < a <= PI)%R -> (0 < l)%R -> Vector2.rotation v = Fin a)
  /\ ((- PI < a <= PI)%R ->
      Vector2.rotation (Vector2.fromDegree (Fin a) None) = Fin a).
Proof.
  cbv zeta.
  unfold Vector2.fromDegree, Vector2.length, Vector2.rotation, Vector2.vec2.
  cbn [NumExtra.default Num.cos Num.sin Num.mul Vector2.x Vector2.y Num.hypot
       Num.atan2].
  conj_split.
  - apply (f_equal Fin), hypot_polar.
  - intros Ha Hl. apply (f_equal Fin), Ratan2_polar; assumption.
  - intros Ha. unfold Num.one.
    cbn [Num.mul Vector2.x Vector2.y Num.atan2].
    apply (f_equal Fin), Ratan2_polar; [assumption | lra].
Qed.

Lemma one_is_an_angle : (- PI < 1 <= PI)%R.
Proof. pose proof PI2_1. lra. Qed.

(** The theorem at the angle 1 and the length 2. *)
Lemma fromDegree_length_and_rotation_witness :
  Vector2.rotation (Vector2.fromDegree (Fin 1) (Some (Fin 2))) = Fin 1
  /\ Vector2.rotation (Vector2.fromDegree (Fin 1) None) = Fin 1.
Proof.
  destruct (fromDegree_length_and_rotation 1 2) as [_ [Hr Hd]].
  split.
  - apply Hr; [exact one_is_an_angle | lra].
  - apply Hd. exact one_is_an_angle.
Defined.

Lemma sum_squares_zero (x y : R) :
  (x * x + y * y = 0)%R -> x = 0%R /\ y = 0%R.
Proof. intros H. split; nra. Qed.

(** X9.  A vector with finite components is the vector that [fromDegree]
    builds from its [rotation] and its [length] (in exact arithmetic): the
    polar form of a vector loses nothing, the null vector included. *)
Theorem polar_round_trip (v : Vector2) :
  finite_vector v = true ->
  Vector2.fromDegree (Vector2.rotation v) (Some (Vector2.length v)) = v.
Proof.
  intros Hfin. destruct (finite_vector_Fin _ Hfin) as [x [y ->]].
  unfold Vector2.fromDegree, Vector2.length, Vector2.rotation, Vector2.vec2.
  cbn [NumExtra.default Num.cos Num.sin Num.mul Vector2.x Vector2.y Num.hypot
       Num.atan2].
  destruct (Req_dec (x * x + y * y) 0) as [Hz | Hnz].
  - destruct (sum_squares_zero x y Hz) as [-> ->].
    replace (0 * 0 + 0 * 0)%R with 0%R by ring. rewrite sqrt_0.
    apply f_equal2; apply (f_equal Fin); ring.
  - destruct (Ratan2_cos_sin x y Hnz) as [Hc Hs].
    assert (Hpos : (0 < R_sqrt.sqrt (x * x + y * y))%R)
      by (apply sqrt_lt_R0; nra).
    rewrite Hc, Hs.
    apply f_equal2; apply (f_equal Fin); field; lra.
Qed.

(** The theorem at the vector (-3, 4). *)
Lemma polar_round_trip_witness :
  Vector2.fromDegree (Vector2.rotation (Vector2.mk (Fin (-3)) (Fin 4)))
                     (Some (Vector2.length (Vector2.mk (Fin (-3)) (Fin 4))))
  = Vector2.mk (Fin (-3)) (Fin 4).
Proof.
  apply (polar_round_trip (Vector2.mk (Fin (-3)) (Fin 4))). reflexivity.
Defined.

(** The angle of the direction that [fromDegree] gives to an angle of
    (-PI, PI] is that angle. *)
Lemma rotation_fromDegree (a : R) :
  (- PI < a <= PI)%R ->
  Vector2.rotation (Vector2.fromDegree (Fin a) None) = Fin a.
Proof.
  intros Ha.
  unfold Vector2.fromDegree, Vector2.rotation, Vector2.vec2, Num.one.
  cbn [NumExtra.default Num.cos Num.sin Num.mul Vector2.x Vector2.y
       Num.atan2].
  apply (f_equal Fin), Ratan2_polar; [assumption | lra].
Qed.

(** The arc tangent of the tangent of an angle of (-PI/2, PI/2). *)
Lemma atan_of_tan (k : R) :
  (- (PI / 2) < k < PI / 2)%R -> Num.atan (Num.tan (Fin k)) = Fin k.
Proof.
  intros Hk. unfold Num.tan. cbn [Num.sin Num.cos Num.div].
  assert (Hcos : (0 < Rtrigo_def.cos k)%R) by (apply cos_gt_0; lra).
  destruct (Req_dec_T (Rtrigo_def.cos k) 0) as [E | _]; [exfalso; lra | ].
  cbn [Num.atan]. apply (f_equal Fin).
  change (Rtrigo_def.sin k / Rtrigo_def.cos k)%R with (Rtrigo1.tan k).
  apply atan_tan. lra.
Qed.

Lemma sum_none (v : Vector2) : Vector2.sum v [] = v.
Proof. destruct v; reflexivity. Qed.

Lemma r_rotate (m : WTransformMatrix3) (a : R) :
  (- PI < a <= PI)%R ->
  WTransformMatrix3.r (WTransformMatrix3.rotate m (Fin a) None) = Fin a.
Proof.
  intros Ha.
  unfold WTransformMatrix3.rotate, WTransformMatrix3.r,
    WTransformMatrix3.calcMatrix.
  cbn [WTransformMatrix3._direct Vector2.iter].
  apply rotation_fromDegree, Ha.
Qed.

(** X10.  A transform built with a translation, a scale, a rotation [a] of
    (-PI, PI] and a skew [k] of (-PI/2, PI/2) gives each of them back
    through the getters [t], [s], [r] and [k]; and on any transform [r]
    gives back the angle passed to [rotate], [k] the angle passed to
    [skew] (in exact arithmetic). *)
Theorem transform_reports_its_parameters
        (translate scale : Vector2) (a k : R) (m : WTransformMatrix3) :
  (- PI < a <= PI)%R -> (- (PI / 2) < k < PI / 2)%R ->
  let built :=
    WTransformMatrix3.new
      (WTransformMatrix3.mkOptions (Some translate) (Some (Fin a))
                                   (Some (Fin k)) (Some scale)) in
  (WTransformMatrix3.get_t built = translate
   /\ WTransformMatrix3.r built = Fin a
   /\ WTransformMatrix3.k built = Fin k
   /\ WTransformMatrix3.s built = scale)
  /\ WTransformMatrix3.r (WTransformMatrix3.rotate m (Fin a) None) = Fin a
  /\ WTransformMatrix3.k (WTransformMatrix3.skew m (Fin k)) = Fin k.
Proof.
  intros Ha Hk. cbv zeta.
  unfold WTransformMatrix3.new, WTransformMatrix3.rotate,
    WTransformMatrix3.skew, WTransformMatrix3.get_t, WTransformMatrix3.r,
    WTransformMatrix3.k, WTransformMatrix3.s, WTransformMatrix3.calcMatrix.
  cbn [WTransformMatrix3.o_translate WTransformMatrix3.o_rotate
       WTransformMatrix3.o_skew WTransformMatrix3.o_scale NumExtra.default
       WTransformMatrix3._translate WTransformMatrix3._direct
       WTransformMatrix3._skew WTransformMatrix3._scale Vector2.iter].
  rewrite !sum_none, !rotation_fromDegree, !atan_of_tan by assumption.
  conj_split; reflexivity.
Qed.

Lemma one_is_a_skew : (- (PI / 2) < 1 < PI / 2)%R.
Proof. pose proof PI2_1. lra. Qed.

(** The theorem at the translation (4, 5), the scale (2, 3), the rotation 1
    and the skew 1. *)
Lemma transform_reports_its_parameters_witness :
  let built :=
    WTransformMatrix3.new
      (WTransformMatrix3.mkOptions
         (Some (Vector2.mk (Fin 4) (Fin 5))) (Some (Fin 1)) (Some (Fin 1))
         (Some (Vector2.mk (Fin 2) (Fin 3)))) in
  WTransformMatrix3.get_t built = Vector2.mk (Fin 4) (Fin 5)
  /\ WTransformMatrix3.r built = Fin 1
  /\ WTransformMatrix3.k built = Fin 1
  /\ WTransformMatrix3.s built = Vector2.mk (Fin 2) (Fin 3).
Proof.
  intros built.
  apply (transform_reports_its_parameters
           (Vector2.mk (Fin 4) (Fin 5)) (Vector2.mk (Fin 2) (Fin 3)) 1 1
           built one_is_an_angle one_is_a_skew).
Defined.

(** ** The copy constraints *)

Lemma times_sign (invert : bool) (c : num) :
  c * (if invert then Fin (-1) else Fin 1) = mirrored invert c.
Proof.
  destruct invert, c as [ | | | r]; unfold mirrored; num_unfold; sign_cases;
    try reflexivity; try (exfalso; lra); apply (f_equal Fin); ring.
Qed.

Lemma copy_axis (invert offset : bool) (t o : num) :
  t * (if invert then Fin (-1) else Fin 1) + (if offset then o else Num.zero)
  = copied_sum invert offset t o.
Proof.
  rewrite times_sign. unfold copied_sum. destruct offset; [reflexivity | ].
  apply NumFacts.add_0_r.
Qed.

Lemma copy_factor (offset : bool) (t o : num) :
  t * (if offset then o else Num.one) = copied_product offset t o.
Proof.
  unfold copied_product. destruct offset; [reflexivity | ].
  apply NumFacts.mul_1_r.
Qed.

(** X11.  [CopyLocationConstraint.solve] gives each enabled axis of the
    owner's global translation the target's coordinate, as it is
    (infinities and NaN included), negated when [invert] is set on the
    axis, plus the owner's own coordinate when [offset] is set; it leaves
    a disabled axis, and the rotation, scale and skew of the transform, as
    they were. *)
Theorem copy_location_copies_enabled_axes
        (this : CopyLocationConstraint.t) (s : store) :
  let owner := CopyLocationConstraint.owner this in
  let t :=
    WTransformMatrix3.get_t
      (select (CopyLocationConstraint.targetRelativity this)
              (s (CopyLocationConstraint.target this))) in
  let o :=
    WTransformMatrix3.get_t
      (select (CopyLocationConstraint.ownerRelativity this) (s owner)) in
  let before := WPhysicsModel.global (s owner) in
  let after :=
    WPhysicsModel.global (CopyLocationConstraint.solve this s owner) in
  WTransformMatrix3.tx after
  = (if fst (CopyLocationConstraint.axes this)
     then copied_sum (fst (CopyLocationConstraint.invert this))
                     (CopyLocationConstraint.offset this)
                     (Vector2.x t) (Vector2.x o)
     else WTransformMatrix3.tx before)
  /\ WTransformMatrix3.ty after
     = (if snd (CopyLocationConstraint.axes this)
        then copied_sum (snd (CopyLocationConstraint.invert this))
                        (CopyLocationConstraint.offset this)
                        (Vector2.y t) (Vector2.y o)
        else WTransformMatrix3.ty before)
  /\ WTransformMatrix3.r after = WTransformMatrix3.r before
  /\ WTransformMatrix3.s after = WTransformMatrix3.s before
  /\ WTransformMatrix3.kt after = WTransformMatrix3.kt before.
Proof.
  cbv zeta. unfold CopyLocationConstraint.solve. cbv zeta.
  rewrite !copy_axis.
  destruct (fst (CopyLocationConstraint.axes this)),
    (snd (CopyLocationConstraint.axes this));
    rewrite ?call_same; conj_split; reflexivity.
Qed.

(** X12.  [CopyScaleConstraint.solve] gives each enabled axis of the
    owner's global scale the target's factor, as it is, times the owner's
    own factor when [offset] is set; it leaves a disabled axis, and the
    translation, rotation and skew of the transform, as they were. *)
Theorem copy_scale_copies_enabled_axes
        (this : CopyScaleConstraint.t) (s : store) :
  let owner := CopyScaleConstraint.owner this in
  let t :=
    WTransformMatrix3.s
      (select (CopyScaleConstraint.targetRelativity this)
              (s (CopyScaleConstraint.target this))) in
  let o :=
    WTransformMatrix3.s
      (select (CopyScaleConstraint.ownerRelativity this) (s owner)) in
  let before := WPhysicsModel.global (s owner) in
  let after :=
    WPhysicsModel.global (CopyScaleConstraint.solve this s owner) in
  WTransformMatrix3.sx after
  = (if fst (CopyScaleConstraint.axes this)
     then copied_product (CopyScaleConstraint.offset this)
                         (Vector2.x t) (Vector2.x o)
     else WTransformMatrix3.sx before)
  /\ WTransformMatrix3.sy after
     = (if snd (CopyScaleConstraint.axes this)
        then copied_product (CopyScaleConstraint.offset this)
                            (Vector2.y t) (Vector2.y o)
        else WTransformMatrix3.sy before)
  /\ WTransformMatrix3.r after = WTransformMatrix3.r before
  /\ WTransformMatrix3.get_t after = WTransformMatrix3.get_t before
  /\ WTransformMatrix3.kt after = WTransformMatrix3.kt before.
Proof.
  cbv zeta. unfold CopyScaleConstraint.solve. cbv zeta.
  rewrite !copy_factor.
  destruct (fst (CopyScaleConstraint.axes this)),
    (snd (CopyScaleConstraint.axes this));
    rewrite ?call_same; conj_split; reflexivity.
Qed.

(** A direction with finite components has an angle of (-PI, PI]. *)
Lemma rotation_range (v : Vector2) :
  finite_vector v = true ->
  exists a : R, Vector2.rotation v = Fin a /\ (- PI < a <= PI)%R.
Proof.
  intros Hfin. destruct (finite_vector_Fin _ Hfin) as [x [y ->]].
  exists (Num.Ratan2 y x). split; [reflexivity | apply Ratan2_range].
Qed.

(** X13.  [CopyRotationConstraint.solve] without [invert] and [offset],
    on a target whose direction vector has finite components: afterwards
    the getter [r] of the owner's global transform gives the angle that it
    gives on the target's transform (in exact arithmetic), and the
    translation, scale and skew of the owner's transform are as they
    were. *)
Theorem copy_rotation_copies_the_angle
        (this : CopyRotationConstraint.t) (s : store) :
  let owner := CopyRotationConstraint.owner this in
  let t :=
    select (CopyRotationConstraint.targetRelativity this)
           (s (CopyRotationConstraint.target this)) in
  let before := WPhysicsModel.global (s owner) in
  let after :=
    WPhysicsModel.global (CopyRotationConstraint.solve this s owner) in
  CopyRotationConstraint.invert this = false ->
  CopyRotationConstraint.offset this = false ->
  finite_vector (WTransformMatrix3._direct t) = true ->
  WTransformMatrix3.r after = WTransformMatrix3.r t
  /\ WTransformMatrix3.get_t after = WTransformMatrix3.get_t before
  /\ WTransformMatrix3.s after = WTransformMatrix3.s before
  /\ WTransformMatrix3.kt after = WTransformMatrix3.kt before.
Proof.
  cbv zeta. intros Hinv Hoff Hfin.
  unfold CopyRotationConstraint.solve. cbv zeta.
  rewrite Hinv, Hoff, call_same.
  destruct (rotation_range _ Hfin) as [a [Ha Hrange]].
  set (t := select (CopyRotationConstraint.targetRelativity this)
                   (s (CopyRotationConstraint.target this))) in *.
  assert (Hr : WTransformMatrix3.r t = Fin a) by exact Ha.
  rewrite Hr.
  replace (Fin a * Fin 1 + Num.zero) with (Fin a)
    by (unfold Num.zero; cbn; apply (f_equal Fin); ring).
  conj_split; try reflexivity.
  apply r_rotate, Hrange.
Qed.

(** The theorem at a body that copies the rotation of a body turned by the
    angle 1. *)
Lemma copy_rotation_copies_the_angle_witness :
  WTransformMatrix3.r
    (WPhysicsModel.global
       (CopyRotationConstraint.solve
          (CopyRotationConstraint.mk 0 1 false false "global" "global")
          (Scene.two (Scene.body 0 0 (Fin 1)) Scene.turned)
          0%nat))
  = Fin 1.
Proof.
  destruct (copy_rotation_copies_the_angle
              (CopyRotationConstraint.mk 0 1 false false "global" "global")
              (Scene.two (Scene.body 0 0 (Fin 1)) Scene.turned))
    as [Hr _]; try reflexivity.
  cbn [CopyRotationConstraint.owner CopyRotationConstraint.target
       CopyRotationConstraint.targetRelativity] in Hr.
  rewrite Hr, select_global, two_second.
  apply r_rotate, one_is_an_angle.
Defined.

(** ** WPhysicsModel.updateLocation *)

(** X14.  On a body whose mass is finite and not zero and whose position,
    velocity, acceleration and force are finite, [updateLocation (dt)] is
    a step of the semi-implicit Euler method (in exact arithmetic): the
    velocity gains [(acceleration + force / mass) * dt], the position then
    gains the new velocity times [dt], and the global translation is the
    local one. *)
Theorem updateLocation_is_semi_implicit_euler
        (b : WPhysicsModel) (m dt px py vx vy ax ay fx fy : R) :
  let b' := WPhysicsModel.updateLocation b (Fin dt) in
  WPhysicsModel.mass b = Fin m -> m <> 0%R ->
  WTransformMatrix3.get_t (WPhysicsModel.local b)
  = Vector2.mk (Fin px) (Fin py) ->
  WPhysicsModel.velocity b = Vector2.mk (Fin vx) (Fin vy) ->
  WPhysicsModel.acceleration b = Vector2.mk (Fin ax) (Fin ay) ->
  WPhysicsModel.force b = Vector2.mk (Fin fx) (Fin fy) ->
  WPhysicsModel.velocity b'
  = Vector2.mk (Fin (vx + (ax + fx / m) * dt))
               (Fin (vy + (ay + fy / m) * dt))
  /\ WTransformMatrix3.get_t (WPhysicsModel.local b')
     = Vector2.mk (Fin (px + (vx + (ax + fx / m) * dt) * dt))
                  (Fin (py + (vy + (ay + fy / m) * dt) * dt))
  /\ WTransformMatrix3.get_t (WPhysicsModel.global b')
     = WTransformMatrix3.get_t (WPhysicsModel.local b').
Proof.
  cbv zeta. intros Hm Hm0 Hp Hv Ha Hf.
  assert (Hstep :
            WPhysicsModel.velocity (WPhysicsModel.updateLocation b (Fin dt))
            = Vector2.add
                (WPhysicsModel.velocity b)
                [Vector2.scale
                   (Vector2.add
                      (WPhysicsModel.acceleration b)
                      [Vector2.scale (WPhysicsModel.force b)
                                     (Num.one / WPhysicsModel.mass b)])
                   (Fin dt)]
            /\ WTransformMatrix3.get_t
                 (WPhysicsModel.local
                    (WPhysicsModel.updateLocation b (Fin dt)))
               = Vector2.sum
                   (WTransformMatrix3.get_t (WPhysicsModel.local b))
                   [Vector2.scale
                      (WPhysicsModel.velocity
                         (WPhysicsModel.updateLocation b (Fin dt)))
                      (Fin dt)])
    by (split; reflexivity).
  destruct Hstep as [Hvel Hpos].
  assert (Hv' : WPhysicsModel.velocity
                  (WPhysicsModel.updateLocation b (Fin dt))
                = Vector2.mk (Fin (vx + (ax + fx / m) * dt))
                             (Fin (vy + (ay + fy / m) * dt))).
  { rewrite Hvel, Hm, Hv, Ha, Hf, one_over_finite by exact Hm0.
    unfold Vector2.scale, Vector2.add, Vector2.vec2.
    cbn [Vector2.x Vector2.y NumExtra.default fold_left Num.mul Num.add].
    apply f_equal2; apply (f_equal Fin); field; exact Hm0. }
  conj_split.
  - exact Hv'.
  - rewrite Hpos, Hv', Hp. reflexivity.
  - apply updateLocation_syncs_global.
Qed.

(** The theorem at a body of mass 2 at (3, 4) that moves at (1, 2) under
    the acceleration (1, 1) and the force (4, 6), for a step of 2: it ends
    at (17, 24) with the velocity (7, 10). *)
Lemma updateLocation_is_semi_implicit_euler_witness :
  WPhysicsModel.velocity (WPhysicsModel.updateLocation Scene.flying (Fin 2))
  = Vector2.mk (Fin 7) (Fin 10)
  /\ WTransformMatrix3.get_t
       (WPhysicsModel.local (WPhysicsModel.updateLocation Scene.flying (Fin 2)))
     = Vector2.mk (Fin 17) (Fin 24).
Proof.
  destruct (updateLocation_is_semi_implicit_euler
              Scene.flying 2 2 3 4 1 2 1 1 4 6)
    as [Hv [Hp _]]; try reflexivity; try lra.
  rewrite Hv, Hp. split; fin_eq.
Defined.

Lemma finite_times_zero (v : Vector2) :
  finite_vector v = true ->
  Vector2.scale v (Fin 0) = Vector2.mk (Fin 0) (Fin 0).
Proof.
  intros Hfin. destruct (finite_vector_Fin _ Hfin) as [a [b ->]].
  unfold Vector2.scale, Vector2.vec2; cbn.
  apply f_equal2; apply (f_equal Fin); ring.
Qed.

(** X15.  A body of infinite mass ignores a finite force: whatever the
    step, [updateLocation] leaves it in the state it would leave it in had
    no force been applied. *)
Theorem infinite_mass_ignores_force (b : WPhysicsModel) (dt : num) :
  WPhysicsModel.mass b = PInf \/ WPhysicsModel.mass b = NInf ->
  finite_vector (WPhysicsModel.force b) = true ->
  WPhysicsModel.updateLocation b dt
  = WPhysicsModel.updateLocation
      (WPhysicsModel.set_force b (vec2 Num.zero None)) dt.
Proof.
  intros Hm Hf.
  assert (Hinv : Num.one / WPhysicsModel.mass b = Fin 0)
    by (destruct Hm as [-> | ->]; reflexivity).
  unfold WPhysicsModel.updateLocation, WPhysicsModel.applyAcceleration.
  cbn [WPhysicsModel.set_force WPhysicsModel.force WPhysicsModel.mass
       WPhysicsModel.acceleration].
  rewrite Hinv, (finite_times_zero _ Hf).
  rewrite (finite_times_zero (vec2 Num.zero None)) by reflexivity.
  reflexivity.
Qed.

(** The theorem at the body of infinite mass built at the origin and pushed
    by (5, 6), for a step of 1. *)
Lemma infinite_mass_ignores_force_witness :
  WPhysicsModel.updateLocation Scene.anchored (Fin 1)
  = WPhysicsModel.updateLocation
      (WPhysicsModel.set_force Scene.anchored (vec2 Num.zero None)) (Fin 1).
Proof.
  apply (infinite_mass_ignores_force Scene.anchored (Fin 1)).
  - left. reflexivity.
  - reflexivity.
Defined.

(** ** The two representations of a transform *)

Section Factoring.

Local Open Scope R_scope.

(** The four coefficients of a matrix whose determinant is not zero. *)
Variables a b c d : R.
Hypothesis regular : a * d - b * c <> 0.

Let l1 := sqrt (a * a + b * b).
Let l2 := sqrt (c * c + d * d).
Let dx := a * (1 / l1).
Let dy := b * (1 / l1).
Let sk := Num.Ratan2 d c + - (PI / 2) + - Num.Ratan2 dy dx.

Lemma columns_not_null : 0 < a * a + b * b /\ 0 < c * c + d * d.
Proof.
  split.
  - destruct (Req_dec a 0) as [Ea | Ea].
    + destruct (Req_dec b 0) as [Eb | Eb]; [ | nra].
      exfalso. apply regular. rewrite Ea, Eb. ring.
    + nra.
  - destruct (Req_dec c 0) as [Ec | Ec].
    + destruct (Req_dec d 0) as [Ed | Ed]; [ | nra].
      exfalso. apply regular. rewrite Ec, Ed. ring.
    + nra.
Qed.

Lemma first_column_positive : 0 < l1.
Proof. apply sqrt_lt_R0, columns_not_null. Qed.

Lemma second_column_positive : 0 < l2.
Proof. apply sqrt_lt_R0, columns_not_null. Qed.

Lemma first_column_square : l1 * l1 = a * a + b * b.
Proof. apply sqrt_sqrt. pose proof columns_not_null. lra. Qed.

Lemma second_column_square : l2 * l2 = c * c + d * d.
Proof. apply sqrt_sqrt. pose proof columns_not_null. lra. Qed.

Lemma first_column_angle :
  cos (Num.Ratan2 dy dx) = a / l1 /\ sin (Num.Ratan2 dy dx) = b / l1.
Proof.
  pose proof first_column_positive as H1.
  pose proof first_column_square as Hsq.
  assert (Hunit : dx * dx + dy * dy = 1).
  { unfold dx, dy.
    replace (a * (1 / l1) * (a * (1 / l1)) + b * (1 / l1) * (b * (1 / l1)))
      with ((a * a + b * b) / (l1 * l1)) by (field; lra).
    rewrite <- Hsq. field. lra. }
  destruct (Ratan2_cos_sin dx dy) as [Hc Hs].
  - rewrite Hunit. lra.
  - rewrite Hc, Hs, Hunit, sqrt_1. unfold dx, dy. split; field; lra.
Qed.

Lemma second_column_direction :
  cos (Num.Ratan2 d c) = c / l2 /\ sin (Num.Ratan2 d c) = d / l2.
Proof.
  pose proof second_column_positive as H2.
  destruct (Ratan2_cos_sin c d) as [Hc Hs].
  - pose proof columns_not_null. lra.
  - fold l2 in Hc, Hs. auto.
Qed.

(** The angle between the two columns, less a quarter turn. *)
Lemma between_columns :
  cos sk * (l1 * l2) = a * d - b * c
  /\ sin sk * (l1 * l2) = - (a * c + b * d).
Proof.
  pose proof first_column_positive as H1.
  pose proof second_column_positive as H2.
  destruct first_column_angle as [HcB HsB].
  destruct second_column_direction as [HcA HsA].
  unfold sk.
  replace (Num.Ratan2 d c + - (PI / 2) + - Num.Ratan2 dy dx)
    with (Num.Ratan2 d c - PI / 2 - Num.Ratan2 dy dx) by ring.
  repeat (rewrite cos_minus || rewrite sin_minus).
  rewrite cos_PI2, sin_PI2, HcA, HsA, HcB, HsB.
  split; field; lra.
Qed.

Lemma between_columns_regular : cos sk <> 0.
Proof.
  destruct between_columns as [Hc _]. intros E. rewrite E in Hc. lra.
Qed.

(** The coefficients that [calcMatrix] computes from the fields that
    [calcFields] reads in the matrix. *)
Lemma refactored :
  dx * l1 = a /\ dy * l1 = b
  /\ (dx * - (sin sk / cos sk) + - dy) * (l2 * cos sk) = c
  /\ (dy * - (sin sk / cos sk) + dx) * (l2 * cos sk) = d.
Proof.
  pose proof first_column_positive as H1.
  pose proof second_column_positive as H2.
  pose proof first_column_square as Hsq.
  pose proof between_columns_regular as Hreg.
  destruct between_columns as [Hc Hs].
  unfold dx, dy. conj_split.
  - field. lra.
  - field. lra.
  - transitivity ((- a * (sin sk * (l1 * l2)) - b * (cos sk * (l1 * l2)))
                  / (l1 * l1)).
    + field. split; [lra | exact Hreg].
    + rewrite Hs, Hc, Hsq. field. nra.
  - transitivity ((- b * (sin sk * (l1 * l2)) + a * (cos sk * (l1 * l2)))
                  / (l1 * l1)).
    + field. split; [lra | exact Hreg].
    + rewrite Hs, Hc, Hsq. field. nra.
Qed.

End Factoring.

(** X16.  For coefficients [a, b, c, d] whose determinant [a * d - b * c]
    is not zero, the fields that [matrix (a, b, c, d, e, f)] reads in the
    coefficients give the same coefficients back when [calcMatrix]
    recomputes them (in exact arithmetic): a later call of a method that
    sets a field keeps the part of the matrix it does not set. *)
Theorem calcMatrix_calcFields_roundtrip
        (m : WTransformMatrix3) (a b c d : R) (e f : num) :
  (a * d - b * c <> 0)%R ->
  WTransformMatrix3._data
    (WTransformMatrix3.calcMatrix
       (WTransformMatrix3.matrix m (Some (Fin a)) (Some (Fin b))
                                 (Some (Fin c)) (Some (Fin d))
                                 (Some e) (Some f)))
  = mkData (Fin a) (Fin b) Num.zero (Fin c) (Fin d) Num.zero e f Num.one.
Proof.
  intros Hreg.
  pose proof (first_column_positive a b c d Hreg) as H1.
  pose proof (between_columns_regular a b c d Hreg) as Hcos.
  destruct (refactored a b c d Hreg) as [Ea [Eb [Ec Ed]]].
  cbv zeta in H1, Hcos, Ea, Eb, Ec, Ed.
  unfold WTransformMatrix3.matrix, WTransformMatrix3.calcFields,
    WTransformMatrix3.calcMatrix.
  cbn [NumExtra.default d0 d1 d3 d4 d6 d7 WTransformMatrix3._data
       WTransformMatrix3._translate WTransformMatrix3._direct
       WTransformMatrix3._skew WTransformMatrix3._scale Vector2.iter].
  unfold Vector2.norm, Vector2.length, Vector2.scale, Vector2.rotation,
    Vector2.vec2, NumExtra.sq, Num.pi.
  cbn [Vector2.x Vector2.y NumExtra.default Num.hypot].
  rewrite one_over_finite by lra.
  cbn [Num.mul Num.add Vector2.x Vector2.y Num.atan2 Num.sqrt].
  unfold Num.sub. cbn [Num.div Num.neg Num.add].
  destruct (Req_dec_T 2 0) as [ | _]; [exfalso; lra | ].
  cbn [Num.neg Num.add].
  set (sk := (Num.Ratan2 d c + - (PI / 2)
              + - Num.Ratan2 (b * (1 / R_sqrt.sqrt (a * a + b * b)))
                             (a * (1 / R_sqrt.sqrt (a * a + b * b))))%R) in *.
  unfold Num.tan. cbn [Num.sin Num.cos Num.div].
  destruct (Req_dec_T (Rtrigo_def.cos sk) 0) as [ | _]; [contradiction | ].
  destruct (Rlt_dec (a * a + b * b) 0) as [ | _]; [exfalso; nra | ].
  destruct (Rlt_dec (c * c + d * d) 0) as [ | _]; [exfalso; nra | ].
  cbn [Num.neg Num.mul Num.add Vector2.x Vector2.y].
  rewrite Ea, Eb, Ec, Ed. reflexivity.
Qed.

(** The theorem at the coefficients 1, 2, 3, 4, 5, 6, written into a new
    transform. *)
Lemma calcMatrix_calcFields_roundtrip_witness :
  WTransformMatrix3._data
    (WTransformMatrix3.calcMatrix
       (WTransformMatrix3.matrix
          (WTransformMatrix3.new
             (WTransformMatrix3.mkOptions None None None None))
          (Some (Fin 1)) (Some (Fin 2)) (Some (Fin 3)) (Some (Fin 4))
          (Some (Fin 5)) (Some (Fin 6))))
  = mkData (Fin 1) (Fin 2) Num.zero (Fin 3) (Fin 4) Num.zero (Fin 5) (Fin 6)
           Num.one.
Proof.
  apply (calcMatrix_calcFields_roundtrip
           (WTransformMatrix3.new
              (WTransformMatrix3.mkOptions None None None None))
           1 2 3 4 (Fin 5) (Fin 6)).
  lra.
Defined.

Lemma run_keeps_affine (m : WTransformMatrix3) (c : Method.t) :
  affine m -> affine (Method.run m c).
Proof.
  intros [H2 [H5 H8]].
  destruct c; unfold affine; cbn; auto.
Qed.

Lemma new_is_affine (o : WTransformMatrix3.options) :
  affine (WTransformMatrix3.new o).
Proof. unfold affine; cbn; auto. Qed.

(** X17.  Whatever the options a transform is built with and whatever the
    methods of math.ts called on it afterwards, the last row of its
    coefficients stays (0, 0, 1); and after each call its fields and its
    coefficients agree: after a method that sets a field the coefficients
    are those [calcMatrix] computes from the fields, after [matrix],
    [calcFields] or a coefficient setter the fields are those [calcFields]
    reads in the coefficients. *)
Theorem transform_stays_affine_and_consistent
        (o : WTransformMatrix3.options) (cs : list Method.t) :
  affine (Method.run_all (WTransformMatrix3.new o) cs)
  /\ forall c : Method.t,
      let m := Method.run_all (WTransformMatrix3.new o) (cs ++ [c]) in
      if Method.sets_fields c
      then WTransformMatrix3.calcMatrix m = m
      else WTransformMatrix3.calcFields m = m.
Proof.
  split.
  - unfold Method.run_all.
    assert (H : forall m, affine m -> affine (fold_left Method.run cs m)).
    { induction cs as [ | c cs IH]; intros m Hm; [exact Hm | ].
      cbn [fold_left]. apply IH, run_keeps_affine, Hm. }
    apply H, new_is_affine.
  - intros c. cbv zeta. unfold Method.run_all. rewrite fold_left_app.
    cbn [fold_left].
    generalize (fold_left Method.run cs (WTransformMatrix3.new o)).
    intros m. destruct c; reflexivity.
Qed.

(** ** Vector2 *)

(** X18.  The getters [right] and [left] undo each other, [right] twice is
    [neg], and both keep the length, for every vector (infinite and NaN
    components included); on a vector whose product [x * y] of the two
    components, as [dot] computes it, is finite, they give a vector whose
    dot product with it is 0: [dot] adds that product to its opposite. *)
Theorem right_and_left_are_quarter_turns (v : Vector2) :
  Vector2.left (Vector2.right v) = v
  /\ Vector2.right (Vector2.left v) = v
  /\ Vector2.right (Vector2.right v) = Vector2.neg v
  /\ Vector2.length (Vector2.right v) = Vector2.length v
  /\ Vector2.length (Vector2.left v) = Vector2.length v
  /\ (Num.isFinite (Vector2.x v * Vector2.y v) = true ->
      Vector2.dot v (Vector2.right v) = Fin 0
      /\ Vector2.dot v (Vector2.left v) = Fin 0).
Proof.
  destruct v as [x y].
  unfold Vector2.left, Vector2.right, Vector2.neg, Vector2.length, Vector2.dot,
    Vector2.vec2.
  cbn [Vector2.x Vector2.y NumExtra.default].
  rewrite !NumFacts.neg_neg. conj_split; try reflexivity.
  - destruct x as [ | | | a], y as [ | | | b]; try reflexivity.
    cbn. apply (f_equal Fin), f_equal. ring.
  - destruct x as [ | | | a], y as [ | | | b]; try reflexivity.
    cbn. apply (f_equal Fin), f_equal. ring.
  - intros Hxy.
    assert (Hfin : exists a b : R, x = Fin a /\ y = Fin b).
    { destruct x as [ | | | a], y as [ | | | b];
        try (exists a, b; split; reflexivity);
        exfalso; revert Hxy; num_unfold; sign_cases; discriminate. }
    destruct Hfin as [a [b [-> ->]]].
    cbn. split; apply (f_equal Fin); ring.
Qed.

(** The theorem at the vector (3, 4), whose product of components is 12. *)
Lemma right_and_left_are_quarter_turns_witness :
  Vector2.dot (Vector2.mk (Fin 3) (Fin 4))
              (Vector2.right (Vector2.mk (Fin 3) (Fin 4)))
  = Fin 0
  /\ Vector2.dot (Vector2.mk (Fin 3) (Fin 4))
                 (Vector2.left (Vector2.mk (Fin 3) (Fin 4)))
     = Fin 0.
Proof.
  apply (right_and_left_are_quarter_turns (Vector2.mk (Fin 3) (Fin 4))).
  reflexivity.
Defined.

(** X19.  On vectors with finite components, [a.triProd (b)] is
    [a * (a . b) - b * (a . a)], which is the double cross product
    A x (A x B): a vector perpendicular to [a] (in exact arithmetic). *)
Theorem triProd_is_a_double_cross_product (a b : Vector2) :
  finite_vector a = true -> finite_vector b = true ->
  Vector2.triProd a b
  = Vector2.dif (Vector2.scale a (Vector2.dot a b))
                (Vector2.scale b (Vector2.dot a a))
  /\ Vector2.dot a (Vector2.triProd a b) = Fin 0.
Proof.
  intros Ha Hb.
  destruct (finite_vector_Fin _ Ha) as [ax [ay ->]].
  destruct (finite_vector_Fin _ Hb) as [bx [b_y ->]].
  unfold Vector2.triProd, Vector2.dif, Vector2.scale, Vector2.dot, Vector2.vec2.
  cbn [Vector2.x Vector2.y NumExtra.default].
  unfold Num.sub. cbn [Num.mul Num.add Num.neg Vector2.x Vector2.y].
  split.
  - apply f_equal2; apply (f_equal Fin); ring.
  - apply (f_equal Fin). ring.
Qed.

(** The theorem at the unit vectors of the two axes: the result is
    (0, -1), the opposite of the second one. *)
Lemma triProd_is_a_double_cross_product_witness :
  Vector2.triProd (Vector2.mk (Fin 1) (Fin 0)) (Vector2.mk (Fin 0) (Fin 1))
  = Vector2.mk (Fin 0) (Fin (-1)).
Proof.
  destruct (triProd_is_a_double_cross_product
              (Vector2.mk (Fin 1) (Fin 0)) (Vector2.mk (Fin 0) (Fin 1))
              eq_refl eq_refl) as [H _].
  rewrite H.
  unfold Vector2.dif, Vector2.scale, Vector2.dot, Vector2.vec2.
  cbn [Vector2.x Vector2.y NumExtra.default].
  unfold Num.sub. cbn [Num.mul Num.add Num.neg Vector2.x Vector2.y].
  fin_eq.
Defined.

(** X20.  For a vector with finite components and a length other than 0,
    [norm] has the length 1 and the rotation of the vector, and is its own
    [norm] (in exact arithmetic); the [norm] of a vector of length 0 is
    (NaN, NaN). *)
Theorem norm_keeps_the_direction (v : Vector2) :
  (finite_vector v = true -> Vector2.length v <> Fin 0 ->
   Vector2.length (Vector2.norm v) = Fin 1
   /\ Vector2.rotation (Vector2.norm v) = Vector2.rotation v
   /\ Vector2.norm (Vector2.norm v) = Vector2.norm v)
  /\ (Vector2.length v = Fin 0 -> Vector2.norm v = Vector2.mk NaN NaN).
Proof.
  split.
  - intros Hfin Hlen.
    destruct (finite_vector_Fin _ Hfin) as [x [y ->]].
    assert (Hl : Vector2.length (Vector2.mk (Fin x) (Fin y))
                 = Fin (R_sqrt.sqrt (x * x + y * y))) by reflexivity.
    assert (Hne : R_sqrt.sqrt (x * x + y * y) <> 0%R).
    { intros E. apply Hlen. rewrite Hl, E. reflexivity. }
    assert (Hpos : (0 < R_sqrt.sqrt (x * x + y * y))%R).
    { pose proof (sqrt_pos (x * x + y * y)). lra. }
    assert (Hunit : Vector2.length
                      (Vector2.norm (Vector2.mk (Fin x) (Fin y))) = Fin 1).
    { apply (norm_is_unit _ _ Hl Hne). }
    assert (Hnorm : Vector2.norm (Vector2.mk (Fin x) (Fin y))
                    = Vector2.mk (Fin (x * (1 / R_sqrt.sqrt (x * x + y * y))))
                                 (Fin (y * (1 / R_sqrt.sqrt (x * x + y * y))))).
    { unfold Vector2.norm. rewrite Hl, one_over_finite by exact Hne.
      reflexivity. }
    conj_split.
    + exact Hunit.
    + rewrite Hnorm. unfold Vector2.rotation.
      cbn [Vector2.x Vector2.y Num.atan2].
      apply (f_equal Fin), Ratan2_scaled.
      apply Rdiv_lt_0_compat; lra.
    + unfold Vector2.norm at 1. rewrite Hunit, Hnorm.
      rewrite one_over_finite by lra.
      unfold Vector2.scale, Vector2.vec2.
      cbn [Vector2.x Vector2.y NumExtra.default Num.mul].
      apply f_equal2; apply (f_equal Fin); field; exact Hne.
  - intros Hzero.
    pose proof (size_zero v Hzero) as Hv. subst v.
    unfold Vector2.norm. rewrite Hzero. num_eval; reflexivity.
Qed.

Lemma length_3_4 : Vector2.length (Vector2.mk (Fin 3) (Fin 4)) = Fin 5.
Proof.
  unfold Vector2.length; cbn [Vector2.x Vector2.y Num.hypot].
  apply (f_equal Fin).
  replace (3 * 3 + 4 * 4)%R with (5 * 5)%R by ring.
  apply sqrt_square. lra.
Qed.

(** The theorem at the vector (3, 4), and at the null vector. *)
Lemma norm_keeps_the_direction_witness :
  (Vector2.length (Vector2.norm (Vector2.mk (Fin 3) (Fin 4))) = Fin 1
   /\ Vector2.rotation (Vector2.norm (Vector2.mk (Fin 3) (Fin 4)))
      = Vector2.rotation (Vector2.mk (Fin 3) (Fin 4))
   /\ Vector2.norm (Vector2.norm (Vector2.mk (Fin 3) (Fin 4)))
      = Vector2.norm (Vector2.mk (Fin 3) (Fin 4)))
  /\ Vector2.norm (Vector2.mk (Fin 0) (Fin 0)) = Vector2.mk NaN NaN.
Proof.
  split.
  - apply (proj1 (norm_keeps_the_direction (Vector2.mk (Fin 3) (Fin 4)))).
    + reflexivity.
    + rewrite length_3_4. intros E. injection E as E. lra.
  - apply (proj2 (norm_keeps_the_direction (Vector2.mk (Fin 0) (Fin 0)))).
    exact size_origin.
Defined.

(** ** clamp *)

Ltac order_cases :=
  repeat (progress (cbn [Num.max Num.min Num.ltb] in *; sign_cases)).

Ltac order_close :=
  try reflexivity; try discriminate; try (exfalso; lra);
  try (apply (f_equal Fin); lra).

(** With bounds that do not cross, and no NaN. *)
Lemma clamp_ordered (v mn mx : num) :
  let c := clamp v mn mx in
  v <> NaN -> mn <> NaN -> mx <> NaN -> (mx <? mn) = false ->
  (c <? mn) = false
  /\ (mx <? c) = false
  /\ ((v <? mn) = false -> (mx <? v) = false -> c = v)
  /\ ((v <? mn) = true -> c = mn)
  /\ ((mx <? v) = true -> c = mx)
  /\ clamp c mn mx = c.
Proof.
  cbv zeta. intros Hv Hmn Hmx Hord. unfold clamp.
  destruct v as [ | | | v]; try contradiction;
    destruct mn as [ | | | mn]; try contradiction;
    destruct mx as [ | | | mx]; try contradiction;
    try discriminate Hord;
    order_cases; try discriminate Hord;
    conj_split; intros; order_cases; order_close.
Qed.

Lemma not_NaN (r : R) : Fin r <> NaN.
Proof. discriminate. Qed.

(** With bounds that cross, or a NaN. *)
Lemma clamp_crossed_or_NaN (v mn mx : num) :
  ((mx <? mn) = true -> v <> NaN -> clamp v mn mx = mx)
  /\ clamp NaN mn mx = NaN
  /\ clamp v NaN mx = NaN
  /\ clamp v mn NaN = NaN.
Proof.
  unfold clamp. conj_split.
  - intros Hcross Hv.
    destruct v as [ | | | v]; try contradiction;
      destruct mn as [ | | | mn]; try discriminate Hcross;
      destruct mx as [ | | | mx]; try discriminate Hcross;
      order_cases; order_close.
  - destruct mn, mx; reflexivity.
  - destruct v, mx; reflexivity.
  - destruct v as [ | | | v], mn as [ | | | mn]; try reflexivity.
    cbn. destruct (Rlt_dec mn v); reflexivity.
Qed.

(** X21.  For a value and bounds none of which is NaN, with bounds that do
    not cross ([max < min] is false): [clamp (value, min, max)] is below
    neither [min] nor above [max]; it is the value when the value is
    within the bounds, [min] when the value is below [min], [max] when it
    is above [max]; and clamping it again gives it back.  With bounds that
    cross ([max < min]), [clamp] returns [max] whatever the value, NaN
    apart; and it returns NaN as soon as the value or one of the bounds is
    NaN. *)
Theorem clamp_within_bounds_crossed_bounds_and_NaN (v mn mx : num) :
  (v <> NaN -> mn <> NaN -> mx <> NaN -> (mx <? mn) = false ->
   (clamp v mn mx <? mn) = false
   /\ (mx <? clamp v mn mx) = false
   /\ ((v <? mn) = false -> (mx <? v) = false -> clamp v mn mx = v)
   /\ ((v <? mn) = true -> clamp v mn mx = mn)
   /\ ((mx <? v) = true -> clamp v mn mx = mx)
   /\ clamp (clamp v mn mx) mn mx = clamp v mn mx)
  /\ ((mx <? mn) = true -> v <> NaN -> clamp v mn mx = mx)
  /\ clamp NaN mn mx = NaN
  /\ clamp v NaN mx = NaN
  /\ clamp v mn NaN = NaN.
Proof.
  split.
  - exact (clamp_ordered v mn mx).
  - exact (clamp_crossed_or_NaN v mn mx).
Qed.

(** The theorem at the value 7 and the bounds 0 and 5, and at the value 3
    and the crossed bounds 5 and 1. *)
Lemma clamp_within_bounds_crossed_bounds_and_NaN_witness :
  (clamp (Fin 7) (Fin 0) (Fin 5) = Fin 5
   /\ clamp (clamp (Fin 7) (Fin 0) (Fin 5)) (Fin 0) (Fin 5)
      = clamp (Fin 7) (Fin 0) (Fin 5))
  /\ clamp (Fin 3) (Fin 5) (Fin 1) = Fin 1.
Proof.
  assert (Hord : (Fin 5 <? Fin 0) = false).
  { cbn. destruct (Rlt_dec 5 0); [exfalso; lra | reflexivity]. }
  assert (Habove : (Fin 5 <? Fin 7) = true).
  { cbn. destruct (Rlt_dec 5 7); [reflexivity | exfalso; lra]. }
  assert (Hcross : (Fin 1 <? Fin 5) = true).
  { cbn. destruct (Rlt_dec 1 5); [reflexivity | exfalso; lra]. }
  split.
  - destruct (proj1 (clamp_within_bounds_crossed_bounds_and_NaN
                       (Fin 7) (Fin 0) (Fin 5))
                (not_NaN 7) (not_NaN 0) (not_NaN 5) Hord)
      as [_ [_ [_ [_ [Hmax Hagain]]]]].
    split; [exact (Hmax Habove) | exact Hagain].
  - exact (proj1 (proj2 (clamp_within_bounds_crossed_bounds_and_NaN
                           (Fin 3) (Fin 5) (Fin 1)))
             Hcross (not_NaN 3)).
Defined.

(* ================================================================= *)
(** ** narrowColor *)

Lemma digit_bound (c : ascii) (d : nat) :
  Color.digit c = Some d -> (d <= 15)%nat.
Proof.
  unfold Color.digit. cbv zeta.
  destruct (Nat.leb 48 _ && Nat.leb _ 57) eqn:H1.
  - apply andb_true_iff in H1 as [_ H1%Nat.leb_le].
    intros [= <-]. lia.
  - destruct (Nat.leb 65 _ && Nat.leb _ 70) eqn:H2.
    + apply andb_true_iff in H2 as [_ H2%Nat.leb_le].
      intros [= <-]. lia.
    + destruct (Nat.leb 97 _ && Nat.leb _ 102) eqn:H3; [|discriminate].
      apply andb_true_iff in H3 as [_ H3%Nat.leb_le].
      intros [= <-]. lia.
Qed.

Lemma digit_in_class (c : ascii) (d : nat) :
  Color.digit c = Some d -> Color.in_class c = true.
Proof.
  unfold Color.digit, Color.in_class. cbv zeta.
  set (n := nat_of_ascii c).
  destruct (Nat.leb 48 n) eqn:H48, (Nat.leb n 57) eqn:H57,
    (Nat.leb 65 n) eqn:H65, (Nat.leb n 70) eqn:H70,
    (Nat.leb 97 n) eqn:H97, (Nat.leb n 102) eqn:H102;
    cbn; try reflexivity; try discriminate;
    repeat match goal with
      | H : Nat.leb _ _ = true |- _ => apply Nat.leb_le in H
      | H : Nat.leb _ _ = false |- _ => apply Nat.leb_gt in H
      end; lia.
Qed.

Lemma fifteenth (r : R) : Fin r / Fin 15 = Fin (r / 15).
Proof.
  unfold Num.div. destruct (Req_dec_T 15 0) as [H | _]; [lra | reflexivity].
Qed.

Lemma two_hundred_fifty_fifth (r : R) : Fin r / Fin 255 = Fin (r / 255).
Proof.
  unfold Num.div. destruct (Req_dec_T 255 0) as [H | _]; [lra | reflexivity].
Qed.

(** X22.  A text made of [#] and three, four, six or eight hexadecimal digits
    is read digit by digit: with three or four digits each one is a channel,
    its value over 15; with six or eight each pair is a channel, its value
    over 255; and the alpha that the text leaves out is 1. *)
Theorem narrowColor_reads_hex_digits
  (c1 c2 c3 c4 c5 c6 c7 c8 : ascii) (d1 d2 d3 d4 d5 d6 d7 d8 : nat) :
  Color.digit c1 = Some d1 -> Color.digit c2 = Some d2 ->
  Color.digit c3 = Some d3 -> Color.digit c4 = Some d4 ->
  Color.digit c5 = Some d5 -> Color.digit c6 = Some d6 ->
  Color.digit c7 = Some d7 -> Color.digit c8 = Some d8 ->
  Color.narrowColor (Color.text (Hex.hash [c1; c2; c3]))
  = Returned [Hex.short d1; Hex.short d2; Hex.short d3; Num.one]
  /\ Color.narrowColor (Color.text (Hex.hash [c1; c2; c3; c4]))
     = Returned [Hex.short d1; Hex.short d2; Hex.short d3; Hex.short d4]
  /\ Color.narrowColor (Color.text (Hex.hash [c1; c2; c3; c4; c5; c6]))
     = Returned [Hex.long d1 d2; Hex.long d3 d4; Hex.long d5 d6; Num.one]
  /\ Color.narrowColor
       (Color.text (Hex.hash [c1; c2; c3; c4; c5; c6; c7; c8]))
     = Returned
         [Hex.long d1 d2; Hex.long d3 d4; Hex.long d5 d6; Hex.long d7 d8].
Proof.
  intros H1 H2 H3 H4 H5 H6 H7 H8.
  pose proof (digit_in_class _ _ H1) as K1.
  pose proof (digit_in_class _ _ H2) as K2.
  pose proof (digit_in_class _ _ H3) as K3.
  pose proof (digit_in_class _ _ H4) as K4.
  pose proof (digit_in_class _ _ H5) as K5.
  pose proof (digit_in_class _ _ H6) as K6.
  pose proof (digit_in_class _ _ H7) as K7.
  pose proof (digit_in_class _ _ H8) as K8.
  unfold Color.narrowColor, Color.exec, Hex.hash, Hex.short, Hex.long.
  cbn [string_of_list_ascii Ascii.eqb Bool.eqb Color.group].
  rewrite K1, K2, K3.
  repeat split.
  - cbn [Color.group map Color.parseInt16 Color.digits Color.default_alpha].
    rewrite H1, H2, H3, !fifteenth. reflexivity.
  - rewrite K4.
    cbn [Color.group map Color.parseInt16 Color.digits Color.default_alpha].
    rewrite H1, H2, H3, H4, !fifteenth. reflexivity.
  - rewrite K4, K5, K6.
    cbn [Color.group map Color.parseInt16 Color.digits Color.default_alpha].
    rewrite H1, H2, H3, H4, H5, H6, !two_hundred_fifty_fifth. reflexivity.
  - rewrite K4, K5, K6, K7, K8.
    cbn [Color.group map Color.parseInt16 Color.digits Color.default_alpha].
    rewrite H1, H2, H3, H4, H5, H6, H7, H8, !two_hundred_fifty_fifth.
    reflexivity.
Qed.

Example narrowColor_reads_hex_digits_witness :
  Color.narrowColor (Color.text "#fA0"%string)
  = Returned [Hex.short 15; Hex.short 10; Hex.short 0; Num.one]
  /\ Color.narrowColor (Color.text "#fA08"%string)
     = Returned [Hex.short 15; Hex.short 10; Hex.short 0; Hex.short 8]
  /\ Color.narrowColor (Color.text "#fA0840"%string)
     = Returned [Hex.long 15 10; Hex.long 0 8; Hex.long 4 0; Num.one]
  /\ Color.narrowColor (Color.text "#fA08407c"%string)
     = Returned [Hex.long 15 10; Hex.long 0 8; Hex.long 4 0; Hex.long 7 12].
Proof.
  apply (narrowColor_reads_hex_digits
           "f" "A" "0" "8" "4" "0" "7" "c" 15 10 0 8 4 0 7 12);
    reflexivity.
Defined.

Lemma unit_fraction (n m : nat) :
  (n <= m)%nat -> (0 < m)%nat -> Hex.in_unit (Fin (INR n / INR m)).
Proof.
  intros Hn Hm. exists (INR n / INR m)%R. split; [reflexivity |].
  apply le_INR in Hn. apply lt_INR in Hm. cbn [INR] in Hm.
  pose proof (pos_INR n) as H0.
  split.
  - apply Rmult_le_pos; [exact H0 |].
    left. apply Rinv_0_lt_compat. exact Hm.
  - apply Rmult_le_reg_r with (INR m); [exact Hm |].
    unfold Rdiv. rewrite Rmult_assoc, Rinv_l; lra.
Qed.

Lemma short_channel (c : ascii) :
  Hex.channel (Color.parseInt16 (Some (String c "")) / Fin 15).
Proof.
  unfold Color.parseInt16.
  destruct (Color.digit c) as [d |] eqn:Hd; [| left; reflexivity].
  right. cbn [Color.digits]. rewrite fifteenth.
  replace 15%R with (INR 15) by (cbn [INR]; lra).
  apply unit_fraction; [| lia]. exact (digit_bound _ _ Hd).
Qed.

Lemma long_channel (c c' : ascii) :
  Hex.channel (Color.parseInt16 (Some (String c (String c' ""))) / Fin 255).
Proof.
  unfold Color.parseInt16.
  destruct (Color.digit c) as [d |] eqn:Hd; [| left; reflexivity].
  right. cbn [Color.digits]. rewrite two_hundred_fifty_fifth.
  replace 255%R with (INR 255) by (rewrite INR_IZR_INZ; reflexivity).
  pose proof (digit_bound _ _ Hd) as Hb.
  apply unit_fraction; [| lia].
  destruct (Color.digit c') as [d' |] eqn:Hd'; [| lia].
  pose proof (digit_bound _ _ Hd'). lia.
Qed.

Lemma one_in_unit : Hex.in_unit Num.one.
Proof. exists 1%R. split; [reflexivity | lra]. Qed.

Lemma default_alpha_channel (r g b a : num) :
  Hex.channel a ->
  exists a' : num,
    Color.default_alpha [r; g; b; a] = [r; g; b; a'] /\ Hex.in_unit a'.
Proof.
  intros [-> | Ha].
  - exists Num.one. split; [reflexivity | exact one_in_unit].
  - exists a. split; [| exact Ha].
    destruct Ha as (x & -> & _). reflexivity.
Qed.

(** One step of the walk along a text: the next character, and whether it
    is of the class. *)
Ltac next_character s :=
  destruct s as [| ? s];
  cbn [Color.group list_ascii_of_string forallb String.length existsb
       Nat.eqb andb orb];
  [| match goal with
     | |- context [Color.in_class ?c] =>
         destruct (Color.in_class c) eqn:?; cbn [andb orb]
     end ].

(** The channels of a text that the regular expressions match. *)
Ltac read_channels :=
  cbn [map];
  match goal with
  | |- context [Color.default_alpha [?r; ?g; ?b; ?a]] =>
      let a' := fresh "a" in
      let E := fresh "E" in
      let Ha := fresh "Ha" in
      assert (Hex.channel a) as Ha
        by first [ left; reflexivity
                 | apply short_channel | apply long_channel ];
      destruct (default_alpha_channel r g b a Ha) as (a' & E & ?);
      rewrite E; exists r, g, b, a';
      repeat split;
      first [ assumption | apply short_channel | apply long_channel ]
  end.

(** The texts that are refused, and the channels of the others. *)
Lemma text_refused_or_read (s : string) :
  (Hex.accepted s = false ->
   Color.narrowColor (Color.text s) = Thrown "Invalid color data" s)
  /\ (Hex.accepted s = true ->
      exists r g b a : num,
        Color.narrowColor (Color.text s) = Returned [r; g; b; a]
        /\ Hex.channel r /\ Hex.channel g /\ Hex.channel b
        /\ Hex.in_unit a).
Proof.
  unfold Color.narrowColor, Hex.accepted, Color.exec.
  destruct s as [| c s]; [split; [reflexivity | discriminate] |].
  destruct (Ascii.eqb c "#"); [| split; [reflexivity | discriminate]].
  cbn [andb].
  do 9 (try (next_character s;
             try (split; [reflexivity | discriminate]))).
  all: try (split; [discriminate |]; intros _; read_channels).
  rewrite andb_false_r. split; [reflexivity | discriminate].
Qed.

Lemma stray_character (c : ascii) :
  (57 < nat_of_ascii c < 65)%nat ->
  Color.in_class c = true /\ Color.digit c = None.
Proof.
  intros [Hl Hr]. unfold Color.in_class, Color.digit. cbv zeta.
  set (n := nat_of_ascii c) in *.
  assert (Nat.leb 48 n = true) as -> by (apply Nat.leb_le; lia).
  assert (Nat.leb n 70 = true) as -> by (apply Nat.leb_le; lia).
  assert (Nat.leb n 57 = false) as -> by (apply Nat.leb_gt; lia).
  assert (Nat.leb 65 n = false) as -> by (apply Nat.leb_gt; lia).
  assert (Nat.leb 97 n = false) as -> by (apply Nat.leb_gt; lia).
  split; reflexivity.
Qed.

(** The seven characters of the class that are not digits. *)
Lemma seven_characters_read
  (c c1 c2 c3 : ascii) (d1 d2 d3 : nat) :
  (57 < nat_of_ascii c < 65)%nat ->
  Color.digit c1 = Some d1 -> Color.digit c2 = Some d2 ->
  Color.digit c3 = Some d3 ->
  Color.narrowColor (Color.text (Hex.hash [c; c2; c3]))
  = Returned [NaN; Hex.short d2; Hex.short d3; Num.one]
  /\ Color.narrowColor (Color.text (Hex.hash [c1; c2; c3; c]))
     = Returned [Hex.short d1; Hex.short d2; Hex.short d3; Num.one]
  /\ Color.narrowColor (Color.text (Hex.hash [c; c1; c2; c; c3; c]))
     = Returned [NaN; Fin (INR d2 / 255); Fin (INR d3 / 255); Num.one].
Proof.
  intros [Kc Hc]%stray_character H1 H2 H3.
  pose proof (digit_in_class _ _ H1) as K1.
  pose proof (digit_in_class _ _ H2) as K2.
  pose proof (digit_in_class _ _ H3) as K3.
  unfold Color.narrowColor, Color.exec, Hex.hash, Hex.short.
  cbn [string_of_list_ascii Ascii.eqb Bool.eqb Color.group].
  repeat (progress (rewrite ?Kc, ?K1, ?K2, ?K3; cbn [Color.group])).
  cbn [map Color.parseInt16 Color.digits Color.default_alpha].
  rewrite Hc, H1, H2, H3, !fifteenth, !two_hundred_fifty_fifth.
  repeat split.
Qed.

(** X23.  [narrowColor] throws on a text exactly when the text is not [#]
    followed by three, four, six or eight characters of the class
    [[0-Fa-f]]; the error then has the message "Invalid color data" and the
    text as its cause.  On the other texts it returns four channels: the
    alpha is a number from 0 to 1, and red, green and blue are each a
    number from 0 to 1 or NaN.  For the class holds the seven characters
    between the digit 9 and the letter A (the colon, the semicolon, the
    signs for less, equal and greater, the question mark and the at
    sign): a channel that starts with one of them is NaN, or 1 when it is
    the alpha; after a digit, one of them ends the number, so that the
    channel is that digit over 255. *)
Theorem narrowColor_throws_exactly_on_malformed_text
  (s : string) (c c1 c2 c3 : ascii) (d1 d2 d3 : nat) :
  (Hex.accepted s = false ->
   Color.narrowColor (Color.text s) = Thrown "Invalid color data" s)
  /\ (Hex.accepted s = true ->
      exists r g b a : num,
        Color.narrowColor (Color.text s) = Returned [r; g; b; a]
        /\ Hex.channel r /\ Hex.channel g /\ Hex.channel b
        /\ Hex.in_unit a)
  /\ ((57 < nat_of_ascii c < 65)%nat ->
      Color.digit c1 = Some d1 -> Color.digit c2 = Some d2 ->
      Color.digit c3 = Some d3 ->
      Color.narrowColor (Color.text (Hex.hash [c; c2; c3]))
      = Returned [NaN; Hex.short d2; Hex.short d3; Num.one]
      /\ Color.narrowColor (Color.text (Hex.hash [c1; c2; c3; c]))
         = Returned [Hex.short d1; Hex.short d2; Hex.short d3; Num.one]
      /\ Color.narrowColor (Color.text (Hex.hash [c; c1; c2; c; c3; c]))
         = Returned [NaN; Fin (INR d2 / 255); Fin (INR d3 / 255); Num.one]).
Proof.
  destruct (text_refused_or_read s) as [Hrefused Hread].
  conj_split.
  - exact Hrefused.
  - exact Hread.
  - exact (seven_characters_read c c1 c2 c3 d1 d2 d3).
Qed.

Example narrowColor_throws_exactly_on_malformed_text_witness :
  Color.narrowColor (Color.text "#fA08z"%string)
  = Thrown "Invalid color data" "#fA08z"%string
  /\ (exists r g b a : num,
        Color.narrowColor (Color.text "#:@?"%string) = Returned [r; g; b; a]
        /\ Hex.channel r /\ Hex.channel g /\ Hex.channel b
        /\ Hex.in_unit a)
  /\ Color.narrowColor (Color.text "#:A0"%string)
     = Returned [NaN; Hex.short 10; Hex.short 0; Num.one]
  /\ Color.narrowColor (Color.text "#fA0:"%string)
     = Returned [Hex.short 15; Hex.short 10; Hex.short 0; Num.one]
  /\ Color.narrowColor (Color.text "#:fA:0:"%string)
     = Returned [NaN; Fin (INR 10 / 255); Fin (INR 0 / 255); Num.one].
Proof.
  split; [| split].
  - apply (narrowColor_throws_exactly_on_malformed_text
             "#fA08z" ":" "f" "A" "0" 15 10 0).
    reflexivity.
  - apply (narrowColor_throws_exactly_on_malformed_text
             "#:@?" ":" "f" "A" "0" 15 10 0).
    reflexivity.
  - apply (narrowColor_throws_exactly_on_malformed_text
             "#:@?" ":" "f" "A" "0" 15 10 0);
      first [reflexivity | cbn; lia].
Defined.

(* ================================================================= *)
(** ** WMatrix3 *)

Lemma finite_data (m : WMatrix3.t) :
  Tri.finite m ->
  exists r00 r01 r02 r10 r11 r12 r20 r21 r22 : R,
    m = WMatrix3.mk ((Fin r00, Fin r01, Fin r02),
                     (Fin r10, Fin r11, Fin r12),
                     (Fin r20, Fin r21, Fin r22)).
Proof.
  intros H.
  destruct m as [[[[[a00 a01] a02] [[a10 a11] a12]] [[a20 a21] a22]]].
  destruct (NumFacts.isFinite_Fin _ (H WMatrix3.i0 WMatrix3.i0)) as [r00 E00].
  destruct (NumFacts.isFinite_Fin _ (H WMatrix3.i0 WMatrix3.i1)) as [r01 E01].
  destruct (NumFacts.isFinite_Fin _ (H WMatrix3.i0 WMatrix3.i2)) as [r02 E02].
  destruct (NumFacts.isFinite_Fin _ (H WMatrix3.i1 WMatrix3.i0)) as [r10 E10].
  destruct (NumFacts.isFinite_Fin _ (H WMatrix3.i1 WMatrix3.i1)) as [r11 E11].
  destruct (NumFacts.isFinite_Fin _ (H WMatrix3.i1 WMatrix3.i2)) as [r12 E12].
  destruct (NumFacts.isFinite_Fin _ (H WMatrix3.i2 WMatrix3.i0)) as [r20 E20].
  destruct (NumFacts.isFinite_Fin _ (H WMatrix3.i2 WMatrix3.i1)) as [r21 E21].
  destruct (NumFacts.isFinite_Fin _ (H WMatrix3.i2 WMatrix3.i2)) as [r22 E22].
  cbn in E00, E01, E02, E10, E11, E12, E20, E21, E22. subst.
  exists r00, r01, r02, r10, r11, r12, r20, r21, r22. reflexivity.
Qed.

(** Splits an equation between matrices into its nine entries. *)
Ltac entrywise :=
  repeat match goal with
         | |- WMatrix3.mk _ = WMatrix3.mk _ => apply (f_equal WMatrix3.mk)
         | |- (_, _) = (_, _) => apply f_equal2
         | |- Fin _ = Fin _ => apply (f_equal Fin)
         end.

(** The product on matrices of finite numbers. *)
Lemma mult_finite (a b c : WMatrix3.t) :
  Tri.finite a -> Tri.finite b -> Tri.finite c ->
  WMatrix3.mult (WMatrix3.mult a b) c = WMatrix3.mult a (WMatrix3.mult b c)
  /\ WMatrix3.mult Tri.identity a = a
  /\ WMatrix3.mult a Tri.identity = a.
Proof.
  intros Ha Hb Hc.
  destruct (finite_data a Ha)
    as (a00 & a01 & a02 & a10 & a11 & a12 & a20 & a21 & a22 & ->).
  destruct (finite_data b Hb)
    as (b00 & b01 & b02 & b10 & b11 & b12 & b20 & b21 & b22 & ->).
  destruct (finite_data c Hc)
    as (c00 & c01 & c02 & c10 & c11 & c12 & c20 & c21 & c22 & ->).
  unfold WMatrix3.mult, Tri.identity, WMatrix3.new, WMatrix3.get_all.
  cbn [WMatrix3._data WMatrix3.at3 Num.mul Num.add].
  conj_split; entrywise; ring.
Qed.

(** A column of the product of the identity with a matrix: each entry of
    it is one entry of a column of the matrix times 1, plus the two others
    times 0. *)
Lemma infinite_in_column (x y z : num) :
  Tri.infinity x \/ Tri.infinity y \/ Tri.infinity z ->
  (Fin 1 * x + Fin 0 * y + Fin 0 * z,
   Fin 0 * x + Fin 1 * y + Fin 0 * z,
   Fin 0 * x + Fin 0 * y + Fin 1 * z) <> (x, y, z).
Proof.
  unfold Tri.infinity. intros H.
  destruct x, y, z;
    try (exfalso; destruct H as [[H | H] | [[H | H] | [H | H]]];
         discriminate);
    clear H; num_unfold; sign_cases; try lra; num_unfold; congruence.
Qed.

(** A row of the product of a matrix with the identity. *)
Lemma infinite_in_row (x y z : num) :
  Tri.infinity x \/ Tri.infinity y \/ Tri.infinity z ->
  (x * Fin 1 + y * Fin 0 + z * Fin 0,
   x * Fin 0 + y * Fin 1 + z * Fin 0,
   x * Fin 0 + y * Fin 0 + z * Fin 1) <> (x, y, z).
Proof.
  unfold Tri.infinity. intros H.
  destruct x, y, z;
    try (exfalso; destruct H as [[H | H] | [[H | H] | [H | H]]];
         discriminate);
    clear H; num_unfold; sign_cases; try lra; num_unfold; congruence.
Qed.

(** The identity and a matrix with an infinite entry. *)
Lemma mult_infinite (a : WMatrix3.t) :
  Tri.infinite a ->
  WMatrix3.mult Tri.identity a <> a /\ WMatrix3.mult a Tri.identity <> a.
Proof.
  destruct a as [[[[[a00 a01] a02] [[a10 a11] a12]] [[a20 a21] a22]]].
  intros (c & r & H). unfold Tri.entry in H.
  unfold WMatrix3.mult, Tri.identity, WMatrix3.new, WMatrix3.get_all.
  cbn [WMatrix3._data WMatrix3.at3] in *.
  split; intros E.
  - pose proof (f_equal (fun m => WMatrix3.at3 (WMatrix3._data m) c) E)
      as Ec.
    destruct c; cbn [WMatrix3._data WMatrix3.at3] in Ec, H;
      refine (infinite_in_column _ _ _ _ Ec); destruct r; auto.
  - pose proof (f_equal (fun m => Tri.entry m WMatrix3.i0 r) E) as E0.
    pose proof (f_equal (fun m => Tri.entry m WMatrix3.i1 r) E) as E1.
    pose proof (f_equal (fun m => Tri.entry m WMatrix3.i2 r) E) as E2.
    unfold Tri.entry in E0, E1, E2.
    destruct r; cbn [WMatrix3._data WMatrix3.at3] in E0, E1, E2, H;
      [ apply (infinite_in_row a00 a10 a20)
      | apply (infinite_in_row a01 a11 a21)
      | apply (infinite_in_row a02 a12 a22) ];
      try congruence; destruct c; auto.
Qed.

(** X24.  [mult] is the product of matrices stored column by column: on
    matrices of finite numbers (in exact arithmetic) it is associative,
    and the matrix that [new WMatrix3 ()] gives is neutral on both sides.
    With an infinite entry in a matrix that matrix is neutral on neither
    side: the products of the infinite entry with the zeros of the
    identity are NaN, and they reach the entries beside it. *)
Theorem mult_is_associative_with_identity (a b c : WMatrix3.t) :
  (Tri.finite a -> Tri.finite b -> Tri.finite c ->
   WMatrix3.mult (WMatrix3.mult a b) c = WMatrix3.mult a (WMatrix3.mult b c)
   /\ WMatrix3.mult Tri.identity a = a
   /\ WMatrix3.mult a Tri.identity = a)
  /\ (Tri.infinite a ->
      WMatrix3.mult Tri.identity a <> a
      /\ WMatrix3.mult a Tri.identity <> a).
Proof.
  split.
  - exact (mult_finite a b c).
  - exact (mult_infinite a).
Qed.

Example mult_is_associative_with_identity_witness :
  let a := WMatrix3.mk ((Fin 1, Fin 2, Fin 0),
                        (Fin 0, Fin 1, Fin 0),
                        (Fin 3, Fin 4, Fin 1)) in
  let b := WMatrix3.mk ((Fin 0, Fin 1, Fin 0),
                        (Fin (-1), Fin 0, Fin 0),
                        (Fin 0, Fin 0, Fin 1)) in
  let c := WMatrix3.mk ((Fin 1, Fin 0, Fin 0),
                        (Fin 0, Fin 1, Fin 0),
                        (PInf, Fin 0, Fin 1)) in
  (WMatrix3.mult (WMatrix3.mult a b) a = WMatrix3.mult a (WMatrix3.mult b a)
   /\ WMatrix3.mult Tri.identity a = a
   /\ WMatrix3.mult a Tri.identity = a)
  /\ WMatrix3.mult Tri.identity c <> c
  /\ WMatrix3.mult c Tri.identity <> c.
Proof.
  cbv zeta. split.
  - apply mult_is_associative_with_identity; intros [] []; reflexivity.
  - apply (mult_is_associative_with_identity _ Tri.identity Tri.identity).
    exists WMatrix3.i2, WMatrix3.i0. left. reflexivity.
Defined.

(** X25.  [transpose] always goes through, and it is an involution: a second
    call restores the matrix.  It turns a product into the product of the
    transposes in the other order, whatever the entries are. *)
Theorem transpose_reverses_products (a b : WMatrix3.t) :
  exists ta tb : WMatrix3.t,
    WMatrix3.transpose a = Returned (WMatrix3.kept ta)
    /\ WMatrix3.transpose b = Returned (WMatrix3.kept tb)
    /\ WMatrix3.transpose ta = Returned (WMatrix3.kept a)
    /\ WMatrix3.transpose (WMatrix3.mult a b)
       = Returned (WMatrix3.kept (WMatrix3.mult tb ta)).
Proof.
  destruct a as [[[[[a00 a01] a02] [[a10 a11] a12]] [[a20 a21] a22]]].
  destruct b as [[[[[b00 b01] b02] [[b10 b11] b12]] [[b20 b21] b22]]].
  unfold WMatrix3.transpose, WMatrix3.set, WMatrix3.get_all.
  cbn [WMatrix3._data WMatrix3.at3].
  eexists. eexists. split; [reflexivity |]. split; [reflexivity |].
  split; [reflexivity |].
  unfold WMatrix3.mult, WMatrix3.new, WMatrix3.get_all.
  cbn [WMatrix3._data WMatrix3.at3].
  apply (f_equal Returned), (f_equal WMatrix3.kept).
  repeat match goal with
         | |- WMatrix3.mk _ = WMatrix3.mk _ => apply (f_equal WMatrix3.mk)
         | |- (_, _) = (_, _) => apply f_equal2
         | |- _ + _ = _ + _ => apply f_equal2
         end;
    apply NumFacts.mul_comm.
Qed.

Lemma at3_put3 {A : Type} (v : A * A * A) (i j : WMatrix3.slot) (x : A) :
  WMatrix3.at3 (WMatrix3.put3 v i x) j
  = if Tri.same i j then x else WMatrix3.at3 v j.
Proof. destruct v as [[a b] c], i, j; reflexivity. Qed.

Lemma same_eq (i j : WMatrix3.slot) :
  Tri.same i j = true <-> i = j.
Proof. destruct i, j; cbn; split; congruence. Qed.

Lemma index_0 : WMatrix3.index (Fin 0) = Some WMatrix3.i0.
Proof. unfold WMatrix3.index. sign_cases; try lra. reflexivity. Qed.

Lemma index_1 : WMatrix3.index (Fin 1) = Some WMatrix3.i1.
Proof. unfold WMatrix3.index. sign_cases; try lra. reflexivity. Qed.

Lemma index_2 : WMatrix3.index (Fin 2) = Some WMatrix3.i2.
Proof. unfold WMatrix3.index. sign_cases; try lra. reflexivity. Qed.

Lemma index_3 : WMatrix3.index (Fin 3) = None.
Proof. unfold WMatrix3.index. sign_cases; try lra. reflexivity. Qed.

(** What [get] reads in the numbers of the matrix. *)
Lemma get_view (m : WMatrix3Heap.memory) (this : WMatrix3Heap.address)
  (col row : num) :
  WMatrix3Heap.get m this col row
  = match WMatrix3.get (Tri.view m this) (Some col) (Some row) with
    | Returned (WMatrix3.entry v) => Returned v
    | _ => TypeError
    end.
Proof.
  unfold WMatrix3Heap.get, WMatrix3.get, Tri.view. cbn [WMatrix3._data].
  destruct (WMatrix3.index col) as [[ | | ] |]; reflexivity.
Qed.

(** On a matrix whose three columns are three arrays, [set] writes an
    entry as it does in [WMatrix3]. *)
Lemma set_in_own_columns (m : WMatrix3Heap.memory)
  (this : WMatrix3Heap.address) (col row value : num) :
  (forall c c' : WMatrix3.slot,
      WMatrix3Heap.column m this c = WMatrix3Heap.column m this c' ->
      c = c') ->
  match WMatrix3Heap.set m this (WMatrix3Heap.col_number col)
          (WMatrix3Heap.row_number row) (Some value),
        WMatrix3.set (Tri.view m this) (WMatrix3.col_number col)
          (WMatrix3.row_number row) (Some value)
  with
  | Returned (WMatrix3Heap.kept m'), Returned (WMatrix3.kept that) =>
      Tri.view m' this = that
  | Returned WMatrix3Heap.reshaped, Returned WMatrix3.reshaped => True
  | TypeError, TypeError => True
  | _, _ => False
  end.
Proof.
  intros Hown. unfold WMatrix3Heap.set, WMatrix3.set.
  destruct (WMatrix3.index col) as [c |]; [| exact I].
  destruct (WMatrix3.index row) as [r |]; [| exact I].
  unfold Tri.view, WMatrix3Heap.column.
  cbn [WMatrix3Heap.numbers WMatrix3Heap.columns WMatrix3Heap._data
       WMatrix3._data].
  unfold WMatrix3Heap.write.
  assert (Hne : forall c' : WMatrix3.slot,
             c' <> c ->
             Nat.eqb (WMatrix3Heap.column m this c')
                     (WMatrix3Heap.column m this c) = false).
  { intros c' Hc'. apply Nat.eqb_neq. intros E. apply Hc', Hown, E. }
  unfold WMatrix3Heap.column in Hne.
  destruct c; cbn [WMatrix3.at3 WMatrix3.put3];
    destruct (WMatrix3Heap.columns m (WMatrix3Heap._data m this))
      as [[a0 a1] a2] eqn:Ecols;
    cbn [WMatrix3.at3 WMatrix3.put3] in *;
    rewrite ?Nat.eqb_refl;
    pose proof (Hne WMatrix3.i0) as H0;
    pose proof (Hne WMatrix3.i1) as H1;
    pose proof (Hne WMatrix3.i2) as H2;
    cbn [WMatrix3.at3] in H0, H1, H2;
    rewrite ?H0, ?H1, ?H2 by discriminate; reflexivity.
Qed.

(** X26.  After [set (col, row, value)] with two indices of the matrix,
    [get (col, row)] returns [value].  The arrays being shared, so does
    [get (col', row)] in every matrix, this one included, whose column
    [col'] is the array that the column [col] of this one is; [get]
    returns what it returned before the call everywhere else, and no
    matrix has changed its columns for others. *)
Theorem set_then_get (m : WMatrix3Heap.memory)
  (this : WMatrix3Heap.address) (col row value : num)
  (c r : WMatrix3.slot) :
  WMatrix3.index col = Some c -> WMatrix3.index row = Some r ->
  exists m' : WMatrix3Heap.memory,
    WMatrix3Heap.set m this (WMatrix3Heap.col_number col)
      (WMatrix3Heap.row_number row) (Some value)
    = Returned (WMatrix3Heap.kept m')
    /\ WMatrix3Heap.get m' this col row = Returned (Some value)
    /\ (forall (that : WMatrix3Heap.address) (col' row' : num)
               (c' r' : WMatrix3.slot),
           WMatrix3.index col' = Some c' -> WMatrix3.index row' = Some r' ->
           WMatrix3Heap.get m' that col' row'
           = if Nat.eqb (WMatrix3Heap.column m that c')
                        (WMatrix3Heap.column m this c)
                && Tri.same r r'
             then Returned (Some value)
             else WMatrix3Heap.get m that col' row')
    /\ (forall (that : WMatrix3Heap.address) (col' row' : num),
           WMatrix3.index col' = None \/ WMatrix3.index row' = None ->
           WMatrix3Heap.get m' that col' row'
           = WMatrix3Heap.get m that col' row')
    /\ (forall (that : WMatrix3Heap.address) (c' : WMatrix3.slot),
           WMatrix3Heap.column m' that c' = WMatrix3Heap.column m that c').
Proof.
  intros Hc Hr. unfold WMatrix3Heap.set. rewrite Hc, Hr. cbv zeta.
  eexists. split; [reflexivity |].
  unfold WMatrix3Heap.get, WMatrix3Heap.column.
  cbn [WMatrix3Heap.numbers WMatrix3Heap.columns WMatrix3Heap._data].
  unfold WMatrix3Heap.write. conj_split.
  - rewrite Hc, Hr, Nat.eqb_refl. cbn [option_map].
    rewrite at3_put3, (proj2 (same_eq r r) eq_refl). reflexivity.
  - intros that col' row' c' r' -> ->. cbn [option_map].
    destruct (Nat.eqb
                (WMatrix3.at3
                   (WMatrix3Heap.columns m (WMatrix3Heap._data m that)) c')
                (WMatrix3.at3
                   (WMatrix3Heap.columns m (WMatrix3Heap._data m this)) c))
      eqn:Ea; [| reflexivity].
    apply Nat.eqb_eq in Ea. rewrite Ea, at3_put3.
    destruct (Tri.same r r'); reflexivity.
  - intros that col' row' [-> | ->]; [reflexivity |].
    destruct (WMatrix3.index col'); reflexivity.
  - reflexivity.
Qed.

(** The theorem at the matrix [new WMatrix3 ([v, v, v])], whose three
    columns are one array [v = [1, 2, 3]]: after [set (0, 0, 9)],
    [get (0, 0)] returns 9, and so does [get (1, 0)]; [get (1, 1)] still
    returns 2. *)
Example set_then_get_witness :
  exists m' : WMatrix3Heap.memory,
    WMatrix3Heap.set (fst Tri.thrice) (snd Tri.thrice)
      (WMatrix3Heap.col_number (Fin 0)) (WMatrix3Heap.row_number (Fin 0))
      (Some (Fin 9))
    = Returned (WMatrix3Heap.kept m')
    /\ WMatrix3Heap.get (fst Tri.thrice) (snd Tri.thrice) (Fin 1) (Fin 0)
       = Returned (Some (Fin 1))
    /\ WMatrix3Heap.get m' (snd Tri.thrice) (Fin 0) (Fin 0)
       = Returned (Some (Fin 9))
    /\ WMatrix3Heap.get m' (snd Tri.thrice) (Fin 1) (Fin 0)
       = Returned (Some (Fin 9))
    /\ WMatrix3Heap.get m' (snd Tri.thrice) (Fin 1) (Fin 1)
       = Returned (Some (Fin 2)).
Proof.
  destruct (set_then_get (fst Tri.thrice) (snd Tri.thrice) (Fin 0) (Fin 0)
              (Fin 9) WMatrix3.i0 WMatrix3.i0 index_0 index_0)
    as (m' & Hset & Hget & Hall & _).
  exists m'. split; [exact Hset |].
  split; [unfold WMatrix3Heap.get; rewrite index_1, index_0; reflexivity |].
  split; [exact Hget |].
  split.
  - rewrite (Hall (snd Tri.thrice) (Fin 1) (Fin 0) WMatrix3.i1 WMatrix3.i0
               index_1 index_0).
    reflexivity.
  - rewrite (Hall (snd Tri.thrice) (Fin 1) (Fin 1) WMatrix3.i1 WMatrix3.i1
               index_1 index_1).
    cbn [Tri.same andb]. rewrite andb_false_r.
    unfold WMatrix3Heap.get. rewrite index_1. reflexivity.
Defined.

(** X27.  The errors of a matrix.  An index that is none of 0, 1 and 2 is
    an error as a column and [undefined] as a row: under such a column,
    [get] and the [set] of an entry throw a [TypeError]; under such a row
    of a column of the matrix, [get] returns [undefined].  [set] called
    with a number alone, or with two numbers, throws the error
    "Invalid data".  And [sum] never adds: called with one matrix or more
    it throws a [TypeError], for it reads the columns of a matrix where
    the instance has none; called with no matrix it returns a copy of this
    one. *)
Theorem matrix_errors (this v : WMatrix3.t) (mat : list WMatrix3.t)
  (col row : num) (c : WMatrix3.slot) (value : num)
  (arg : WMatrix3.second_arg) :
  (WMatrix3.index col = None ->
   WMatrix3.get this (Some col) (Some row) = TypeError
   /\ WMatrix3.get this (Some col) None = TypeError
   /\ WMatrix3.set this (WMatrix3.col_number col) arg (Some value)
      = TypeError)
  /\ (WMatrix3.index col = Some c -> WMatrix3.index row = None ->
      WMatrix3.get this (Some col) (Some row)
      = Returned (WMatrix3.entry None))
  /\ WMatrix3.set this (WMatrix3.col_number col) WMatrix3.row_missing None
     = Thrown "Invalid data" tt
  /\ WMatrix3.set this (WMatrix3.col_number col) (WMatrix3.row_number row)
       None
     = Thrown "Invalid data" tt
  /\ WMatrix3.sum this (v :: mat) = TypeError
  /\ WMatrix3.sum this [] = Returned (WMatrix3.copy this)
  /\ WMatrix3.copy this = this.
Proof.
  destruct this as [[[[[a00 a01] a02] [[a10 a11] a12]] [[a20 a21] a22]]].
  unfold WMatrix3.get, WMatrix3.set. conj_split.
  - intros ->. conj_split; reflexivity.
  - intros -> ->. reflexivity.
  - reflexivity.
  - reflexivity.
  - reflexivity.
  - reflexivity.
  - reflexivity.
Qed.

Example matrix_errors_witness :
  (WMatrix3.get Tri.identity (Some (Fin 3)) (Some (Fin 0)) = TypeError
   /\ WMatrix3.get Tri.identity (Some (Fin 3)) None = TypeError
   /\ WMatrix3.set Tri.identity (WMatrix3.col_number (Fin 3))
        (WMatrix3.row_number (Fin 0)) (Some (Fin 5))
      = TypeError)
  /\ WMatrix3.get Tri.identity (Some (Fin 0)) (Some (Fin 3))
     = Returned (WMatrix3.entry None).
Proof.
  pose proof (matrix_errors Tri.identity Tri.identity [] (Fin 3) (Fin 0)
                WMatrix3.i0 (Fin 5) (WMatrix3.row_number (Fin 0)))
    as (H & _).
  pose proof (matrix_errors Tri.identity Tri.identity [] (Fin 0) (Fin 3)
                WMatrix3.i0 (Fin 5) WMatrix3.row_missing)
    as (_ & K & _).
  split; [exact (H index_3) | exact (K index_0 index_3)].
Defined.

(* ================================================================= *)
(** ** bezier *)

Lemma pos_finite (a b t : R) :
  Bezier.pos (Fin a) (Fin b) (Fin t) = Fin (Cubic.bernstein a b t).
Proof.
  unfold Bezier.pos, Cubic.bernstein, NumExtra.sq, Num.one, Num.sub.
  cbn [Num.mul Num.add Num.neg]. apply (f_equal Fin). ring.
Qed.

Lemma leb_INR (i n : nat) :
  (Fin (INR i) <=? Fin (INR n)) = Nat.leb i n.
Proof.
  unfold Num.leb. destruct (Rle_dec (INR i) (INR n)) as [H | H].
  - symmetry. apply Nat.leb_le. apply INR_le. exact H.
  - symmetry. apply Nat.leb_gt. apply INR_lt. lra.
Qed.

Lemma div_INR (i n : nat) :
  (1 <= n)%nat -> Fin (INR i) / Fin (INR n) = Fin (INR i / INR n).
Proof.
  intros Hn. unfold Num.div.
  destruct (Req_dec_T (INR n) 0) as [H | _]; [| reflexivity].
  apply lt_INR in Hn. cbn [INR] in Hn. lra.
Qed.

(** The loop from [i] on: it ends after the sample [n]. *)
Lemma loop_samples (a1 b1 a2 b2 : R) (n : nat) :
  (1 <= n)%nat ->
  forall (k i fuel : nat) (arr : list (num * num)),
    (i + k = S n)%nat -> (k < fuel)%nat ->
    Bezier.loop fuel (Bezier.mk (Fin a1) (Fin b1) (Fin a2) (Fin b2) arr)
      (Fin (INR n)) i
    = Some
        (Bezier.mk (Fin a1) (Fin b1) (Fin a2) (Fin b2)
           (arr
            ++ map (fun i : nat =>
                      (Fin (Cubic.bernstein a1 a2 (INR i / INR n)),
                       Fin (Cubic.bernstein b1 b2 (INR i / INR n))))
                 (seq i k))).
Proof.
  intros Hn k. induction k as [| k IH]; intros i fuel arr Hk Hfuel.
  - destruct fuel as [| fuel]; [lia |].
    cbn [Bezier.loop seq map]. rewrite leb_INR.
    assert (Nat.leb i n = false) as -> by (apply Nat.leb_gt; lia).
    rewrite app_nil_r. reflexivity.
  - destruct fuel as [| fuel]; [lia |].
    cbn [Bezier.loop seq map]. rewrite leb_INR.
    assert (Nat.leb i n = true) as -> by (apply Nat.leb_le; lia).
    cbv zeta. unfold Bezier.push.
    cbn [Bezier.x1 Bezier.y1 Bezier.x2 Bezier.y2 Bezier.arr].
    rewrite (div_INR i n Hn), !pos_finite.
    rewrite IH by lia. rewrite <- app_assoc. reflexivity.
Qed.

Lemma sample_at (a1 b1 a2 b2 : R) (n i : nat) :
  (i <= n)%nat ->
  nth_error (Cubic.samples a1 b1 a2 b2 n) i
  = Some (Fin (Cubic.bernstein a1 a2 (INR i / INR n)),
          Fin (Cubic.bernstein b1 b2 (INR i / INR n))).
Proof.
  intros Hi. unfold Cubic.samples.
  rewrite nth_error_map, nth_error_seq.
  assert (Nat.ltb i (S n) = true) as -> by (apply Nat.ltb_lt; lia).
  reflexivity.
Qed.

Lemma bernstein_ends (a b : R) :
  Cubic.bernstein a b 0 = 0%R /\ Cubic.bernstein a b 1 = 1%R.
Proof. unfold Cubic.bernstein. split; ring. Qed.

Lemma samples_ends (a1 b1 a2 b2 : R) (n : nat) :
  (1 <= n)%nat ->
  nth_error (Cubic.samples a1 b1 a2 b2 n) 0 = Some (Fin 0, Fin 0)
  /\ nth_error (Cubic.samples a1 b1 a2 b2 n) n = Some (Fin 1, Fin 1).
Proof.
  intros Hn. rewrite !sample_at by lia.
  assert (INR n <> 0%R) as Hne
    by (apply lt_INR in Hn; cbn [INR] in Hn; lra).
  replace (INR 0 / INR n)%R with 0%R by (cbn [INR]; field; exact Hne).
  replace (INR n / INR n)%R with 1%R by (field; exact Hne).
  destruct (bernstein_ends a1 a2) as [-> ->].
  destruct (bernstein_ends b1 b2) as [-> ->].
  split; reflexivity.
Qed.

(** X28.  For finite control values and a whole number n >= 1 of steps, the
    call with [steps] ends and appends n + 1 points to the array, after
    the points that earlier calls have left in it: the points of the cubic
    Bezier curve at the parameters 0, 1/n, ..., 1 (in exact arithmetic),
    the first of them (0, 0) and the last (1, 1). *)
Theorem tabulate_samples_the_curve (a1 b1 a2 b2 : R) (n fuel : nat)
  (arr : list (num * num)) :
  (1 <= n)%nat -> (n + 2 <= fuel)%nat ->
  Bezier.tabulate fuel (Bezier.mk (Fin a1) (Fin b1) (Fin a2) (Fin b2) arr)
    (Fin (INR n))
  = Some
      (Bezier.mk (Fin a1) (Fin b1) (Fin a2) (Fin b2)
         (arr ++ Cubic.samples a1 b1 a2 b2 n))
  /\ List.length (Cubic.samples a1 b1 a2 b2 n) = S n
  /\ nth_error (Cubic.samples a1 b1 a2 b2 n) 0 = Some (Fin 0, Fin 0)
  /\ nth_error (Cubic.samples a1 b1 a2 b2 n) n = Some (Fin 1, Fin 1).
Proof.
  intros Hn Hfuel. conj_split.
  - unfold Bezier.tabulate, Cubic.samples.
    apply (loop_samples a1 b1 a2 b2 n Hn (S n) 0 fuel arr); lia.
  - unfold Cubic.samples. rewrite length_map, length_seq. reflexivity.
  - apply samples_ends. exact Hn.
  - apply samples_ends. exact Hn.
Qed.

Example tabulate_samples_the_curve_witness :
  Bezier.tabulate 4
    (Bezier.mk (Fin 0) (Fin 0) (Fin 1) (Fin 1) [(Fin 5, Fin 5)]) (Fin (INR 2))
  = Some
      (Bezier.mk (Fin 0) (Fin 0) (Fin 1) (Fin 1)
         ([(Fin 5, Fin 5)] ++ Cubic.samples 0 0 1 1 2))
  /\ List.length (Cubic.samples 0 0 1 1 2) = 3%nat
  /\ nth_error (Cubic.samples 0 0 1 1 2) 0 = Some (Fin 0, Fin 0)
  /\ nth_error (Cubic.samples 0 0 1 1 2) 2 = Some (Fin 1, Fin 1).
Proof.
  apply (tabulate_samples_the_curve 0 0 1 1 2 4 [(Fin 5, Fin 5)]); lia.
Defined.

Lemma item_finite (arr : list (num * num)) (i : Z) :
  Forall Cubic.finite arr ->
  (0 <= i < Z.of_nat (List.length arr))%Z ->
  exists a b : R,
    Bezier.item arr i = Some (Fin a, Fin b)
    /\ nth_error arr (Z.to_nat i) = Some (Fin a, Fin b).
Proof.
  intros Harr Hi. unfold Bezier.item.
  assert ((i <? 0)%Z = false) as -> by (apply Z.ltb_ge; lia).
  destruct (nth_error arr (Z.to_nat i)) as [p |] eqn:Hp.
  - rewrite Forall_forall in Harr.
    destruct (Harr p (nth_error_In _ _ Hp)) as (a & b & ->).
    exists a, b. split; reflexivity.
  - apply nth_error_None in Hp. lia.
Qed.

Lemma middle_inside (l r : Z) :
  (2 <= r - l)%Z -> (l < Bezier.middle l r < r)%Z.
Proof.
  intros H. unfold Bezier.middle.
  pose proof (Z.div_mod (2 * l + (r - l) + 1) 2 ltac:(lia)) as E.
  pose proof (Z.mod_pos_bound (2 * l + (r - l) + 1) 2 ltac:(lia)) as B.
  lia.
Qed.

Lemma leb_fin (a b : R) : (Fin a <=? Fin b) = true <-> (a <= b)%R.
Proof.
  unfold Num.leb. destruct (Rle_dec a b); split; intros; auto; discriminate.
Qed.

(** The invariant of [search]: the points at [l] and [r] have [x] between
    them, and each call brings them closer. *)
Lemma search_brackets (arr : list (num * num)) (x : R) :
  Forall Cubic.finite arr ->
  forall (fuel : nat) (l r : Z) (lX lY rX rY : R),
    (0 <= l < r)%Z -> (r < Z.of_nat (List.length arr))%Z ->
    (r - l <= Z.of_nat fuel)%Z ->
    Bezier.item arr l = Some (Fin lX, Fin lY) ->
    Bezier.item arr r = Some (Fin rX, Fin rY) ->
    (lX <= x <= rX)%R ->
    exists y : num,
      Bezier.search fuel arr (Fin x) l r = Some (Returned y)
      /\ Cubic.read_off arr (Fin x) y.
Proof.
  intros Harr fuel.
  induction fuel as [| fuel IH]; intros l r lX lY rX rY Hl Hr Hfuel El Er Hx;
    [lia |].
  cbn [Bezier.search].
  destruct (r - l =? 1)%Z eqn:Hone.
  - apply Z.eqb_eq in Hone. rewrite Er, El.
    eexists. split; [reflexivity |].
    right. exists (Z.to_nat l), (Fin lX, Fin lY), (Fin rX, Fin rY).
    destruct (item_finite arr l Harr ltac:(lia)) as (a & b & Ea & Na).
    destruct (item_finite arr r Harr ltac:(lia)) as (a' & b' & Ea' & Na').
    rewrite El in Ea. injection Ea as <- <-.
    rewrite Er in Ea'. injection Ea' as <- <-.
    replace (S (Z.to_nat l)) with (Z.to_nat r) by lia.
    unfold Cubic.between. cbn [fst].
    conj_split; try assumption; try reflexivity; apply leb_fin; lra.
  - apply Z.eqb_neq in Hone. cbv zeta.
    pose proof (middle_inside l r ltac:(lia)) as Hi.
    destruct (item_finite arr (Bezier.middle l r) Harr ltac:(lia))
      as (vX & vY & Ev & Nv).
    rewrite Ev. unfold Num.gtb. cbn [Num.ltb].
    destruct (Rlt_dec vX x) as [Hlt | Hnlt].
    + apply (IH _ _ vX vY rX rY); try assumption; try lia. lra.
    + destruct (Rlt_dec x vX) as [Hgt | Hngt].
      * apply (IH _ _ lX lY vX vY); try assumption; try lia. lra.
      * exists (Fin vY). split; [reflexivity |].
        left. exists (Z.to_nat (Bezier.middle l r)).
        rewrite Nv. replace vX with x by lra. reflexivity.
Qed.

Lemma in_bounds (x : R) :
  (0 <= x <= 1)%R -> Bezier.out_of_bounds (Fin x) = false.
Proof.
  intros Hx. unfold Bezier.out_of_bounds, Num.gtb, Num.ltb.
  destruct (Rlt_dec x 0); [lra |]. destruct (Rlt_dec 1 x); [lra |].
  reflexivity.
Qed.

Lemma bezier_returns (a1 b1 a2 b2 : R) :
  (0 <= a1 <= 1)%R -> (0 <= a2 <= 1)%R ->
  Bezier.bezier (Fin a1) (Fin b1) (Fin a2) (Fin b2)
  = Returned (Bezier.mk (Fin a1) (Fin b1) (Fin a2) (Fin b2) []).
Proof.
  intros H1 H2. unfold Bezier.bezier.
  rewrite (in_bounds a1 H1), (in_bounds a2 H2). reflexivity.
Qed.

Lemma samples_finite (a1 b1 a2 b2 : R) (n : nat) :
  Forall Cubic.finite (Cubic.samples a1 b1 a2 b2 n).
Proof.
  unfold Cubic.samples. apply Forall_forall. intros p Hp.
  apply in_map_iff in Hp as (i & <- & _). eexists. eexists. reflexivity.
Qed.

(** X29.  For control values that are finite, the first and the third of them
    from 0 to 1, a whole number n >= 1 of steps and an x from 0 to 1: the
    three calls [bezier (x1, y1, x2, y2) (n) (x)] go through, and the
    number returned is read off the n + 1 points of the table: it is the
    second coordinate of a point whose first is x, or the value at x of
    the line through two points that follow each other, x being between
    them. *)
Theorem ease_reads_off_the_samples (a1 b1 a2 b2 x : R) (n fuel : nat) :
  (0 <= a1 <= 1)%R -> (0 <= a2 <= 1)%R -> (1 <= n)%nat ->
  (n + 2 <= fuel)%nat -> (0 <= x <= 1)%R ->
  exists (c c' : Bezier.curve) (y : num),
    Bezier.bezier (Fin a1) (Fin b1) (Fin a2) (Fin b2) = Returned c
    /\ Bezier.tabulate fuel c (Fin (INR n)) = Some c'
    /\ Bezier.arr c' = Cubic.samples a1 b1 a2 b2 n
    /\ Bezier.ease fuel c' (Fin x) = Some (Returned y)
    /\ Cubic.read_off (Cubic.samples a1 b1 a2 b2 n) (Fin x) y.
Proof.
  intros H1 H2 Hn Hfuel Hx.
  pose proof (loop_samples a1 b1 a2 b2 n Hn (S n) 0 fuel []
                ltac:(lia) ltac:(lia)) as Htab.
  cbn [app] in Htab. fold (Cubic.samples a1 b1 a2 b2 n) in Htab.
  destruct (samples_ends a1 b1 a2 b2 n Hn) as [Hfirst Hlast].
  assert (List.length (Cubic.samples a1 b1 a2 b2 n) = S n) as Hlen
    by (unfold Cubic.samples; rewrite length_map, length_seq; reflexivity).
  destruct (search_brackets (Cubic.samples a1 b1 a2 b2 n) x
              (samples_finite a1 b1 a2 b2 n) fuel 0 (Z.of_nat n) 0 0 1 1)
    as (y & Hy & Hread).
  - lia.
  - rewrite Hlen. lia.
  - lia.
  - exact Hfirst.
  - unfold Bezier.item.
    assert ((Z.of_nat n <? 0)%Z = false) as -> by (apply Z.ltb_ge; lia).
    rewrite Nat2Z.id. exact Hlast.
  - exact Hx.
  - eexists. eexists. exists y. conj_split.
    + apply bezier_returns; assumption.
    + exact Htab.
    + reflexivity.
    + unfold Bezier.ease. rewrite (in_bounds x Hx).
      cbn [Bezier.arr]. rewrite Hlen.
      replace (Z.of_nat (S n) - 1)%Z with (Z.of_nat n) by lia.
      exact Hy.
    + exact Hread.
Qed.

Example ease_reads_off_the_samples_witness :
  exists (c c' : Bezier.curve) (y : num),
    Bezier.bezier (Fin 0) (Fin 0) (Fin 1) (Fin 1) = Returned c
    /\ Bezier.tabulate 6 c (Fin (INR 4)) = Some c'
    /\ Bezier.arr c' = Cubic.samples 0 0 1 1 4
    /\ Bezier.ease 6 c' (Fin (1 / 2)) = Some (Returned y)
    /\ Cubic.read_off (Cubic.samples 0 0 1 1 4) (Fin (1 / 2)) y.
Proof.
  apply (ease_reads_off_the_samples 0 0 1 1 (1 / 2) 4 6); first [lra | lia].
Defined.

Lemma loop_without_end (fuel : nat) (c : Bezier.curve) (i : nat) :
  Bezier.loop fuel c PInf i = None.
Proof.
  revert c i. induction fuel as [| fuel IH]; intros c i; [reflexivity |].
  cbn [Bezier.loop Num.leb]. apply IH.
Qed.

Lemma search_without_end (fuel : nat) (x : R) :
  (0 < x)%R ->
  Bezier.search fuel [(Fin 0, Fin 0)] (Fin x) 0 0 = None.
Proof.
  intros Hx. induction fuel as [| fuel IH]; [reflexivity |].
  cbn [Bezier.search Z.sub Z.eqb Z.opp Z.add]. cbv zeta.
  change (Bezier.middle 0 0) with 0%Z.
  cbn [Bezier.item Z.ltb Z.compare Z.to_nat nth_error Num.ltb].
  destruct (Rlt_dec 0 x); [exact IH | lra].
Qed.

Lemma zero_over_zero : Fin 0 / Fin 0 = NaN.
Proof.
  unfold Num.div, Num.inf_times.
  destruct (Req_dec_T 0 0); [| lra].
  destruct (Rlt_dec 0 0); [lra | reflexivity].
Qed.

Lemma line_through_corners (x : R) :
  Cubic.interpolate (Fin 0, Fin 0) (Fin 1, Fin 1) (Fin x) = Fin x.
Proof.
  unfold Cubic.interpolate. cbn [fst snd].
  unfold Num.sub. cbn [Num.neg Num.add]. unfold Num.div.
  sign_cases; try lra.
  cbn [Num.mul Num.add]. apply (f_equal Fin). field.
Qed.

(** The products [3 * a] of [pos] are finite for the finite [a] only. *)
Lemma finite_triple (a : num) :
  Num.isFinite (Fin 3 * a) = true -> exists r : R, a = Fin r.
Proof.
  destruct a as [ | | | r]; [| | | intros _; exists r; reflexivity];
    num_unfold; sign_cases; try discriminate; lra.
Qed.

Lemma bezier_curve (x1 y1 x2 y2 : num) (c : Bezier.curve) :
  Bezier.bezier x1 y1 x2 y2 = Returned c -> c = Bezier.mk x1 y1 x2 y2 [].
Proof.
  unfold Bezier.bezier.
  destruct (Bezier.out_of_bounds x1); [discriminate |].
  destruct (Bezier.out_of_bounds x2); [discriminate |].
  intros [= <-]. reflexivity.
Qed.

(** X30.  The numbers of steps that leave no usable table.  With [Infinity]
    the call with [steps] never ends.  With NaN or a number below 0 it
    leaves the array empty, and the call with an x from 0 to 1 throws a
    [TypeError].  With 0 the only point is (NaN, NaN), and every x gives
    NaN.  When the four products [3 * x1], [3 * y1], [3 * x2] and [3 * y2]
    that [pos] computes are finite: with a number of steps between 0 and 1
    the only point is (0, 0), and for an x above 0 the search never ends;
    with one step the points are (0, 0) and (1, 1), and every x gives x,
    so that the curve is the straight line whatever the control values
    are. *)
Theorem bezier_degenerate_steps (x1 y1 x2 y2 : num) (c : Bezier.curve)
  (x : R) :
  Bezier.bezier x1 y1 x2 y2 = Returned c -> (0 <= x <= 1)%R ->
  (forall fuel : nat, Bezier.tabulate fuel c PInf = None)
  /\ (forall (steps : num) (fuel : nat),
        (Fin 0 <=? steps) = false ->
        Bezier.tabulate (S fuel) c steps = Some c
        /\ Bezier.ease (S fuel) c (Fin x) = Some TypeError)
  /\ (forall fuel : nat,
        exists c' : Bezier.curve,
          Bezier.tabulate (S (S fuel)) c (Fin 0) = Some c'
          /\ Bezier.arr c' = [(NaN, NaN)]
          /\ Bezier.ease (S fuel) c' (Fin x) = Some (Returned NaN))
  /\ (forall (s : R) (fuel : nat),
        Num.isFinite (Fin 3 * x1) = true ->
        Num.isFinite (Fin 3 * y1) = true ->
        Num.isFinite (Fin 3 * x2) = true ->
        Num.isFinite (Fin 3 * y2) = true ->
        (0 < s < 1)%R ->
        exists c' : Bezier.curve,
          Bezier.tabulate (S (S fuel)) c (Fin s) = Some c'
          /\ Bezier.arr c' = [(Fin 0, Fin 0)]
          /\ ((0 < x)%R ->
              forall fuel' : nat, Bezier.ease fuel' c' (Fin x) = None))
  /\ (forall fuel : nat,
        Num.isFinite (Fin 3 * x1) = true ->
        Num.isFinite (Fin 3 * y1) = true ->
        Num.isFinite (Fin 3 * x2) = true ->
        Num.isFinite (Fin 3 * y2) = true ->
        exists c' : Bezier.curve,
          Bezier.tabulate (S (S (S fuel))) c (Fin 1) = Some c'
          /\ Bezier.arr c' = [(Fin 0, Fin 0); (Fin 1, Fin 1)]
          /\ Bezier.ease (S fuel) c' (Fin x) = Some (Returned (Fin x))).
Proof.
  intros Hc Hx. apply bezier_curve in Hc. subst c.
  pose proof (in_bounds x Hx) as Hin.
  conj_split.
  - intros fuel. apply loop_without_end.
  - intros steps fuel Hsteps. split.
    + unfold Bezier.tabulate. cbn [Bezier.loop INR]. rewrite Hsteps.
      reflexivity.
    + unfold Bezier.ease. rewrite Hin. reflexivity.
  - intros fuel. exists (Bezier.mk x1 y1 x2 y2 [(NaN, NaN)]). conj_split.
    + unfold Bezier.tabulate. cbn [Bezier.loop INR].
      assert ((Fin 0 <=? Fin 0) = true) as -> by (apply leb_fin; lra).
      assert ((Fin 1 <=? Fin 0) = false) as ->.
      { unfold Num.leb. destruct (Rle_dec 1 0); [lra | reflexivity]. }
      cbv zeta. rewrite zero_over_zero. reflexivity.
    + reflexivity.
    + unfold Bezier.ease. rewrite Hin. reflexivity.
  - intros s fuel F1 F2 F3 F4 Hs.
    apply finite_triple in F1 as [a1 ->].
    apply finite_triple in F2 as [b1 ->].
    apply finite_triple in F3 as [a2 ->].
    apply finite_triple in F4 as [b2 ->].
    exists (Bezier.mk (Fin a1) (Fin b1) (Fin a2) (Fin b2) [(Fin 0, Fin 0)]).
    conj_split.
    + unfold Bezier.tabulate. cbn [Bezier.loop INR].
      assert ((Fin 0 <=? Fin s) = true) as -> by (apply leb_fin; lra).
      assert ((Fin 1 <=? Fin s) = false) as ->.
      { unfold Num.leb. destruct (Rle_dec 1 s); [lra | reflexivity]. }
      cbv zeta. unfold Bezier.push.
      cbn [Bezier.arr Bezier.x1 Bezier.y1 Bezier.x2 Bezier.y2 app].
      assert (Fin 0 / Fin s = Fin 0) as ->.
      { unfold Num.div. destruct (Req_dec_T s 0); [lra |].
        apply (f_equal Fin). field. lra. }
      rewrite !pos_finite.
      rewrite (proj1 (bernstein_ends a1 a2)), (proj1 (bernstein_ends b1 b2)).
      reflexivity.
    + reflexivity.
    + intros Hpos fuel'. unfold Bezier.ease. rewrite Hin.
      apply search_without_end. exact Hpos.
  - intros fuel F1 F2 F3 F4.
    apply finite_triple in F1 as [a1 ->].
    apply finite_triple in F2 as [b1 ->].
    apply finite_triple in F3 as [a2 ->].
    apply finite_triple in F4 as [b2 ->].
    exists (Bezier.mk (Fin a1) (Fin b1) (Fin a2) (Fin b2)
              [(Fin 0, Fin 0); (Fin 1, Fin 1)]).
    assert (Cubic.samples a1 b1 a2 b2 1 = [(Fin 0, Fin 0); (Fin 1, Fin 1)])
      as Hs.
    { unfold Cubic.samples. cbn [seq map INR].
      replace (0 / 1)%R with 0%R by field.
      replace (1 / 1)%R with 1%R by field.
      rewrite (proj1 (bernstein_ends a1 a2)), (proj1 (bernstein_ends b1 b2)),
        (proj2 (bernstein_ends a1 a2)), (proj2 (bernstein_ends b1 b2)).
      reflexivity. }
    assert (Bezier.tabulate (S (S (S fuel)))
              (Bezier.mk (Fin a1) (Fin b1) (Fin a2) (Fin b2) []) (Fin (INR 1))
            = Some
                (Bezier.mk (Fin a1) (Fin b1) (Fin a2) (Fin b2)
                   ([] ++ Cubic.samples a1 b1 a2 b2 1))) as Htab
      by (apply (loop_samples a1 b1 a2 b2 1 ltac:(lia) 2 0); lia).
    rewrite Hs in Htab. cbn [app INR] in Htab.
    conj_split.
    + exact Htab.
    + reflexivity.
    + unfold Bezier.ease. rewrite Hin.
      cbn [Bezier.arr List.length Bezier.search Z.of_nat Pos.of_succ_nat
           Pos.succ Z.sub Z.add Z.opp Z.pos_sub Z.eqb Pos.eqb Bezier.item
           Z.ltb Z.compare Z.to_nat Pos.to_nat Pos.iter_op Nat.add
           nth_error].
      apply (f_equal Some), (f_equal Returned).
      exact (line_through_corners x).
Qed.

Example bezier_degenerate_steps_witness :
  let c := Bezier.mk (Fin 0) (Fin 0) (Fin 1) (Fin 1) [] in
  Bezier.tabulate 5 c PInf = None
  /\ (Bezier.tabulate 1 c NaN = Some c
      /\ Bezier.ease 1 c (Fin (1 / 2)) = Some TypeError)
  /\ (exists c' : Bezier.curve,
        Bezier.tabulate 2 c (Fin 0) = Some c'
        /\ Bezier.arr c' = [(NaN, NaN)]
        /\ Bezier.ease 1 c' (Fin (1 / 2)) = Some (Returned NaN))
  /\ (exists c' : Bezier.curve,
        Bezier.tabulate 2 c (Fin (1 / 2)) = Some c'
        /\ Bezier.arr c' = [(Fin 0, Fin 0)]
        /\ Bezier.ease 7 c' (Fin (1 / 2)) = None)
  /\ (exists c' : Bezier.curve,
        Bezier.tabulate 3 c (Fin 1) = Some c'
        /\ Bezier.arr c' = [(Fin 0, Fin 0); (Fin 1, Fin 1)]
        /\ Bezier.ease 1 c' (Fin (1 / 2)) = Some (Returned (Fin (1 / 2)))).
Proof.
  cbv zeta.
  destruct (bezier_degenerate_steps (Fin 0) (Fin 0) (Fin 1) (Fin 1)
              (Bezier.mk (Fin 0) (Fin 0) (Fin 1) (Fin 1) []) (1 / 2))
    as (A & B & C & D & E).
  - apply bezier_returns; lra.
  - lra.
  - split; [exact (A 5%nat) |].
    split; [exact (B NaN 0%nat eq_refl) |].
    split; [exact (C 0%nat) |].
    split.
    + destruct (D (1 / 2)%R 0%nat eq_refl eq_refl eq_refl eq_refl
                  ltac:(lra)) as (c' & T & R & N).
      exists c'. split; [exact T |]. split; [exact R |].
      apply N. lra.
    + exact (E 0%nat eq_refl eq_refl eq_refl eq_refl).
Defined.
